(** * calcconform-stable: the durable-write subsystem

    A shallow embedding of the persistence layer of the application
    ([src/utils/chunk.ts], the image storage helpers and the storage provider
    [src/contexts/StorageContext.tsx]) together with the properties that its
    specification states about it.

    JavaScript strings are sequences of UTF-16 code units; they are modelled
    as lists of numbers.  Keys of the key-value store are ASCII constants
    and are kept as [string]. *)

From Stdlib Require Import ZArith NArith Lia String Ascii.
From stdpp Require Import base list gmap strings pretty.

Open Scope Z_scope.

(** ** JavaScript strings *)

Abbreviation jsstring := (list N).

(** The code units of an ASCII literal. *)
Definition js (s : string) : jsstring :=
  map (fun a => N_of_ascii a) (list_ascii_of_string s).

Module Chunk.

(** *** [TextEncoder.encode]

    The platform encoder first turns the code units into Unicode scalar
    values (a high surrogate followed by a low one is one supplementary
    character; any other surrogate is replaced by U+FFFD) and then writes
    each scalar value in UTF-8. *)

Definition is_high_surrogate (c : N) : bool := ((0xD800 <=? c) && (c <=? 0xDBFF))%N.
Definition is_low_surrogate (c : N) : bool := ((0xDC00 <=? c) && (c <=? 0xDFFF))%N.

Fixpoint scalar_values (s : jsstring) : list N :=
  match s with
  | [] => []
  | c :: rest =>
      if is_high_surrogate c then
        match rest with
        | d :: rest' =>
            if is_low_surrogate d
            then (0x10000 + (c - 0xD800) * 0x400 + (d - 0xDC00))%N :: scalar_values rest'
            else 0xFFFD%N :: scalar_values rest
        | [] => [0xFFFD%N]
        end
      else if is_low_surrogate c then 0xFFFD%N :: scalar_values rest
      else c :: scalar_values rest
  end.

Definition utf8_bytes (cp : N) : list N :=
  if (cp <? 0x80)%N then [cp]
  else if (cp <? 0x800)%N then
    [N.lor 0xC0 (N.shiftr cp 6); N.lor 0x80 (N.land cp 0x3F)]
  else if (cp <? 0x10000)%N then
    [N.lor 0xE0 (N.shiftr cp 12);
     N.lor 0x80 (N.land (N.shiftr cp 6) 0x3F);
     N.lor 0x80 (N.land cp 0x3F)]
  else
    [N.lor 0xF0 (N.shiftr cp 18);
     N.lor 0x80 (N.land (N.shiftr cp 12) 0x3F);
     N.lor 0x80 (N.land (N.shiftr cp 6) 0x3F);
     N.lor 0x80 (N.land cp 0x3F)].

Definition TextEncoder_encode (s : jsstring) : list N :=
  flat_map utf8_bytes (scalar_values s).

Definition byteLength (s : jsstring) : Z := Z.of_nat (length (TextEncoder_encode s)).

(** *** The splitters

    Both loops run over [str[i]], one code unit at a time, carrying the list
    of finished chunks and the chunk under construction.  They differ only in
    how the candidate chunk is measured. *)

Definition split_step (measure : jsstring -> Z) (maxBytes : Z)
    (st : list jsstring * jsstring) (char : N) : list jsstring * jsstring :=
  let '(chunks, currentChunk) := st in
  let testChunk := currentChunk ++ [char] in
  if (measure testChunk >? maxBytes) && (0 <? length currentChunk)%nat
  then (chunks ++ [currentChunk], [char])
  else (chunks, testChunk).

Definition split_with (measure : jsstring -> Z) (str : jsstring) (maxBytes : Z)
    : list jsstring :=
  match str with
  | [] => []
  | _ =>
      let '(chunks, currentChunk) := fold_left (split_step measure maxBytes) str ([], []) in
      if (0 <? length currentChunk)%nat then chunks ++ [currentChunk] else chunks
  end.

Definition splitByBytes (str : jsstring) (maxBytes : Z) : list jsstring :=
  split_with byteLength str maxBytes.

Definition joinChunks (chunks : list jsstring) : jsstring := concat chunks.

(** The fallback estimates three bytes per code unit. *)
Definition estimatedBytes (testChunk : jsstring) : Z := Z.of_nat (length testChunk) * 3.

Definition splitByBytesLegacy (str : jsstring) (maxBytes : Z) : list jsstring :=
  split_with estimatedBytes str maxBytes.

(** [splitStringByBytes] picks the precise splitter when both [TextEncoder]
    and [window] exist.  Neither splitter throws, so the [catch] branch of
    the source is never taken. *)
Definition splitStringByBytes (hasTextEncoder hasWindow : bool)
    (str : jsstring) (maxBytes : Z) : list jsstring :=
  if hasTextEncoder && hasWindow then splitByBytes str maxBytes
  else splitByBytesLegacy str maxBytes.

(** A boundary between [c] and [d] lies inside a character when the two code
    units form a surrogate pair. *)
Definition splits_pair (left right : jsstring) : bool :=
  match last left, right with
  | Some c, d :: _ => is_high_surrogate c && is_low_surrogate d
  | _, _ => false
  end.

Fixpoint boundary_inside_character (chunks : list jsstring) : bool :=
  match chunks with
  | a :: ((b :: _) as rest) => splits_pair a b || boundary_inside_character rest
  | _ => false
  end.

End Chunk.


(** ** String helpers used by the storage code *)

Module JsString.

Fixpoint startsWith (s prefix : jsstring) : bool :=
  match prefix, s with
  | [], _ => true
  | p :: prefix', c :: s' => (c =? p)%N && startsWith s' prefix'
  | _ :: _, [] => false
  end.

(** [s.includes(sub)] *)
Fixpoint includes (s sub : jsstring) : bool :=
  startsWith s sub ||
  match s with
  | [] => false
  | _ :: s' => includes s' sub
  end.

(** [s.split(sep)] for a one-character separator. *)
Fixpoint split_on (sep : N) (s : jsstring) : list jsstring :=
  match s with
  | [] => [[]]
  | c :: s' =>
      match split_on sep s' with
      | seg :: segs => if (c =? sep)%N then [] :: seg :: segs else (c :: seg) :: segs
      | [] => [[c]]
      end
  end.

(** [s.replace(pat, rep)] with a string pattern: the first occurrence only. *)
Fixpoint replace_first (pat rep : jsstring) (s : jsstring) : jsstring :=
  if startsWith s pat then rep ++ drop (length pat) s
  else match s with
       | [] => []
       | c :: s' => c :: replace_first pat rep s'
       end.

(** [parts.join(sep)] *)
Fixpoint join (sep : jsstring) (parts : list jsstring) : jsstring :=
  match parts with
  | [] => []
  | [p] => p
  | p :: rest => p ++ sep ++ join sep rest
  end.

(** Truthiness of a string that may be [null] or [undefined]. *)
Definition truthy (o : option jsstring) : bool :=
  match o with
  | Some (_ :: _) => true
  | _ => false
  end.

Definition eqb (a b : jsstring) : bool := bool_decide (a = b).

(** The decimal digits of a number, as [String(n)] prints them. *)
Definition decimal (z : Z) : jsstring := js (pretty z).

(** ECMAScript white space and line terminators: what [trim] strips and
    what the class [\s] matches. *)
Definition isWhiteSpace (c : N) : bool :=
  ((0x09 <=? c) && (c <=? 0x0D) || (c =? 0x20) || (c =? 0xA0) || (c =? 0x1680)
   || (0x2000 <=? c) && (c <=? 0x200A) || (c =? 0x2028) || (c =? 0x2029)
   || (c =? 0x202F) || (c =? 0x205F) || (c =? 0x3000) || (c =? 0xFEFF))%N.

Fixpoint trimStart (s : jsstring) : jsstring :=
  match s with
  | c :: s' => if isWhiteSpace c then trimStart s' else s
  | [] => []
  end.

Definition trim (s : jsstring) : jsstring := rev (trimStart (rev (trimStart s))).

(** [s.split(/\s+/)]: the pieces between maximal runs of white space.  The
    flag tells whether the scan is inside a separator; [current] is the piece
    read so far. *)
Fixpoint split_ws_from (inSeparator : bool) (current : jsstring) (s : jsstring)
    : list jsstring :=
  match s with
  | [] => [current]
  | c :: s' =>
      if isWhiteSpace c then
        if inSeparator then split_ws_from true current s'
        else current :: split_ws_from true [] s'
      else split_ws_from false (current ++ [c]) s'
  end.

Definition split_whitespace (s : jsstring) : list jsstring := split_ws_from false [] s.

(** [s.indexOf(c)] for a one-character string [c]; [None] is the [-1] of the
    source. *)
Fixpoint indexOf (c : N) (s : jsstring) : option nat :=
  match s with
  | [] => None
  | d :: s' => if (d =? c)%N then Some 0%nat else S <$> indexOf c s'
  end.

End JsString.


(** ** The data model *)

Module Data.

(** Dates are instants on the clock ([Date.getTime()]).  Domain attributes
    that no operation of the storage layer reads are left out. *)

Record Shutter := mkShutter {
  s_id : jsstring;
  s_zoneId : jsstring;
  s_name : jsstring;
  s_remarks : option jsstring;
  s_createdAt : Z;
  s_updatedAt : Z;
}.

Record FunctionalZone := mkZone {
  z_id : jsstring;
  z_buildingId : jsstring;
  z_name : jsstring;
  z_createdAt : Z;
  z_shutters : list Shutter;
}.

Record Building := mkBuilding {
  b_id : jsstring;
  b_projectId : jsstring;
  b_name : jsstring;
  b_createdAt : Z;
  b_functionalZones : list FunctionalZone;
}.

Record Project := mkProject {
  p_id : jsstring;
  p_name : jsstring;
  p_city : option jsstring;
  p_createdAt : Z;
  p_updatedAt : Z;
  p_buildings : list Building;
}.

Record Note := mkNote {
  n_id : jsstring;
  n_title : jsstring;
  n_content : jsstring;
  n_images : option (list jsstring);
  n_createdAt : Z;
  n_updatedAt : Z;
}.

Inductive CalcStatus := compliant | acceptable | non_compliant.

Record QuickCalcHistoryItem := mkHistoryItem {
  h_id : jsstring;
  h_referenceFlow : Z;
  h_measuredFlow : Z;
  h_deviation : Z;
  h_status : CalcStatus;
  h_color : jsstring;
  h_timestamp : Z;
}.

Record SearchResult := mkSearchResult {
  r_shutter : Shutter;
  r_zone : FunctionalZone;
  r_building : Building;
  r_project : Project;
}.

(** What the callers pass to the [create...] operations
    ([Omit<T, 'id' | ...>]). *)
Record ProjectData := { pd_name : jsstring; pd_city : option jsstring }.
Record BuildingData := { bd_name : jsstring }.
Record ShutterData := { sd_name : jsstring; sd_remarks : option jsstring }.
Record NoteData := { nd_title : jsstring; nd_content : jsstring; nd_images : option (list jsstring) }.
Record HistoryData := {
  hd_referenceFlow : Z; hd_measuredFlow : Z; hd_deviation : Z;
  hd_status : CalcStatus; hd_color : jsstring }.

(** An [updates : Partial<T>] object is represented by the function
    [old => ({...old, ...updates})] that it induces.  [updateNote] also reads
    [updates.images] on its own. *)
Record NoteUpdates := { nu_spread : Note -> Note; nu_images : option (list jsstring) }.

(** A date as it sits in a stored document: the text that [JSON.stringify]
    writes for a [Date], given by the instant that [new Date(text)] reads
    from it, or a number, which [new Date(n)] takes as the instant itself.
    (A text that [new Date] cannot read has no instant and is left out.) *)
Inductive StoredDate :=
| DateText (instant : Z)
| DateNumber (n : Z).

(** A note as [JSON.parse] returns it: dates are still in their stored form,
    and the images and the dates may be missing ([None] also stands for
    [null] and for an empty text, which are falsy like a missing field). *)
Record RawNote := mkRawNote {
  raw_id : jsstring;
  raw_title : jsstring;
  raw_content : jsstring;
  raw_images : option (list jsstring);
  raw_createdAt : option StoredDate;
  raw_updatedAt : option StoredDate;
}.

Record Metadata := { totalChunks : Z; timestamp : Z; version : jsstring }.

(** The React state of the provider. *)
Record AppState := mkAppState {
  projects : list Project;
  favoriteProjects : list jsstring;
  favoriteBuildings : list jsstring;
  favoriteZones : list jsstring;
  favoriteShutters : list jsstring;
  favoriteNotes : list jsstring;
  quickCalcHistory : list QuickCalcHistoryItem;
  notes : list Note;
}.

Definition emptyState : AppState := mkAppState [] [] [] [] [] [] [] [].

Definition with_projects (v : list Project) (s : AppState) : AppState :=
  mkAppState v (favoriteProjects s) (favoriteBuildings s) (favoriteZones s)
    (favoriteShutters s) (favoriteNotes s) (quickCalcHistory s) (notes s).
Definition with_favoriteProjects (v : list jsstring) (s : AppState) : AppState :=
  mkAppState (projects s) v (favoriteBuildings s) (favoriteZones s)
    (favoriteShutters s) (favoriteNotes s) (quickCalcHistory s) (notes s).
Definition with_favoriteBuildings (v : list jsstring) (s : AppState) : AppState :=
  mkAppState (projects s) (favoriteProjects s) v (favoriteZones s)
    (favoriteShutters s) (favoriteNotes s) (quickCalcHistory s) (notes s).
Definition with_favoriteZones (v : list jsstring) (s : AppState) : AppState :=
  mkAppState (projects s) (favoriteProjects s) (favoriteBuildings s) v
    (favoriteShutters s) (favoriteNotes s) (quickCalcHistory s) (notes s).
Definition with_favoriteShutters (v : list jsstring) (s : AppState) : AppState :=
  mkAppState (projects s) (favoriteProjects s) (favoriteBuildings s) (favoriteZones s)
    v (favoriteNotes s) (quickCalcHistory s) (notes s).
Definition with_favoriteNotes (v : list jsstring) (s : AppState) : AppState :=
  mkAppState (projects s) (favoriteProjects s) (favoriteBuildings s) (favoriteZones s)
    (favoriteShutters s) v (quickCalcHistory s) (notes s).
Definition with_quickCalcHistory (v : list QuickCalcHistoryItem) (s : AppState) : AppState :=
  mkAppState (projects s) (favoriteProjects s) (favoriteBuildings s) (favoriteZones s)
    (favoriteShutters s) (favoriteNotes s) v (notes s).
Definition with_notes (v : list Note) (s : AppState) : AppState :=
  mkAppState (projects s) (favoriteProjects s) (favoriteBuildings s) (favoriteZones s)
    (favoriteShutters s) (favoriteNotes s) (quickCalcHistory s) v.

End Data.

(** ** The platform: key-value store, blob files, clock *)

Module Platform.
Import Data.

(** The calls that reach the outside; each of them may fail on its own. *)
Inductive Call :=
| GetItem (key : string)
| SetItem (key : string) (value : jsstring)
| RemoveItem (key : string)
| MultiRemove (keys : list string)
| GetAllKeys
| GetInfoAsync (path : jsstring)
| MakeDirectoryAsync (path : jsstring)
| WriteAsStringAsync (path data : jsstring)
| DeleteAsync (path : jsstring).

Record Event := mkEvent { ev_call : Call; ev_failed : bool }.

(** [w_faults] decides the calls to come, in the order they are made: [true]
    makes the call throw; when the list is used up every call succeeds.
    [w_random] feeds [Math.random().toString(36).substr(2, 9)]. *)
Record World := mkWorld {
  w_store : gmap string jsstring;
  w_files : gmap jsstring jsstring;
  w_dirs : gset jsstring;
  w_faults : list bool;
  w_now : Z;
  w_random : list jsstring;
  w_state : AppState;
  w_projectsRef : list Project;
}.

Definition with_store (f : gmap string jsstring -> gmap string jsstring) (w : World) : World :=
  mkWorld (f (w_store w)) (w_files w) (w_dirs w) (w_faults w) (w_now w) (w_random w)
    (w_state w) (w_projectsRef w).
Definition with_files (f : gmap jsstring jsstring -> gmap jsstring jsstring) (w : World) : World :=
  mkWorld (w_store w) (f (w_files w)) (w_dirs w) (w_faults w) (w_now w) (w_random w)
    (w_state w) (w_projectsRef w).
Definition with_dirs (f : gset jsstring -> gset jsstring) (w : World) : World :=
  mkWorld (w_store w) (w_files w) (f (w_dirs w)) (w_faults w) (w_now w) (w_random w)
    (w_state w) (w_projectsRef w).
Definition with_faults (fs : list bool) (w : World) : World :=
  mkWorld (w_store w) (w_files w) (w_dirs w) fs (w_now w) (w_random w)
    (w_state w) (w_projectsRef w).
Definition with_random (r : list jsstring) (w : World) : World :=
  mkWorld (w_store w) (w_files w) (w_dirs w) (w_faults w) (w_now w) r
    (w_state w) (w_projectsRef w).
Definition with_state (f : AppState -> AppState) (w : World) : World :=
  mkWorld (w_store w) (w_files w) (w_dirs w) (w_faults w) (w_now w) (w_random w)
    (f (w_state w)) (w_projectsRef w).
Definition with_projectsRef (ps : list Project) (w : World) : World :=
  mkWorld (w_store w) (w_files w) (w_dirs w) (w_faults w) (w_now w) (w_random w)
    (w_state w) ps.

(** *** Asynchronous code

    An [async] function is a state transformer that either returns or
    throws, and that records the outside calls it made.  The handlers of the
    source only log the error they catch, so a throw carries no value. *)

Inductive Outcome (A : Type) : Type :=
| Returned (a : A)
| Thrown.
Arguments Returned {A} a.
Arguments Thrown {A}.

Definition Async (A : Type) : Type := World -> Outcome A * World * list Event.

Definition ret {A} (a : A) : Async A := fun w => (Returned a, w, []).

Definition throw {A} : Async A := fun w => (Thrown, w, []).

Definition bind {A B} (m : Async A) (k : A -> Async B) : Async B :=
  fun w =>
    match m w with
    | (Returned a, w1, e1) =>
        match k a w1 with
        | (r, w2, e2) => (r, w2, e1 ++ e2)
        end
    | (Thrown, w1, e1) => (Thrown, w1, e1)
    end.

(** The three components of a run. *)
Definition outcome {A} (r : Outcome A * World * list Event) : Outcome A := r.1.1.
Definition world_after {A} (r : Outcome A * World * list Event) : World := r.1.2.
Definition events {A} (r : Outcome A * World * list Event) : list Event := r.2.

(** [try { body } catch { handler }] *)
Definition try_catch {A} (body handler : Async A) : Async A :=
  fun w =>
    match body w with
    | (Returned a, w1, e1) => (Returned a, w1, e1)
    | (Thrown, w1, e1) =>
        match handler w1 with
        | (r, w2, e2) => (r, w2, e1 ++ e2)
        end
    end.

Declare Scope async_scope.
Delimit Scope async_scope with async.
Notation "x <- m ;; k" := (bind m (fun x => k))
  (at level 100, m at next level, right associativity) : async_scope.
Notation "m ;;; k" := (bind m (fun _ => k))
  (at level 100, right associativity) : async_scope.
Open Scope async_scope.

(** Reading and writing the provider's own state never fails. *)
Definition get {A} (f : World -> A) : Async A := fun w => (Returned (f w), w, []).
Definition modify (f : World -> World) : Async unit := fun w => (Returned tt, f w, []).

(** One call to the outside. *)
Definition outside {A} (c : Call) (effect : World -> A * World) : Async A :=
  fun w =>
    match w_faults w with
    | true :: fs => (Thrown, with_faults fs w, [mkEvent c true])
    | false :: fs => let '(a, w') := effect (with_faults fs w) in (Returned a, w', [mkEvent c false])
    | [] => let '(a, w') := effect w in (Returned a, w', [mkEvent c false])
    end.

(** A loop over a list that threads an accumulator. *)
Fixpoint for_each {A S} (l : list A) (body : S -> A -> Async S) (acc : S) : Async S :=
  match l with
  | [] => ret acc
  | x :: l' => acc' <- body acc x ;; for_each l' body acc'
  end.

Module AsyncStorage.
Definition getItem (key : string) : Async (option jsstring) :=
  outside (GetItem key) (fun w => (w_store w !! key, w)).
Definition setItem (key : string) (value : jsstring) : Async unit :=
  outside (SetItem key value) (fun w => (tt, with_store (insert key value) w)).
Definition removeItem (key : string) : Async unit :=
  outside (RemoveItem key) (fun w => (tt, with_store (delete key) w)).
Definition multiRemove (keys : list string) : Async unit :=
  outside (MultiRemove keys) (fun w => (tt, with_store (fun m => foldr delete m keys) w)).
Definition getAllKeys : Async (list string) :=
  outside GetAllKeys (fun w => ((map_to_list (w_store w)).*1, w)).
End AsyncStorage.

Module FileSystem.
Definition getInfoAsync_exists (path : jsstring) : Async bool :=
  outside (GetInfoAsync path)
    (fun w => (bool_decide (path ∈ w_dirs w) || bool_decide (is_Some (w_files w !! path)), w)).
Definition makeDirectoryAsync (path : jsstring) : Async unit :=
  outside (MakeDirectoryAsync path) (fun w => (tt, with_dirs (fun d => {[path]} ∪ d) w)).
Definition writeAsStringAsync (path data : jsstring) : Async unit :=
  outside (WriteAsStringAsync path data) (fun w => (tt, with_files (insert path data) w)).
Definition deleteAsync (path : jsstring) : Async unit :=
  outside (DeleteAsync path)
    (fun w => (tt, with_dirs (fun d => d ∖ {[path]}) (with_files (delete path) w))).
End FileSystem.

Definition Date_now : Async Z := get w_now.

Definition Math_random_token : Async jsstring :=
  fun w =>
    match w_random w with
    | r :: rs => (Returned r, with_random rs w, [])
    | [] => (Returned [], w, [])
    end.

(** What [JSON.parse] makes of a stored document that should be an array:
    it throws; or it yields a value that is neither an array nor a string (a
    number, a boolean, [null] or an object), which cannot be spread; or it
    yields a string, which is no array but spreads into its characters, one
    item each; or it yields an array. *)
Inductive Parsed (A : Type) : Type :=
| SyntaxError
| NotAnArray
| AString (characters : list A)
| AnArray (items : list A).
Arguments SyntaxError {A}.
Arguments NotAnArray {A}.
Arguments AString {A} characters.
Arguments AnArray {A} items.

(** What reading [JSON.parse(text).totalChunks] gives: the parse or the
    field access throws, the field is not a number, or it is a number. *)
Inductive ParsedMeta :=
| MetaUnreadable
| MetaWithoutCount
| MetaCount (totalChunks : Z).

(** What is fixed for a run: the platform, the [JSON] built-in at the types
    the provider uses it at, and [String.prototype.toLowerCase]. *)
Class Runtime := {
  OS_web : bool;
  hasTextEncoder : bool;
  hasWindow : bool;
  documentDirectory : jsstring;
  toLowerCase : jsstring -> jsstring;
  JSON_stringify_projects : list Project -> jsstring;
  JSON_stringify_notes : list Note -> jsstring;
  JSON_stringify_ids : list jsstring -> jsstring;
  JSON_stringify_history : list QuickCalcHistoryItem -> jsstring;
  JSON_stringify_metadata : Metadata -> jsstring;
  JSON_parse_notes : jsstring -> Parsed RawNote;
  JSON_parse_metadata : jsstring -> ParsedMeta;
}.

End Platform.

(** ** Image storage ([utils/imageStorage]) *)

Module ImageStorage.
Import JsString Data Platform.

Section WithRuntime.
Context {rt : Runtime}.

Definition IMAGES_DIR : jsstring := js "notes/".

Definition getImageExtension (base64Image : jsstring) : jsstring :=
  if includes base64Image (js "data:image/jpeg") then js "jpg"
  else if includes base64Image (js "data:image/jpg") then js "jpg"
  else if includes base64Image (js "data:image/png") then js "png"
  else if includes base64Image (js "data:image/webp") then js "webp"
  else if includes base64Image (js "data:image/gif") then js "gif"
  else js "jpg".

(** One turn of the loop of [persistImagesIfNeeded]: the body sits in a
    [try] whose handler only logs. *)
Definition persist_image (imagesDir : jsstring) (persistedImages : list jsstring)
    (entry : nat * jsstring) : Async (list jsstring) :=
  let '(i, image) := entry in
  try_catch
    (if startsWith image (js "file://") then ret (persistedImages ++ [image])
     else if startsWith image (js "data:image/") then
       now <- Date_now ;;
       random <- Math_random_token ;;
       let imageId := js "img_" ++ decimal now ++ js "_" ++ decimal (Z.of_nat i) ++ js "_" ++ random in
       let extension := getImageExtension image in
       let fileName := imageId ++ js "." ++ extension in
       let filePath := imagesDir ++ fileName in
       match split_on 44 image !! 1%nat with
       | Some ((_ :: _) as base64Data) =>
           FileSystem.writeAsStringAsync filePath base64Data ;;;
           ret (persistedImages ++ [js "file://" ++ filePath])
       | _ => ret persistedImages
       end
     else ret persistedImages)
    (ret persistedImages).

Definition persistImagesIfNeeded (images : option (list jsstring))
    : Async (option (list jsstring)) :=
  match images with
  | None | Some [] => ret None
  | Some imgs =>
      if OS_web then ret (Some imgs)
      else
        let imagesDir := documentDirectory ++ IMAGES_DIR in
        try_catch
          (dirExists <- FileSystem.getInfoAsync_exists imagesDir ;;
           if dirExists then ret tt else FileSystem.makeDirectoryAsync imagesDir)
          (ret tt) ;;;
        persistedImages <- for_each (imap (fun i image => (i, image)) imgs)
                             (persist_image imagesDir) [] ;;
        ret (if (0 <? length persistedImages)%nat then Some persistedImages else None)
  end.

Definition remove_image (_ : unit) (uri : jsstring) : Async unit :=
  if startsWith uri (js "file://") then
    try_catch
      (let filePath := replace_first (js "file://") [] uri in
       fileExists <- FileSystem.getInfoAsync_exists filePath ;;
       if fileExists then FileSystem.deleteAsync filePath else ret tt)
      (ret tt)
  else ret tt.

Definition removeImages (uris : option (list jsstring)) : Async unit :=
  match uris with
  | None | Some [] => ret tt
  | Some us => if OS_web then ret tt else for_each us remove_image tt
  end.

End WithRuntime.
End ImageStorage.

(** ** The storage provider ([contexts/StorageContext]) *)

Module StorageContext.
Import JsString Data Platform ImageStorage.

Module STORAGE_KEYS.
Definition PROJECTS : string := "SIEMENS_PROJECTS".
Definition FAVORITE_PROJECTS : string := "SIEMENS_FAV_PROJECTS".
Definition FAVORITE_BUILDINGS : string := "SIEMENS_FAV_BUILDINGS".
Definition FAVORITE_ZONES : string := "SIEMENS_FAV_ZONES".
Definition FAVORITE_SHUTTERS : string := "SIEMENS_FAV_SHUTTERS".
Definition FAVORITE_NOTES : string := "SIEMENS_FAV_NOTES".
Definition QUICK_CALC_HISTORY : string := "SIEMENS_CALC_HISTORY".
Definition NOTES : string := "SIEMENS_NOTES".
Definition NOTES_TMP : string := "SIEMENS_NOTES_TMP".
Definition NOTES_META : string := "SIEMENS_NOTES_META".
End STORAGE_KEYS.
Import STORAGE_KEYS.

(** [`${STORAGE_KEYS.NOTES}_chunk_`] and the key of chunk [i]. *)
Definition chunkPrefix : string := NOTES +:+ "_chunk_".
Definition chunkKey (i : nat) : string := chunkPrefix +:+ pretty i.
Definition legacyMetaKey : string := NOTES +:+ "_chunks_meta".

Definition key_startsWith (key prefix : string) : bool := String.prefix prefix key.

(** The size above which a document is chunked, and the size of a chunk:
    [500 * 1024]. *)
Definition maxChunkSize : Z := 500 * 1024.

Section WithRuntime.
Context {rt : Runtime}.

Definition generateUniqueId : Async jsstring :=
  timestamp <- Date_now ;;
  random <- Math_random_token ;;
  ret (decimal timestamp ++ js "_" ++ random).

Definition safeStorageOperation {T} (operation : Async T) (fallback : T) : Async T :=
  try_catch operation (ret fallback).

(** The write queue.  A task handed to [enqueue] starts once the tasks before
    it have settled, and its own outcome goes to the caller.  For a caller
    that awaits it on an idle queue this is the task itself; calls that do
    not wait for each other are modelled by [EventLoop] below. *)
Definition enqueue {T} (fn : Async T) : Async T := fn.

(** [Promise.all([queued, direct])] where [queued] went through [enqueue] and
    [direct] did not: the outside call of [direct] is issued first, the
    queued task starts in a later microtask, and both run to their end
    whatever the other does.  The result rejects when one of them does. *)
Definition Promise_all {A B} (queued : Async A) (direct : Async B) : Async (A * B) :=
  fun w =>
    match direct w with
    | (rb, w1, e1) =>
        match queued w1 with
        | (ra, w2, e2) =>
            (match ra, rb with
             | Returned a, Returned b => Returned (a, b)
             | _, _ => Thrown
             end, w2, e1 ++ e2)
        end
    end.

Definition setProjects (v : list Project) : Async unit := modify (with_state (with_projects v)).
Definition setNotes (v : list Note) : Async unit := modify (with_state (with_notes v)).
Definition setFavoriteProjectsState (v : list jsstring) : Async unit :=
  modify (with_state (with_favoriteProjects v)).
Definition setFavoriteBuildingsState (v : list jsstring) : Async unit :=
  modify (with_state (with_favoriteBuildings v)).
Definition setFavoriteZonesState (v : list jsstring) : Async unit :=
  modify (with_state (with_favoriteZones v)).
Definition setFavoriteShuttersState (v : list jsstring) : Async unit :=
  modify (with_state (with_favoriteShutters v)).
Definition setFavoriteNotesState (v : list jsstring) : Async unit :=
  modify (with_state (with_favoriteNotes v)).
Definition setQuickCalcHistoryState (v : list QuickCalcHistoryItem) : Async unit :=
  modify (with_state (with_quickCalcHistory v)).

(** The effect [projectsRef.current = projects], run after a render. *)
Definition commitRender (w : World) : World := with_projectsRef (projects (w_state w)) w.

(** *** Saving *)

(** The body that [saveProjects] puts on the queue.  The service worker is
    told to drop its cache afterwards, inside a [try] of its own; that
    message touches nothing modelled here. *)
Definition saveProjects_task (newProjects : list Project) : Async unit :=
  try_catch
    (AsyncStorage.setItem PROJECTS (JSON_stringify_projects newProjects) ;;;
     setProjects newProjects)
    throw.

Definition saveProjects (newProjects : list Project) : Async unit :=
  enqueue (saveProjects_task newProjects).

Definition has_inline_image (images : option (list jsstring)) : bool :=
  match images with
  | Some imgs => existsb (fun img => startsWith img (js "data:image/")) imgs
  | None => false
  end.

Definition with_images (images : option (list jsstring)) (n : Note) : Note :=
  mkNote (n_id n) (n_title n) (n_content n) images (n_createdAt n) (n_updatedAt n).
Definition with_note_updatedAt (t : Z) (n : Note) : Note :=
  mkNote (n_id n) (n_title n) (n_content n) (n_images n) (n_createdAt n) t.

Definition sanitizeNotesImages (notes : list Note) : Async (list Note) :=
  if OS_web then ret notes
  else
    for_each notes
      (fun sanitizedNotes note =>
         if has_inline_image (n_images note) then
           persistedImages <- persistImagesIfNeeded (n_images note) ;;
           ret (sanitizedNotes ++ [with_images persistedImages note])
         else ret (sanitizedNotes ++ [note]))
      [].

Definition saveNotesWithUTF8Chunks (notes : list Note) (dataString : jsstring) : Async unit :=
  let chunks := Chunk.splitStringByBytes hasTextEncoder hasWindow dataString maxChunkSize in
  now <- Date_now ;;
  let metadata := {| totalChunks := Z.of_nat (length chunks); timestamp := now; version := js "2.0" |} in
  AsyncStorage.setItem NOTES_META (JSON_stringify_metadata metadata) ;;;
  for_each (imap (fun i chunk => (i, chunk)) chunks)
    (fun _ entry => AsyncStorage.setItem (chunkKey (fst entry)) (snd entry)) tt ;;;
  AsyncStorage.removeItem NOTES.

Definition cleanupOldChunks : Async unit :=
  try_catch
    (allKeys <- AsyncStorage.getAllKeys ;;
     let chunkKeys := List.filter (fun key => key_startsWith key chunkPrefix) allKeys in
     if (0 <? length chunkKeys)%nat then
       AsyncStorage.multiRemove chunkKeys ;;;
       AsyncStorage.removeItem NOTES_META
     else ret tt)
    (ret tt).

Definition saveNotes_task (newNotes : list Note) : Async unit :=
  try_catch
    (sanitizedNotes <- sanitizeNotesImages newNotes ;;
     let dataString := JSON_stringify_notes sanitizedNotes in
     AsyncStorage.setItem NOTES_TMP dataString ;;;
     (if Z.of_nat (length dataString) >? 500 * 1024
      then saveNotesWithUTF8Chunks sanitizedNotes dataString
      else AsyncStorage.setItem NOTES dataString) ;;;
     AsyncStorage.removeItem NOTES_TMP ;;;
     cleanupOldChunks ;;;
     setNotes sanitizedNotes)
    (try_catch (AsyncStorage.removeItem NOTES_TMP) (ret tt) ;;; throw).

Definition saveNotes (newNotes : list Note) : Async unit :=
  enqueue (saveNotes_task newNotes).

(** *** Loading *)

(** [loadNotesFromChunks]: the loop that reads chunk [i], [i + 1], ... and
    gives up at the first one that is missing. *)
Fixpoint read_chunks (indexes : list nat) (chunks : list jsstring)
    : Async (option (list jsstring)) :=
  match indexes with
  | [] => ret (Some chunks)
  | i :: rest =>
      chunk <- AsyncStorage.getItem (chunkKey i) ;;
      match chunk with
      | Some ((_ :: _) as c) => read_chunks rest (chunks ++ [c])
      | _ => ret None
      end
  end.

Definition loadNotesFromChunks : Async (option jsstring) :=
  try_catch
    (metadataString <- AsyncStorage.getItem NOTES_META ;;
     match metadataString with
     | Some ((_ :: _) as m) =>
         match JSON_parse_metadata m with
         | MetaUnreadable => throw
         | MetaWithoutCount => ret (Some (Chunk.joinChunks []))
         | MetaCount n =>
             chunks <- read_chunks (seq 0 (Z.to_nat n)) [] ;;
             ret (Chunk.joinChunks <$> chunks)
         end
     | _ => ret None
     end)
    (ret None).

(** [new Date(value || Date.now())]: a missing value and the number [0] are
    falsy. *)
Definition date_or_now (now : Z) (value : option StoredDate) : Z :=
  match value with
  | Some (DateText instant) => instant
  | Some (DateNumber n) => if n =? 0 then now else n
  | None => now
  end.

Definition processNote (now : Z) (note : RawNote) : Note :=
  mkNote (raw_id note) (raw_title note) (raw_content note)
    (Some (default [] (raw_images note)))
    (date_or_now now (raw_createdAt note))
    (date_or_now now (raw_updatedAt note)).

(** The fallback inside [initializeStorage], taken when the primary key does
    not parse: it reads [`${NOTES}_chunks_meta`], parses every chunk that is
    there and spreads it into the array of notes. *)
Definition loadLegacyChunks : Async (list RawNote) :=
  chunksMetaData <- AsyncStorage.getItem legacyMetaKey ;;
  match chunksMetaData with
  | Some ((_ :: _) as m) =>
      match JSON_parse_metadata m with
      | MetaUnreadable => throw
      | MetaWithoutCount => ret []
      | MetaCount n =>
          for_each (seq 0 (Z.to_nat n))
            (fun allChunks i =>
               chunkData <- AsyncStorage.getItem (chunkKey i) ;;
               match chunkData with
               | Some ((_ :: _) as d) =>
                   match JSON_parse_notes d with
                   | AnArray chunk | AString chunk => ret (allChunks ++ chunk)
                   | NotAnArray | SyntaxError => throw
                   end
               | _ => ret allChunks
               end)
            []
      end
  | _ => ret []
  end.

(** The part of [initializeStorage] that loads the notes. *)
Definition initializeStorage_notes : Async unit :=
  notesData <- safeStorageOperation (AsyncStorage.getItem NOTES) None ;;
  try_catch
    (loadedNotes <-
       match notesData with
       | Some ((_ :: _) as data) =>
           if negb (eqb data (js "undefined")) && negb (eqb data (js "null")) then
             match JSON_parse_notes data with
             | AnArray parsedNotes => ret parsedNotes
             | NotAnArray | AString _ => ret []
             | SyntaxError => try_catch loadLegacyChunks (ret [])
             end
           else ret []
       | _ => ret []
       end ;;
     now <- Date_now ;;
     setNotes (map (processNote now) loadedNotes))
    (setNotes []).


(** *** Searching *)

Definition queryWords (query : jsstring) : list jsstring :=
  List.filter (fun word => (0 <? length word)%nat)
    (split_whitespace (trim (toLowerCase query))).

(** [value || ''] for an optional string. *)
Definition or_empty (value : option jsstring) : jsstring := default [] value.

Definition searchableText (shutter : Shutter) (zone : FunctionalZone)
    (building : Building) (project : Project) : jsstring :=
  toLowerCase
    (join (js " ")
       [s_name shutter; z_name zone; b_name building; p_name project;
        or_empty (p_city project); or_empty (s_remarks shutter)]).

Definition matchesAllWords (queryWords : list jsstring) (text : jsstring) : bool :=
  forallb (fun word => includes text word) queryWords.

(** The four nested loops; [results.push] appends. *)
Definition searchShutters (projectsRef : list Project) (query : jsstring) : list SearchResult :=
  let queryWords := queryWords query in
  fold_left (fun results project =>
    fold_left (fun results building =>
      fold_left (fun results zone =>
        fold_left (fun results shutter =>
          if matchesAllWords queryWords (searchableText shutter zone building project)
          then results ++ [mkSearchResult shutter zone building project]
          else results)
        (z_shutters zone) results)
      (b_functionalZones building) results)
    (p_buildings project) results)
  projectsRef [].

(** *** The quick-calc history *)

Definition newHistoryItem (item : HistoryData) (id : jsstring) (now : Z) : QuickCalcHistoryItem :=
  mkHistoryItem id (hd_referenceFlow item) (hd_measuredFlow item) (hd_deviation item)
    (hd_status item) (hd_color item) now.

(** The operations close over the state of the render they were created
    in; that state is their first argument. *)
Definition addQuickCalcHistory (rendered : AppState) (item : HistoryData) : Async unit :=
  id <- generateUniqueId ;;
  now <- Date_now ;;
  let newItem := newHistoryItem item id now in
  let newHistory := newItem :: quickCalcHistory rendered in
  safeStorageOperation
    (AsyncStorage.setItem QUICK_CALC_HISTORY (JSON_stringify_history newHistory)) tt ;;;
  setQuickCalcHistoryState newHistory.

Definition clearQuickCalcHistory : Async unit :=
  safeStorageOperation
    (AsyncStorage.setItem QUICK_CALC_HISTORY (JSON_stringify_history [])) tt ;;;
  setQuickCalcHistoryState [].

Definition removeQuickCalcHistoryItem (rendered : AppState) (itemId : jsstring) : Async unit :=
  let newHistory := List.filter (fun item => negb (eqb (h_id item) itemId)) (quickCalcHistory rendered) in
  safeStorageOperation
    (AsyncStorage.setItem QUICK_CALC_HISTORY (JSON_stringify_history newHistory)) tt ;;;
  setQuickCalcHistoryState newHistory.

(** *** Favourites *)

Definition setFavoriteProjects (favorites : list jsstring) : Async unit :=
  safeStorageOperation
    (AsyncStorage.setItem FAVORITE_PROJECTS (JSON_stringify_ids favorites)) tt ;;;
  setFavoriteProjectsState favorites.

Definition setFavoriteBuildings (favorites : list jsstring) : Async unit :=
  safeStorageOperation
    (AsyncStorage.setItem FAVORITE_BUILDINGS (JSON_stringify_ids favorites)) tt ;;;
  setFavoriteBuildingsState favorites.

Definition setFavoriteZones (favorites : list jsstring) : Async unit :=
  safeStorageOperation
    (AsyncStorage.setItem FAVORITE_ZONES (JSON_stringify_ids favorites)) tt ;;;
  setFavoriteZonesState favorites.

Definition setFavoriteShutters (favorites : list jsstring) : Async unit :=
  safeStorageOperation
    (AsyncStorage.setItem FAVORITE_SHUTTERS (JSON_stringify_ids favorites)) tt ;;;
  setFavoriteShuttersState favorites.

Definition setFavoriteNotes (favorites : list jsstring) : Async unit :=
  safeStorageOperation
    (AsyncStorage.setItem FAVORITE_NOTES (JSON_stringify_ids favorites)) tt ;;;
  setFavoriteNotesState favorites.

(** *** The project tree *)

(** [array.findIndex(p)], paired with the element at the index found. *)
Fixpoint findIndex {A} (p : A -> bool) (l : list A) : option (nat * A) :=
  match l with
  | [] => None
  | x :: l' =>
      if p x then Some (0%nat, x)
      else match findIndex p l' with
           | Some (i, y) => Some (S i, y)
           | None => None
           end
  end.

(** A [for (let i = 0; ...)] loop that leaves at the first index where its
    body finds something. *)
Fixpoint first_from {A B} (i : nat) (f : nat -> A -> option B) (l : list A) : option B :=
  match l with
  | [] => None
  | x :: l' =>
      match f i x with
      | Some b => Some b
      | None => first_from (S i) f l'
      end
  end.

Definition first_index {A B} (f : nat -> A -> option B) (l : list A) : option B :=
  first_from 0 f l.

(** [ids.includes(id)] and [x.id !== id] *)
Definition includes_id (ids : list jsstring) (id : jsstring) : bool :=
  existsb (fun x => eqb x id) ids.
Definition differs (id other : jsstring) : bool := negb (eqb other id).

(** [[...l.slice(0, i), x, ...l.slice(i + 1)]] *)
Definition replace_at {A} (i : nat) (x : A) (l : list A) : list A :=
  take i l ++ [x] ++ drop (S i) l.

Definition with_p_updatedAt (now : Z) (p : Project) : Project :=
  mkProject (p_id p) (p_name p) (p_city p) (p_createdAt p) now (p_buildings p).
Definition with_buildings (buildings : list Building) (p : Project) : Project :=
  mkProject (p_id p) (p_name p) (p_city p) (p_createdAt p) (p_updatedAt p) buildings.
Definition with_functionalZones (zones : list FunctionalZone) (b : Building) : Building :=
  mkBuilding (b_id b) (b_projectId b) (b_name b) (b_createdAt b) zones.
Definition with_shutters (shutters : list Shutter) (z : FunctionalZone) : FunctionalZone :=
  mkZone (z_id z) (z_buildingId z) (z_name z) (z_createdAt z) shutters.
Definition with_s_updatedAt (now : Z) (s : Shutter) : Shutter :=
  mkShutter (s_id s) (s_zoneId s) (s_name s) (s_remarks s) (s_createdAt s) now.

(** Where an entity sits: the indexes the loops stop at, with the elements
    there. *)
Definition locateBuilding (projects : list Project) (buildingId : jsstring)
    : option (nat * Project * (nat * Building)) :=
  first_index (fun i project =>
    match findIndex (fun b => eqb (b_id b) buildingId) (p_buildings project) with
    | Some found => Some (i, project, found)
    | None => None
    end) projects.

Definition locateZone (projects : list Project) (zoneId : jsstring)
    : option (nat * Project * (nat * Building) * (nat * FunctionalZone)) :=
  first_index (fun i project =>
    first_index (fun j building =>
      match findIndex (fun z => eqb (z_id z) zoneId) (b_functionalZones building) with
      | Some found => Some (i, project, (j, building), found)
      | None => None
      end) (p_buildings project)) projects.

Definition locateShutter (projects : list Project) (shutterId : jsstring)
    : option (nat * Project * (nat * Building) * (nat * FunctionalZone) * (nat * Shutter)) :=
  first_index (fun i project =>
    first_index (fun j building =>
      first_index (fun k zone =>
        match findIndex (fun s => eqb (s_id s) shutterId) (z_shutters zone) with
        | Some found => Some (i, project, (j, building), (k, zone), found)
        | None => None
        end) (b_functionalZones building)) (p_buildings project)) projects.

(** The rebuilt project when zone [k] of building [j] gets new shutters, and
    when building [j] gets new zones. *)
Definition rebuild_zones (now : Z) (project : Project) (j : nat) (building : Building)
    (zones : list FunctionalZone) : Project :=
  with_p_updatedAt now
    (with_buildings (replace_at j (with_functionalZones zones building) (p_buildings project))
       project).

Definition rebuild_shutters (now : Z) (project : Project) (j : nat) (building : Building)
    (k : nat) (zone : FunctionalZone) (shutters : list Shutter) : Project :=
  rebuild_zones now project j building
    (replace_at k (with_shutters shutters zone) (b_functionalZones building)).

Definition createProject (projectData : ProjectData) : Async Project :=
  id <- generateUniqueId ;;
  createdAt <- Date_now ;;
  updatedAt <- Date_now ;;
  let newProject := mkProject id (pd_name projectData) (pd_city projectData) createdAt updatedAt [] in
  current <- get w_projectsRef ;;
  saveProjects (current ++ [newProject]) ;;;
  ret newProject.

Definition updateProject (id : jsstring) (updates : Project -> Project) : Async (option Project) :=
  current <- get w_projectsRef ;;
  match findIndex (fun p => eqb (p_id p) id) current with
  | None => ret None
  | Some (projectIndex, old) =>
      now <- Date_now ;;
      let updatedProject := with_p_updatedAt now (updates old) in
      saveProjects (<[projectIndex := updatedProject]> current) ;;;
      ret (Some updatedProject)
  end.

Definition deleteProject (rendered : AppState) (id : jsstring) : Async bool :=
  current <- get w_projectsRef ;;
  match findIndex (fun p => eqb (p_id p) id) current with
  | None => ret false
  | Some _ =>
      let newProjects := List.filter (fun p => differs id (p_id p)) current in
      let newFavoriteProjects := List.filter (differs id) (favoriteProjects rendered) in
      Promise_all (saveProjects newProjects) (setFavoriteProjects newFavoriteProjects) ;;;
      ret true
  end.

Definition createBuilding (projectId : jsstring) (buildingData : BuildingData)
    : Async (option Building) :=
  current <- get w_projectsRef ;;
  match findIndex (fun p => eqb (p_id p) projectId) current with
  | None => ret None
  | Some (projectIndex, project) =>
      id <- generateUniqueId ;;
      createdAt <- Date_now ;;
      let newBuilding := mkBuilding id projectId (bd_name buildingData) createdAt [] in
      now <- Date_now ;;
      let newProjects :=
        <[projectIndex :=
            with_p_updatedAt now (with_buildings (p_buildings project ++ [newBuilding]) project)]>
          current in
      saveProjects newProjects ;;;
      ret (Some newBuilding)
  end.

Definition updateBuilding (buildingId : jsstring) (updates : Building -> Building)
    : Async (option Building) :=
  current <- get w_projectsRef ;;
  match locateBuilding current buildingId with
  | Some (i, project, (buildingIndex, building)) =>
      let updatedBuilding := updates building in
      now <- Date_now ;;
      let newProjects :=
        <[i := with_p_updatedAt now
                 (with_buildings (replace_at buildingIndex updatedBuilding (p_buildings project))
                    project)]> current in
      saveProjects newProjects ;;;
      ret (Some updatedBuilding)
  | None => ret None
  end.

Definition deleteBuilding (rendered : AppState) (buildingId : jsstring) : Async bool :=
  current <- get w_projectsRef ;;
  match locateBuilding current buildingId with
  | Some (i, project, _) =>
      now <- Date_now ;;
      let newProjects :=
        <[i := with_p_updatedAt now
                 (with_buildings
                    (List.filter (fun b => differs buildingId (b_id b)) (p_buildings project))
                    project)]> current in
      let newFavoriteBuildings := List.filter (differs buildingId) (favoriteBuildings rendered) in
      Promise_all (saveProjects newProjects) (setFavoriteBuildings newFavoriteBuildings) ;;;
      ret true
  | None => ret false
  end.

Definition deleteBuildings (rendered : AppState) (ids : list jsstring) : Async bool :=
  try_catch
    (let newProjects :=
       map (fun project =>
              with_buildings
                (List.filter (fun b => negb (includes_id ids (b_id b))) (p_buildings project))
                project)
           (projects rendered) in
     let newFavoriteBuildings :=
       List.filter (fun fId => negb (includes_id ids fId)) (favoriteBuildings rendered) in
     setFavoriteBuildings newFavoriteBuildings ;;;
     saveProjects newProjects ;;;
     ret true)
    (ret false).

Definition updateFunctionalZone (zoneId : jsstring) (updates : FunctionalZone -> FunctionalZone)
    : Async (option FunctionalZone) :=
  current <- get w_projectsRef ;;
  match locateZone current zoneId with
  | Some (i, project, (j, building), (zoneIndex, zone)) =>
      let updatedZone := updates zone in
      now <- Date_now ;;
      let newProjects :=
        <[i := rebuild_zones now project j building
                 (replace_at zoneIndex updatedZone (b_functionalZones building))]> current in
      saveProjects newProjects ;;;
      ret (Some updatedZone)
  | None => ret None
  end.

Definition deleteFunctionalZone (rendered : AppState) (zoneId : jsstring) : Async bool :=
  current <- get w_projectsRef ;;
  match locateZone current zoneId with
  | Some (i, project, (j, building), _) =>
      now <- Date_now ;;
      let newProjects :=
        <[i := rebuild_zones now project j building
                 (List.filter (fun z => differs zoneId (z_id z)) (b_functionalZones building))]>
          current in
      let newFavoriteZones := List.filter (differs zoneId) (favoriteZones rendered) in
      Promise_all (saveProjects newProjects) (setFavoriteZones newFavoriteZones) ;;;
      ret true
  | None => ret false
  end.

Definition deleteZones (rendered : AppState) (ids : list jsstring) : Async bool :=
  try_catch
    (let newProjects :=
       map (fun project =>
              with_buildings
                (map (fun building =>
                        with_functionalZones
                          (List.filter (fun z => negb (includes_id ids (z_id z)))
                             (b_functionalZones building))
                          building)
                     (p_buildings project))
                project)
           (projects rendered) in
     let newFavoriteZones :=
       List.filter (fun fId => negb (includes_id ids fId)) (favoriteZones rendered) in
     setFavoriteZones newFavoriteZones ;;;
     saveProjects newProjects ;;;
     ret true)
    (ret false).

Definition createShutter (zoneId : jsstring) (shutterData : ShutterData)
    : Async (option Shutter) :=
  current <- get w_projectsRef ;;
  match locateZone current zoneId with
  | Some (i, project, (j, building), (zoneIndex, zone)) =>
      id <- generateUniqueId ;;
      createdAt <- Date_now ;;
      updatedAt <- Date_now ;;
      let newShutter :=
        mkShutter id zoneId (sd_name shutterData) (sd_remarks shutterData) createdAt updatedAt in
      now <- Date_now ;;
      let newProjects :=
        <[i := rebuild_shutters now project j building zoneIndex zone
                 (z_shutters zone ++ [newShutter])]> current in
      saveProjects newProjects ;;;
      ret (Some newShutter)
  | None => ret None
  end.

(** What [updateShutter] computes before it hands the write to the queue:
    the snapshot to persist and the shutter to return. *)
Definition updateShutter_snapshot (current : list Project) (now : Z)
    (shutterId : jsstring) (updates : Shutter -> Shutter)
    : option (list Project * Shutter) :=
  match locateShutter current shutterId with
  | Some (i, project, (j, building), (k, zone), (shutterIndex, shutter)) =>
      let updatedShutter := with_s_updatedAt now (updates shutter) in
      Some (<[i := rebuild_shutters now project j building k zone
                      (replace_at shutterIndex updatedShutter (z_shutters zone))]> current,
            updatedShutter)
  | None => None
  end.

Definition updateShutter (shutterId : jsstring) (updates : Shutter -> Shutter)
    : Async (option Shutter) :=
  current <- get w_projectsRef ;;
  now <- Date_now ;;
  match updateShutter_snapshot current now shutterId updates with
  | Some (newProjects, updatedShutter) =>
      saveProjects newProjects ;;;
      ret (Some updatedShutter)
  | None => ret None
  end.

Definition deleteShutter (rendered : AppState) (shutterId : jsstring) : Async bool :=
  current <- get w_projectsRef ;;
  match locateShutter current shutterId with
  | Some (i, project, (j, building), (k, zone), _) =>
      now <- Date_now ;;
      let newProjects :=
        <[i := rebuild_shutters now project j building k zone
                 (List.filter (fun s => differs shutterId (s_id s)) (z_shutters zone))]>
          current in
      let newFavoriteShutters := List.filter (differs shutterId) (favoriteShutters rendered) in
      Promise_all (saveProjects newProjects) (setFavoriteShutters newFavoriteShutters) ;;;
      ret true
  | None => ret false
  end.

Definition deleteShuttersBatch (rendered : AppState) (ids : list jsstring) : Async bool :=
  try_catch
    (let newProjects :=
       map (fun project =>
              with_buildings
                (map (fun building =>
                        with_functionalZones
                          (map (fun zone =>
                                  with_shutters
                                    (List.filter (fun s => negb (includes_id ids (s_id s)))
                                       (z_shutters zone))
                                    zone)
                               (b_functionalZones building))
                          building)
                     (p_buildings project))
                project)
           (projects rendered) in
     let newFavoriteShutters :=
       List.filter (fun fId => negb (includes_id ids fId)) (favoriteShutters rendered) in
     setFavoriteShutters newFavoriteShutters ;;;
     saveProjects newProjects ;;;
     ret true)
    (ret false).

(** *** Notes *)

Definition createNote (rendered : AppState) (noteData : NoteData) : Async Note :=
  persistedImages <- try_catch (persistImagesIfNeeded (nd_images noteData)) (ret None) ;;
  id <- generateUniqueId ;;
  createdAt <- Date_now ;;
  updatedAt <- Date_now ;;
  let newNote :=
    mkNote id (nd_title noteData) (nd_content noteData) persistedImages createdAt updatedAt in
  let newNotes := newNote :: notes rendered in
  try_catch (saveNotes newNotes ;;; ret newNote) throw.

(** [currentNote.images.filter(img => !finalImages?.includes(img))] *)
Definition unusedImages (currentImages : list jsstring) (finalImages : option (list jsstring))
    : list jsstring :=
  List.filter
    (fun img => match finalImages with
                | Some final => negb (includes_id final img)
                | None => true
                end)
    currentImages.

Definition updateNote (rendered : AppState) (id : jsstring) (updates : NoteUpdates)
    : Async (option Note) :=
  match findIndex (fun n => eqb (n_id n) id) (notes rendered) with
  | None => ret None
  | Some (noteIndex, currentNote) =>
      let finish (finalImages : option (list jsstring)) : Async (option Note) :=
        now <- Date_now ;;
        let updatedNote := with_note_updatedAt now (with_images finalImages (nu_spread updates currentNote)) in
        let newNotes := <[noteIndex := updatedNote]> (notes rendered) in
        try_catch (saveNotes newNotes ;;; ret (Some updatedNote)) throw in
      match nu_images updates with
      | None => finish None
      | Some images =>
          persisted <- try_catch (r <- persistImagesIfNeeded (Some images) ;; ret (Some r)) (ret None) ;;
          match persisted with
          | None => ret None
          | Some finalImages =>
              match n_images currentNote with
              | Some currentImages =>
                  try_catch
                    (let oldImages := unusedImages currentImages finalImages in
                     if (0 <? length oldImages)%nat then removeImages (Some oldImages) else ret tt)
                    (ret tt)
              | None => ret tt
              end ;;;
              finish finalImages
          end
      end
  end.

Definition deleteNote (rendered : AppState) (id : jsstring) : Async bool :=
  try_catch
    (match findIndex (fun n => eqb (n_id n) id) (notes rendered) with
     | None => ret false
     | Some (_, noteToDelete) =>
         match n_images noteToDelete with
         | Some images => removeImages (Some images)
         | None => ret tt
         end ;;;
         let newNotes := List.filter (fun n => differs id (n_id n)) (notes rendered) in
         let newFavoriteNotes := List.filter (differs id) (favoriteNotes rendered) in
         setFavoriteNotes newFavoriteNotes ;;;
         saveNotes newNotes ;;;
         ret true
     end)
    (ret false).

Definition deleteNotes (rendered : AppState) (ids : list jsstring) : Async bool :=
  try_catch
    (let notesToDelete := List.filter (fun n => includes_id ids (n_id n)) (notes rendered) in
     let allImagesToRemove := flat_map (fun note => default [] (n_images note)) notesToDelete in
     (if (0 <? length allImagesToRemove)%nat
      then try_catch (removeImages (Some allImagesToRemove)) (ret tt)
      else ret tt) ;;;
     let newNotes := List.filter (fun n => negb (includes_id ids (n_id n))) (notes rendered) in
     let newFavoriteNotes :=
       List.filter (fun fId => negb (includes_id ids fId)) (favoriteNotes rendered) in
     setFavoriteNotes newFavoriteNotes ;;;
     saveNotes newNotes ;;;
     ret true)
    (ret false).

(** *** Utilities *)

(** [clearAllData]; [rendered] is the state its closure holds. *)
Definition clearAllData (rendered : AppState) : Async unit :=
  try_catch
    ((if negb OS_web then
        let allImages := flat_map (fun note => default [] (n_images note)) (notes rendered) in
        removeImages (Some allImages)
      else ret tt) ;;;
     AsyncStorage.multiRemove
       [PROJECTS; NOTES; NOTES_TMP; NOTES_META; FAVORITE_PROJECTS; FAVORITE_BUILDINGS;
        FAVORITE_ZONES; FAVORITE_SHUTTERS; FAVORITE_NOTES; QUICK_CALC_HISTORY] ;;;
     cleanupOldChunks ;;;
     setProjects [] ;;;
     setNotes [] ;;;
     setFavoriteProjectsState [] ;;;
     setFavoriteBuildingsState [] ;;;
     setFavoriteZonesState [] ;;;
     setFavoriteShuttersState [] ;;;
     setFavoriteNotesState [] ;;;
     setQuickCalcHistoryState [])
    throw.

Record StorageInfo := mkStorageInfo {
  projectsCount : Z;
  totalShutters : Z;
  storageSize : jsstring;
}.

(** [(length / 1024).toFixed(2)].  The quotient by a power of two is exact
    in binary floating point, and [toFixed] prints the integer number of
    hundredths nearest to its exact value, the larger one on a tie, with at
    least one digit before the point. *)
Definition kilobytes_toFixed_2 (len : Z) : jsstring :=
  let n := (25 * len + 128) / 256 in
  let m := decimal n in
  let padded := repeat 48%N (3 - length m) ++ m in
  take (length padded - 2) padded ++ js "." ++ drop (length padded - 2) padded.

Definition getStorageInfo (projectsRef : list Project) : StorageInfo :=
  let totalShutters :=
    fold_left (fun total project =>
      total + fold_left (fun buildingTotal building =>
        buildingTotal + fold_left (fun zoneTotal zone =>
          zoneTotal + Z.of_nat (length (z_shutters zone)))
          (b_functionalZones building) 0)
        (p_buildings project) 0)
      projectsRef 0 in
  let dataString := JSON_stringify_projects projectsRef in
  let storageSize := kilobytes_toFixed_2 (Z.of_nat (length dataString)) ++ js " KB" in
  mkStorageInfo (Z.of_nat (length projectsRef)) totalShutters storageSize.

Definition getProjects : Async (list Project) := get w_projectsRef.

Definition getQuickCalcHistory (rendered : AppState) : Async (list QuickCalcHistoryItem) :=
  ret (quickCalcHistory rendered).

(** *** Importing a project *)

(** [Promise.all([first, second])] where both went through [enqueue], in
    this order: the second task starts once the first has settled, whatever
    its outcome, and the result rejects when one of them does. *)
Definition Promise_all_queued {A B} (first : Async A) (second : Async B) : Async (A * B) :=
  fun w =>
    match first w with
    | (ra, w1, e1) =>
        match second w1 with
        | (rb, w2, e2) =>
            (match ra, rb with
             | Returned a, Returned b => Returned (a, b)
             | _, _ => Thrown
             end, w2, e1 ++ e2)
        end
    end.

(** The callbacks of the three nested [map]s of [importProject], written as
    loop bodies that push onto the array built so far. *)
Definition importShutter (newZoneId : jsstring) (shutters : list Shutter) (shutter : Shutter)
    : Async (list Shutter) :=
  id <- generateUniqueId ;;
  createdAt <- Date_now ;;
  updatedAt <- Date_now ;;
  ret (shutters ++ [mkShutter id newZoneId (s_name shutter) (s_remarks shutter) createdAt updatedAt]).

Definition importZone (newBuildingId : jsstring) (zones : list FunctionalZone)
    (zone : FunctionalZone) : Async (list FunctionalZone) :=
  newZoneId <- generateUniqueId ;;
  createdAt <- Date_now ;;
  shutters <- for_each (z_shutters zone) (importShutter newZoneId) [] ;;
  ret (zones ++ [mkZone newZoneId newBuildingId (z_name zone) createdAt shutters]).

Definition importBuilding (newProjectId : jsstring) (buildings : list Building)
    (building : Building) : Async (list Building) :=
  newBuildingId <- generateUniqueId ;;
  createdAt <- Date_now ;;
  functionalZones <- for_each (b_functionalZones building) (importZone newBuildingId) [] ;;
  ret (buildings ++ [mkBuilding newBuildingId newProjectId (b_name building) createdAt functionalZones]).

(** The copy under new identifiers that [importProject] prepares. *)
Definition importedProject (project : Project) : Async Project :=
  newProjectId <- generateUniqueId ;;
  createdAt <- Date_now ;;
  updatedAt <- Date_now ;;
  buildings <- for_each (p_buildings project) (importBuilding newProjectId) [] ;;
  ret (mkProject newProjectId (p_name project) (p_city project) createdAt updatedAt buildings).

Definition importProject (rendered : AppState) (project : Project) (relatedNotes : list Note)
    : Async bool :=
  try_catch
    (notesWithPersistedImages <-
       for_each relatedNotes
         (fun notesWithPersistedImages note =>
            persistedImages <- persistImagesIfNeeded (n_images note) ;;
            ret (notesWithPersistedImages ++ [with_images persistedImages note]))
         [] ;;
     importedProject <- importedProject project ;;
     current <- get w_projectsRef ;;
     let newProjects := current ++ [importedProject] in
     let newNotes := notes rendered ++ notesWithPersistedImages in
     Promise_all_queued (saveProjects newProjects) (saveNotes newNotes) ;;;
     ret true)
    (ret false).

End WithRuntime.
End StorageContext.

(** ** Calls that do not wait for each other

    [enqueue(fn)] chains [fn] after the tail of the queue and makes the
    result, with failures swallowed, the new tail.  A call to an operation
    runs synchronously up to its first [await]; what it handed to [enqueue]
    runs later, one task at a time, in the order of the calls. *)

Module EventLoop.
Import JsString Data Platform StorageContext.

Section WithRuntime.
Context {rt : Runtime}.

Record Loop := mkLoop {
  lp_world : World;
  lp_queue : list (Async unit);
}.

Definition enqueue_task (fn : Async unit) (l : Loop) : Loop :=
  mkLoop (lp_world l) (lp_queue l ++ [fn]).

(** The synchronous part of [updateShutter(shutterId, updates)]: it reads
    [projectsRef.current], builds the snapshot and queues the write. *)
Definition call_updateShutter (shutterId : jsstring) (updates : Shutter -> Shutter)
    (l : Loop) : Loop :=
  match updateShutter_snapshot (w_projectsRef (lp_world l)) (w_now (lp_world l))
          shutterId updates with
  | Some (newProjects, _) => enqueue_task (saveProjects_task newProjects) l
  | None => l
  end.

(** The queue runs its oldest task to the end. *)
Definition run_task (l : Loop) : Loop :=
  match lp_queue l with
  | [] => l
  | task :: rest => mkLoop (world_after (task (lp_world l))) rest
  end.

(** React renders and runs the effect that refreshes [projectsRef]. *)
Definition render (l : Loop) : Loop := mkLoop (commitRender (lp_world l)) (lp_queue l).

Definition render_if (b : bool) (l : Loop) : Loop := if b then render l else l.

(** Two calls made one after the other without waiting, then the queue
    runs; a render may come between the two tasks. *)
Definition two_updates (renderBetween : bool)
    (first : jsstring) (firstUpdates : Shutter -> Shutter)
    (second : jsstring) (secondUpdates : Shutter -> Shutter) (w : World) : Loop :=
  render
    (run_task
       (render_if renderBetween
          (run_task
             (call_updateShutter second secondUpdates
                (call_updateShutter first firstUpdates (mkLoop w [])))))).

End WithRuntime.
End EventLoop.

(** ** The provider that keeps its collections in module variables

    The second provider of [contexts/StorageContext] holds the history in a
    variable of the module, which its operations change before they write. *)

Module ModuleStateProvider.
Import JsString Data Platform.

Section WithRuntime.
Context {rt : Runtime}.

Definition QUICK_CALC_HISTORY_KEY : string := "SIEMENS_QUICK_CALC_HISTORY".

Definition saveQuickCalcHistory : Async unit :=
  try_catch
    (history <- get (fun w => quickCalcHistory (w_state w)) ;;
     AsyncStorage.setItem QUICK_CALC_HISTORY_KEY (JSON_stringify_history history))
    throw.

Definition addQuickCalcHistory (item : HistoryData) : Async unit :=
  id <- StorageContext.generateUniqueId ;;
  now <- Date_now ;;
  let newItem := StorageContext.newHistoryItem item id now in
  modify (with_state (fun s => with_quickCalcHistory (newItem :: quickCalcHistory s) s)) ;;;
  modify (with_state (fun s => with_quickCalcHistory (take 5 (quickCalcHistory s)) s)) ;;;
  saveQuickCalcHistory.

Definition clearQuickCalcHistory : Async unit :=
  modify (with_state (with_quickCalcHistory [])) ;;;
  saveQuickCalcHistory.

Definition removeQuickCalcHistoryItem (itemId : jsstring) : Async unit :=
  modify (with_state (fun s =>
    with_quickCalcHistory
      (List.filter (fun item => negb (eqb (h_id item) itemId)) (quickCalcHistory s)) s)) ;;;
  saveQuickCalcHistory.

End WithRuntime.
End ModuleStateProvider.

(** ** Image checks ([utils/imageCompression]) *)

Module ImageCompression.
Import JsString.

Definition validateImageBase64 (base64 : jsstring) : bool :=
  match base64 with
  | [] => false
  | _ =>
      if negb (startsWith base64 (js "data:image/")) then false
      else
        match indexOf 44 base64 with
        | None => false
        | Some commaIndex =>
            negb (Z.of_nat (length base64) - Z.of_nat commaIndex <? 100)
        end
  end.

End ImageCompression.

(** ** The note editor ([app/(tabs)/note/edit/[id]]) *)

Module EditNoteScreen.
Import JsString ImageCompression.

(** [prev.filter((_, i) => keep(i))] *)
Definition filter_index {A} (keep : nat -> bool) (prev : list A) : list A :=
  (List.filter (fun entry => keep entry.1) (imap (fun i x => (i, x)) prev)).*2.

Definition handleRemoveImage (index : Z) (prev : list jsstring) : list jsstring :=
  filter_index (fun i => negb (Z.of_nat i =? index)) prev.

Definition handleRemoveMultipleImages (indices : list Z) (prev : list jsstring)
    : list jsstring :=
  filter_index (fun i => negb (existsb (fun j => j =? Z.of_nat i) indices)) prev.

End EditNoteScreen.

(** ** A concrete runtime

    The theorems below hold for every [Runtime].  To run the model on actual
    inputs one instance is fixed here: a web platform whose documents are
    written in a small bracketed format (an array is ["[" item "|" item "]"],
    a note is written as its content, a number in decimal) and whose
    [toLowerCase] handles the ASCII letters. *)

Module DemoRuntime.
Import JsString Data Platform.

Definition digit_value (c : N) : option Z :=
  if ((48 <=? c) && (c <=? 57))%N then Some (Z.of_N c - 48) else None.

Fixpoint parse_digits (acc : Z) (s : jsstring) : option Z :=
  match s with
  | [] => Some acc
  | c :: s' =>
      match digit_value c with
      | Some d => parse_digits (acc * 10 + d) s'
      | None => None
      end
  end.

Definition parse_number (s : jsstring) : option Z :=
  match s with
  | [] => None
  | _ => parse_digits 0 s
  end.

Definition write_array (items : list jsstring) : jsstring :=
  js "[" ++ join (js "|") items ++ js "]".

Definition read_array (s : jsstring) : Parsed jsstring :=
  match s with
  | 91%N :: body =>
      match rev body with
      | 93%N :: inner =>
          match rev inner with
          | [] => AnArray []
          | content => AnArray (split_on 124 content)
          end
      | _ => SyntaxError
      end
  | _ => match parse_number s with
         | Some _ => NotAnArray
         | None => SyntaxError
         end
  end.

Definition read_notes (s : jsstring) : Parsed RawNote :=
  match read_array s with
  | AnArray items => AnArray (map (fun c => mkRawNote c c c None None None) items)
  | AString characters => AString (map (fun c => mkRawNote c c c None None None) characters)
  | NotAnArray => NotAnArray
  | SyntaxError => SyntaxError
  end.

Definition read_metadata (s : jsstring) : ParsedMeta :=
  match parse_number s with
  | Some n => MetaCount n
  | None => MetaUnreadable
  end.

Definition lower_ascii (c : N) : N :=
  if ((65 <=? c) && (c <=? 90))%N then (c + 32)%N else c.

Definition write_shutter (s : Shutter) : jsstring := s_id s ++ js "=" ++ s_name s.
Definition write_zone (z : FunctionalZone) : jsstring :=
  z_id z ++ write_array (map write_shutter (z_shutters z)).
Definition write_building (b : Building) : jsstring :=
  b_id b ++ write_array (map write_zone (b_functionalZones b)).
Definition write_project (p : Project) : jsstring :=
  p_id p ++ write_array (map write_building (p_buildings p)).

#[export] Instance runtime : Runtime := {|
  OS_web := true;
  hasTextEncoder := true;
  hasWindow := true;
  documentDirectory := js "/documents/";
  toLowerCase := map lower_ascii;
  JSON_stringify_projects ps := write_array (map write_project ps);
  JSON_stringify_notes ns := write_array (map n_content ns);
  JSON_stringify_ids ids := write_array ids;
  JSON_stringify_history h := write_array (map h_id h);
  JSON_stringify_metadata m := decimal (totalChunks m);
  JSON_parse_notes := read_notes;
  JSON_parse_metadata := read_metadata;
|}.

(** The same runtime on a phone, where images go to files. *)
Definition mobile : Runtime := {|
  OS_web := false;
  hasTextEncoder := false;
  hasWindow := true;
  documentDirectory := js "/documents/";
  toLowerCase := map lower_ascii;
  JSON_stringify_projects ps := write_array (map write_project ps);
  JSON_stringify_notes ns := write_array (map n_content ns);
  JSON_stringify_ids ids := write_array ids;
  JSON_stringify_history h := write_array (map h_id h);
  JSON_stringify_metadata m := decimal (totalChunks m);
  JSON_parse_notes := read_notes;
  JSON_parse_metadata := read_metadata;
|}.

Definition emptyWorld : World :=
  mkWorld ∅ ∅ ∅ [] 1700000000000 [] emptyState [].

Definition note (content : jsstring) : Note :=
  mkNote (js "n1") (js "title") content None 1700000000000 1700000000000.

(** A note whose content alone is longer than the chunking threshold. *)
Definition largeNote : Note := note (repeat 97%N (Z.to_nat 512001)).

(** A store whose primary key does not parse, next to the remains of an
    older chunked layout: two chunks announced, only the second one there. *)
Definition brokenStore : gmap string jsstring :=
  {[ "SIEMENS_NOTES" := js "{";
     "SIEMENS_NOTES_chunks_meta" := js "2";
     "SIEMENS_NOTES_chunk_1" := js "[hello|world]" ]}.

Definition brokenWorld : World := with_store (fun _ => brokenStore) emptyWorld.

(** A project with one building, one zone and the two shutters [sA] and
    [sB]. *)
Definition shutterA : Shutter := mkShutter (js "sA") (js "z1") (js "A") None 1 1.
Definition shutterB : Shutter := mkShutter (js "sB") (js "z1") (js "B") None 1 1.
Definition zone1 : FunctionalZone := mkZone (js "z1") (js "b1") (js "North wing") 1 [shutterA; shutterB].
Definition building1 : Building := mkBuilding (js "b1") (js "p1") (js "Hall") 1 [zone1].
Definition project1 : Project := mkProject (js "p1") (js "Plant") (Some (js "Lyon")) 1 1 [building1].

Definition rename (name : jsstring) (s : Shutter) : Shutter :=
  mkShutter (s_id s) (s_zoneId s) name (s_remarks s) (s_createdAt s) (s_updatedAt s).

Definition plantState : AppState := with_notes [note (js "hello")] (with_projects [project1] emptyState).

Definition plantWorld : World :=
  with_projectsRef [project1] (with_state (fun _ => plantState) emptyWorld).

(** The same world when the second call to the store is going to fail. *)
Definition failingWorld : World := with_faults [false; true] plantWorld.

Definition historyItem (id : jsstring) : QuickCalcHistoryItem :=
  mkHistoryItem id 100 95 5 compliant (js "green") 1.

Definition measurement : HistoryData :=
  {| hd_referenceFlow := 100; hd_measuredFlow := 90; hd_deviation := 10;
     hd_status := acceptable; hd_color := js "orange" |}.

Definition fullHistoryState : AppState :=
  with_quickCalcHistory
    [historyItem (js "h1"); historyItem (js "h2"); historyItem (js "h3");
     historyItem (js "h4"); historyItem (js "h5")]
    emptyState.

(** A store in the chunked layout that lacks its second chunk. *)
Definition incompleteStore : gmap string jsstring :=
  {[ "SIEMENS_NOTES_META" := js "3";
     "SIEMENS_NOTES_chunk_0" := js "[hel";
     "SIEMENS_NOTES_chunk_2" := js "rld]" ]}.

Definition incompleteWorld : World := with_store (fun _ => incompleteStore) emptyWorld.

(** A store that holds a metadata key and no chunk. *)
Definition staleMetaWorld : World :=
  with_store (fun _ => {[ "SIEMENS_NOTES_META" := js "3" ]}) emptyWorld.

(** The plant when the next call to the store is going to fail. *)
Definition unwrittenWorld : World := with_faults [true] plantWorld.

(** A third shutter for the zone, a building, and an update that leaves a
    note as it is. *)
Definition shutterC : ShutterData := {| sd_name := js "C"; sd_remarks := None |}.
Definition annex : BuildingData := {| bd_name := js "Annex" |}.
Definition untouched : NoteUpdates := {| nu_spread := fun n => n; nu_images := None |}.

(** An inline image: its header and its payload. *)
Definition pngHeader : jsstring := js "data:image/png;base64".
Definition pngPayload : jsstring := js "iVBORw0KGgoAAAANSUhEUg".

(** A note with that image inline, a file reference and an entry of no
    known format. *)
Definition photoNote : Note :=
  mkNote (js "n2") (js "photo") (js "seen on site")
    (Some [pngHeader ++ 44%N :: pngPayload; js "file:///documents/notes/a.jpg"; js "blob:x"])
    1700000000000 1700000000000.

End DemoRuntime.

(** ** Vocabulary of the statements *)

Module Vocabulary.
Import JsString Data Platform StorageContext STORAGE_KEYS.

(** A chunk is within the limit, or it is a single code unit. *)
Definition within_limit (measure : jsstring -> Z) (maxBytes : Z) (chunk : jsstring) : Prop :=
  measure chunk <= maxBytes \/ length chunk = 1%nat.

(** The shutters of a tree, in order. *)
Definition shuttersOf (projects : list Project) : list Shutter :=
  flat_map (fun project =>
    flat_map (fun building => flat_map z_shutters (b_functionalZones building))
      (p_buildings project))
    projects.

(** The buildings and the zones of a tree, in order. *)
Definition buildingsOf (projects : list Project) : list Building :=
  flat_map p_buildings projects.

Definition zonesOf (projects : list Project) : list FunctionalZone :=
  flat_map (fun project => flat_map b_functionalZones (p_buildings project)) projects.

(** The tree that [deleteShuttersBatch] builds. *)
Definition withoutShutters (ids : list jsstring) (ps : list Project) : list Project :=
  map (fun project =>
         with_buildings
           (map (fun building =>
                   with_functionalZones
                     (map (fun zone =>
                             with_shutters
                               (List.filter (fun s => negb (includes_id ids (s_id s)))
                                  (z_shutters zone))
                               zone)
                          (b_functionalZones building))
                     building)
                (p_buildings project))
           project)
      ps.

(** A computation that leaves the key-value store as it found it. *)
Definition KeepsStore {A} (m : Async A) : Prop :=
  forall w, w_store (world_after (m w)) = w_store w.

(** A computation is quiet when it leaves an exhausted fault list exhausted:
    nothing but a call to the outside reads that list. *)
Definition Quiet {A} (m : Async A) : Prop :=
  forall w, w_faults w = [] -> w_faults (world_after (m w)) = [].

(** The keys of the store that [cleanupOldChunks] selects, and the store it
    leaves when no call fails. *)
Definition selectedChunkKeys (m : gmap string jsstring) : list string :=
  List.filter (fun key => key_startsWith key chunkPrefix) (map_to_list m).*1.

Definition cleanedStore (m : gmap string jsstring) : gmap string jsstring :=
  if (0 <? length (selectedChunkKeys m))%nat
  then delete NOTES_META (foldr delete m (selectedChunkKeys m))
  else m.

Definition cleanupEvents (m : gmap string jsstring) : list Event :=
  if (0 <? length (selectedChunkKeys m))%nat
  then [mkEvent GetAllKeys false; mkEvent (MultiRemove (selectedChunkKeys m)) false;
        mkEvent (RemoveItem NOTES_META) false]
  else [mkEvent GetAllKeys false].

(** The store after the loop that writes the chunks. *)
Definition writeChunk (m : gmap string jsstring) (entry : nat * jsstring) : gmap string jsstring :=
  <[chunkKey entry.1 := entry.2]> m.

(** The store that the direct branch of [saveNotes] has produced when it
    reaches the cleanup, and the calls it has made until then. *)
Definition directStore (m : gmap string jsstring) (dataString : jsstring) : gmap string jsstring :=
  delete NOTES_TMP (<[NOTES := dataString]> (<[NOTES_TMP := dataString]> m)).

Definition directEvents (dataString : jsstring) : list Event :=
  [mkEvent (SetItem NOTES_TMP dataString) false; mkEvent (SetItem NOTES dataString) false;
   mkEvent (RemoveItem NOTES_TMP) false].

Definition chunkEntries (chunks : list jsstring) : list (nat * jsstring) :=
  imap (fun i chunk => (i, chunk)) chunks.

(** The store that the chunked branch of [saveNotes] has produced when it
    reaches the cleanup, and the calls it has made until then. *)
Definition chunkedStore (m : gmap string jsstring) (dataString metadata : jsstring)
    (chunks : list jsstring) : gmap string jsstring :=
  delete NOTES_TMP
    (delete NOTES
       (foldl writeChunk (<[NOTES_META := metadata]> (<[NOTES_TMP := dataString]> m))
          (chunkEntries chunks))).

Definition chunkedEvents (dataString metadata : jsstring) (chunks : list jsstring) : list Event :=
  [mkEvent (SetItem NOTES_TMP dataString) false; mkEvent (SetItem NOTES_META metadata) false]
  ++ map (fun entry => mkEvent (SetItem (chunkKey entry.1) entry.2) false) (chunkEntries chunks)
  ++ [mkEvent (RemoveItem NOTES) false; mkEvent (RemoveItem NOTES_TMP) false].

(** Tokenizing on white space, said directly: the maximal runs of
    characters that are not white space, in order. *)
Fixpoint words_from (current : jsstring) (s : jsstring) : list jsstring :=
  match s with
  | [] => match current with [] => [] | _ => [current] end
  | c :: s' =>
      if isWhiteSpace c
      then match current with [] => [] | _ => [current] end ++ words_from [] s'
      else words_from (current ++ [c]) s'
  end.

Definition words (s : jsstring) : list jsstring := words_from [] s.

(** Every shutter of the tree with its zone, building and project, in the
    order of the tree. *)
Definition allShutters (projects : list Project) : list SearchResult :=
  flat_map (fun project =>
    flat_map (fun building =>
      flat_map (fun zone =>
        map (fun shutter => mkSearchResult shutter zone building project) (z_shutters zone))
      (b_functionalZones building))
    (p_buildings project))
  projects.

(** The text in which a search looks for the words of the query, said field
    by field: the names of the shutter, of its zone, of its building and of
    its project, the city of the project and the remarks of the shutter,
    with single spaces between them.  A project without a city and a shutter
    without remarks contribute the empty text. *)
Definition searchedText (r : SearchResult) : jsstring :=
  s_name (r_shutter r) ++ js " " ++ z_name (r_zone r) ++ js " "
  ++ b_name (r_building r) ++ js " " ++ p_name (r_project r) ++ js " "
  ++ match p_city (r_project r) with Some city => city | None => [] end ++ js " "
  ++ match s_remarks (r_shutter r) with Some remarks => remarks | None => [] end.

(** The keys that hold the two collections, and the calls that write
    them. *)
Definition collectionKey (key : string) : bool :=
  String.eqb key PROJECTS || String.eqb key NOTES || String.eqb key NOTES_TMP
  || String.eqb key NOTES_META || key_startsWith key chunkPrefix.

Definition persistenceWrite (c : Call) : bool :=
  match c with
  | SetItem key _ => collectionKey key
  | _ => false
  end.

Definition failedWrite (ev : Event) : Prop :=
  persistenceWrite (ev_call ev) = true /\ ev_failed ev = true.

(** How a computation treats failures of these calls. *)
Definition Strict {A} (m : Async A) : Prop :=
  forall w, (exists ev, ev ∈ events (m w) /\ failedWrite ev) -> outcome (m w) = Thrown.

Definition NoWrites {A} (m : Async A) : Prop :=
  forall w ev, ev ∈ events (m w) -> persistenceWrite (ev_call ev) = false.

Definition AlwaysThrows {A} (m : Async A) : Prop :=
  forall w, outcome (m w) = Thrown.

Definition NeverThrows {A} (m : Async A) : Prop :=
  forall w, outcome (m w) <> Thrown.

(** A computation that only rejects after one of the calls singled out by
    [deciding] has failed. *)
Definition Blames {A} (deciding : Call -> bool) (m : Async A) : Prop :=
  forall w, outcome (m w) = Thrown ->
    exists ev, ev ∈ events (m w) /\ deciding (ev_call ev) = true /\ ev_failed ev = true.

Definition Returns {A} (P : A -> Prop) (m : Async A) : Prop :=
  forall w a, outcome (m w) = Returned a -> P a.

Section Operations.
Context {rt : Runtime}.

Definition matches (query : jsstring) (r : SearchResult) : bool :=
  matchesAllWords (queryWords query)
    (searchableText (r_shutter r) (r_zone r) (r_building r) (r_project r)).

(** The create, update and delete operations that the provider offers to
    the screens.  ([createFunctionalZone] is not among them: its text in the
    source is not a well-formed function.) *)
Inductive Operation :=
| CreateProject (projectData : ProjectData)
| UpdateProject (id : jsstring) (updates : Project -> Project)
| DeleteProject (id : jsstring)
| CreateBuilding (projectId : jsstring) (buildingData : BuildingData)
| UpdateBuilding (buildingId : jsstring) (updates : Building -> Building)
| DeleteBuilding (buildingId : jsstring)
| DeleteBuildings (ids : list jsstring)
| UpdateFunctionalZone (zoneId : jsstring) (updates : FunctionalZone -> FunctionalZone)
| DeleteFunctionalZone (zoneId : jsstring)
| DeleteZones (ids : list jsstring)
| CreateShutter (zoneId : jsstring) (shutterData : ShutterData)
| UpdateShutter (shutterId : jsstring) (updates : Shutter -> Shutter)
| DeleteShutter (shutterId : jsstring)
| DeleteShuttersBatch (ids : list jsstring)
| CreateNote (noteData : NoteData)
| UpdateNote (id : jsstring) (updates : NoteUpdates)
| DeleteNote (id : jsstring)
| DeleteNotes (ids : list jsstring).

(** What the caller of an operation is told when the promise resolves: an
    entity, [null], or a boolean. *)
Inductive Answer :=
| Entity
| Null
| Flag (b : bool).

Definition entity {A} (_ : A) : Answer := Entity.
Definition entity_or_null {A} (o : option A) : Answer :=
  match o with Some _ => Entity | None => Null end.

Definition told {A} (f : A -> Answer) (m : Async A) : Async Answer :=
  a <- m ;; ret (f a).

Definition perform (rendered : AppState) (op : Operation) : Async Answer :=
  match op with
  | CreateProject d => told entity (createProject d)
  | UpdateProject id u => told entity_or_null (updateProject id u)
  | DeleteProject id => told Flag (deleteProject rendered id)
  | CreateBuilding pid d => told entity_or_null (createBuilding pid d)
  | UpdateBuilding id u => told entity_or_null (updateBuilding id u)
  | DeleteBuilding id => told Flag (deleteBuilding rendered id)
  | DeleteBuildings ids => told Flag (deleteBuildings rendered ids)
  | UpdateFunctionalZone id u => told entity_or_null (updateFunctionalZone id u)
  | DeleteFunctionalZone id => told Flag (deleteFunctionalZone rendered id)
  | DeleteZones ids => told Flag (deleteZones rendered ids)
  | CreateShutter zid d => told entity_or_null (createShutter zid d)
  | UpdateShutter id u => told entity_or_null (updateShutter id u)
  | DeleteShutter id => told Flag (deleteShutter rendered id)
  | DeleteShuttersBatch ids => told Flag (deleteShuttersBatch rendered ids)
  | CreateNote d => told entity (createNote rendered d)
  | UpdateNote id u => told entity_or_null (updateNote rendered id u)
  | DeleteNote id => told Flag (deleteNote rendered id)
  | DeleteNotes ids => told Flag (deleteNotes rendered ids)
  end.

Inductive BatchDelete := OfBuildings | OfZones | OfShutters | OfNotes.

Definition batchDelete (kind : BatchDelete) (rendered : AppState) (ids : list jsstring)
    : Async bool :=
  match kind with
  | OfBuildings => deleteBuildings rendered ids
  | OfZones => deleteZones rendered ids
  | OfShutters => deleteShuttersBatch rendered ids
  | OfNotes => deleteNotes rendered ids
  end.

(** The calls on which the answer of a batch deletion depends.  The three
    deletions in the tree make one write, that of the projects.  The save of
    the notes also removes the staging key, and the primary key when the
    document goes to chunks, and it rejects when one of these removals
    fails. *)
Definition notesSaveCall (c : Call) : bool :=
  match c with
  | SetItem key _ => collectionKey key
  | RemoveItem key => String.eqb key NOTES || String.eqb key NOTES_TMP
  | _ => false
  end.

Definition decidingCall (kind : BatchDelete) : Call -> bool :=
  match kind with
  | OfNotes => notesSaveCall
  | OfBuildings | OfZones | OfShutters => persistenceWrite
  end.

End Operations.

(** A computation that leaves an observation of the world as it found it. *)
Definition Keeps {A X} (observe : World -> X) (m : Async A) : Prop :=
  forall w, observe (world_after (m w)) = observe w.

(** A computation whose calls to the outside are all reads of the key-value
    store. *)
Definition ReadsOnly {A} (m : Async A) : Prop :=
  forall w ev, ev ∈ events (m w) -> exists key, ev_call ev = GetItem key.

(** A computation that stays inside: it returns, it makes no call to the
    outside, and it leaves faults, store, state and tree reference alone. *)
Definition Internal {A} (m : Async A) : Prop :=
  forall w, exists a w',
    m w = (Returned a, w', []) /\ w_faults w' = w_faults w /\ w_store w' = w_store w /\
    w_state w' = w_state w /\ w_projectsRef w' = w_projectsRef w.

(** The ten keys that [clearAllData] removes by name. *)
Definition namedKeys : list string :=
  [PROJECTS; NOTES; NOTES_TMP; NOTES_META; FAVORITE_PROJECTS; FAVORITE_BUILDINGS;
   FAVORITE_ZONES; FAVORITE_SHUTTERS; FAVORITE_NOTES; QUICK_CALC_HISTORY].

(** A copy of a tree: the same names in the same order, every child naming
    the parent it hangs under in the copy. *)
Definition copiedShutter (zoneId : jsstring) (original copy : Shutter) : Prop :=
  s_zoneId copy = zoneId /\ s_name copy = s_name original /\
  s_remarks copy = s_remarks original.

Definition copiedZone (buildingId : jsstring) (original copy : FunctionalZone) : Prop :=
  z_buildingId copy = buildingId /\ z_name copy = z_name original /\
  Forall2 (copiedShutter (z_id copy)) (z_shutters original) (z_shutters copy).

Definition copiedBuilding (projectId : jsstring) (original copy : Building) : Prop :=
  b_projectId copy = projectId /\ b_name copy = b_name original /\
  Forall2 (copiedZone (b_id copy)) (b_functionalZones original) (b_functionalZones copy).

Definition copiedProject (original copy : Project) : Prop :=
  p_name copy = p_name original /\ p_city copy = p_city original /\
  Forall2 (copiedBuilding (p_id copy)) (p_buildings original) (p_buildings copy).

(** What [persistImagesIfNeeded] makes of the images of a note on the web:
    an empty array becomes [undefined]. *)
Definition webImages (n : Note) : Note :=
  with_images (match n_images n with Some (_ :: _) as images => images | _ => None end) n.

(** What a phone makes of the images of a note it saves: a file reference
    stays; an inline image becomes a file reference, or it is dropped when
    it could not be written; any other entry is dropped. *)
Inductive PersistedImages : list jsstring -> list jsstring -> Prop :=
| persisted_none : PersistedImages [] []
| persisted_reference (image : jsstring) (images kept : list jsstring) :
    startsWith image (js "file://") = true ->
    PersistedImages images kept ->
    PersistedImages (image :: images) (image :: kept)
| persisted_inline (image reference : jsstring) (images kept : list jsstring) :
    startsWith image (js "file://") = false ->
    startsWith image (js "data:image/") = true ->
    startsWith reference (js "file://") = true ->
    PersistedImages images kept ->
    PersistedImages (image :: images) (reference :: kept)
| persisted_dropped (image : jsstring) (images kept : list jsstring) :
    startsWith image (js "file://") = false ->
    PersistedImages images kept ->
    PersistedImages (image :: images) kept.

(** An image is inline when it is a [data:image/] address. *)
Definition inlineImage (image : jsstring) : Prop :=
  startsWith image (js "data:image/") = true.

Definition imagesOf (n : Note) : list jsstring :=
  match n_images n with Some images => images | None => [] end.

(** What a phone keeps in memory of a note it saves: a note without inline
    image as it is; a note with one, with the images that were persisted,
    and without an image list when none is left. *)
Definition SanitizedNote (original sanitized : Note) : Prop :=
  (Forall (fun image => ~ inlineImage image) (imagesOf original) /\ sanitized = original) \/
  (Exists inlineImage (imagesOf original) /\
   exists kept,
     PersistedImages (imagesOf original) kept /\
     sanitized = mkNote (n_id original) (n_title original) (n_content original)
                   (match kept with [] => None | _ => Some kept end)
                   (n_createdAt original) (n_updatedAt original)).

End Vocabulary.

(** * Properties *)

(** ** The chunk splitters *)

Module ChunkProperties.
Import Chunk Vocabulary.

Section Splitter.
Variable measure : jsstring -> Z.
Variable maxBytes : Z.

(** What the loop has read is always the finished chunks followed by the
    chunk under construction. *)
Lemma split_loop_concat (str : jsstring) (chunks : list jsstring) (currentChunk : jsstring) :
  let '(chunks', currentChunk') := fold_left (split_step measure maxBytes) str (chunks, currentChunk) in
  concat chunks' ++ currentChunk' = concat chunks ++ currentChunk ++ str.
Proof.
  revert chunks currentChunk.
  induction str as [|char str IH]; intros chunks currentChunk; simpl.
  - by rewrite app_nil_r.
  - destruct ((measure (currentChunk ++ [char]) >? maxBytes) && (0 <? length currentChunk)%nat).
    + specialize (IH (chunks ++ [currentChunk]) [char]).
      destruct (fold_left _ str _) as [chunks' currentChunk'].
      rewrite IH, concat_app. simpl. by rewrite app_nil_r, <- !app_assoc.
    + specialize (IH chunks (currentChunk ++ [char])).
      destruct (fold_left _ str _) as [chunks' currentChunk'].
      rewrite IH. by rewrite <- !app_assoc.
Qed.

Lemma join_split_with (str : jsstring) :
  joinChunks (split_with measure str maxBytes) = str.
Proof.
  unfold joinChunks, split_with.
  destruct str as [|c str]; [done|].
  pose proof (split_loop_concat (c :: str) [] []) as H.
  destruct (fold_left _ (c :: str) _) as [chunks currentChunk].
  simpl in H.
  destruct currentChunk as [|d currentChunk]; simpl.
  - by rewrite app_nil_r in H.
  - rewrite concat_app. simpl. by rewrite app_nil_r.
Qed.

Lemma split_loop_limit (str : jsstring) (chunks : list jsstring) (currentChunk : jsstring) :
  Forall (within_limit measure maxBytes) chunks ->
  (currentChunk = [] \/ (within_limit measure maxBytes) currentChunk) ->
  let '(chunks', currentChunk') := fold_left (split_step measure maxBytes) str (chunks, currentChunk) in
  Forall (within_limit measure maxBytes) chunks' /\ (currentChunk' = [] \/ (within_limit measure maxBytes) currentChunk').
Proof.
  revert chunks currentChunk.
  induction str as [|char str IH]; intros chunks currentChunk Hchunks Hcur; simpl.
  - done.
  - destruct (measure (currentChunk ++ [char]) >? maxBytes) eqn:Hm; simpl.
    + destruct currentChunk as [|d currentChunk]; simpl.
      * apply IH; [done|]. right. by right.
      * apply IH.
        -- apply Forall_app. split; [done|]. constructor; [|done].
           by destruct Hcur as [?|?].
        -- right. by right.
    + apply IH; [done|].
      right. left. lia.
Qed.

Lemma split_with_limit (str : jsstring) :
  Forall (within_limit measure maxBytes) (split_with measure str maxBytes).
Proof.
  unfold split_with.
  destruct str as [|c str]; [constructor|].
  pose proof (split_loop_limit (c :: str) [] []) as H.
  destruct (fold_left _ (c :: str) _) as [chunks currentChunk].
  destruct H as [Hchunks Hcur]; [constructor | by left |].
  destruct currentChunk as [|d currentChunk]; simpl; [done|].
  apply Forall_app. split; [done|]. constructor; [|done].
  by destruct Hcur as [?|?].
Qed.

End Splitter.

(** C5.  For every string [s] and every byte limit [m > 0], joining the
    chunks of [s] gives [s] back, for the precise splitter and for the
    estimating one. *)
Theorem join_split_roundtrip (s : jsstring) (m : Z) :
  0 < m ->
  joinChunks (splitByBytes s m) = s /\ joinChunks (splitByBytesLegacy s m) = s.
Proof.
  intros _. split; apply join_split_with.
Qed.

Lemma join_split_roundtrip_example :
  0 < 4 /\
  joinChunks (splitByBytes (js "h" ++ [0xE9; 0x20AC; 0xD83D; 0xDE00]%N ++ js "llo") 4)
    = js "h" ++ [0xE9; 0x20AC; 0xD83D; 0xDE00]%N ++ js "llo" /\
  joinChunks (splitByBytesLegacy (js "h" ++ [0xE9; 0x20AC; 0xD83D; 0xDE00]%N ++ js "llo") 4)
    = js "h" ++ [0xE9; 0x20AC; 0xD83D; 0xDE00]%N ++ js "llo".
Proof.
  split; [lia|].
  apply (join_split_roundtrip (js "h" ++ [0xE9; 0x20AC; 0xD83D; 0xDE00]%N ++ js "llo") 4).
  lia.
Defined.

Lemma join_selected_splitter (enc win : bool) (s : jsstring) (m : Z) :
  joinChunks (splitStringByBytes enc win s m) = s.
Proof.
  unfold splitStringByBytes. destruct (enc && win); apply join_split_with.
Qed.

(** The same holds for the splitter the provider calls, whatever the
    platform offers and whatever the limit. *)
Theorem join_splitStringByBytes (enc win : bool) (s : jsstring) (m : Z) :
  joinChunks (splitStringByBytes enc win s m) = s.
Proof. apply join_selected_splitter. Qed.

(** Every chunk of the precise splitter encodes to at most [m] bytes, unless
    it is a single code unit. *)
Theorem splitByBytes_limit (s : jsstring) (m : Z) :
  Forall (fun chunk => byteLength chunk <= m \/ length chunk = 1%nat) (splitByBytes s m).
Proof. apply split_with_limit. Qed.

(** C6.  The loop advances by UTF-16 code unit.  A character outside the
    basic plane is two code units and four bytes; with ["aa"] before it and a
    limit of five bytes the first chunk is closed between its two halves,
    although the character alone fits the limit. *)
Theorem splitByBytes_cuts_surrogate_pair :
  let s := js "aa" ++ [0xD83D; 0xDE00]%N in
  byteLength [0xD83D; 0xDE00]%N = 4 /\
  splitByBytes s 5 = [js "aa" ++ [0xD83D%N]; [0xDE00%N]] /\
  boundary_inside_character (splitByBytes s 5) = true.
Proof. vm_compute. done. Qed.

End ChunkProperties.

(** ** Running asynchronous code *)

Module AsyncFacts.
Import Data Platform Vocabulary.

Lemma run_eta {A} (r : Outcome A * World * list Event) :
  r = (outcome r, world_after r, events r).
Proof. by destruct r as [[??]?]. Qed.

Lemma bind_returned {A B} (m : Async A) (k : A -> Async B) w a w1 e1 :
  m w = (Returned a, w1, e1) ->
  bind m k w = (outcome (k a w1), world_after (k a w1), e1 ++ events (k a w1)).
Proof. intros H. unfold bind. rewrite H. by destruct (k a w1) as [[??]?]. Qed.

Lemma bind_thrown {A B} (m : Async A) (k : A -> Async B) w w1 e1 :
  m w = (Thrown, w1, e1) -> bind m k w = (Thrown, w1, e1).
Proof. intros H. unfold bind. by rewrite H. Qed.

Lemma try_returned {A} (body handler : Async A) w a w1 e1 :
  body w = (Returned a, w1, e1) -> try_catch body handler w = (Returned a, w1, e1).
Proof. intros H. unfold try_catch. by rewrite H. Qed.

Lemma try_thrown {A} (body handler : Async A) w w1 e1 :
  body w = (Thrown, w1, e1) ->
  try_catch body handler w
  = (outcome (handler w1), world_after (handler w1), e1 ++ events (handler w1)).
Proof. intros H. unfold try_catch. rewrite H. by destruct (handler w1) as [[??]?]. Qed.

Lemma outside_ok {A} (c : Call) (effect : World -> A * World) w :
  w_faults w = [] ->
  outside c effect w = (Returned (effect w).1, (effect w).2, [mkEvent c false]).
Proof. intros H. unfold outside. rewrite H. by destruct (effect w). Qed.

Lemma quiet_ret {A} (a : A) : Quiet (ret a).
Proof. by intros w H. Qed.

Lemma quiet_throw {A} : Quiet (@throw A).
Proof. by intros w H. Qed.

Lemma quiet_get {A} (f : World -> A) : Quiet (get f).
Proof. by intros w H. Qed.

Lemma quiet_bind {A B} (m : Async A) (k : A -> Async B) :
  Quiet m -> (forall a, Quiet (k a)) -> Quiet (bind m k).
Proof.
  intros Hm Hk w H. unfold bind. specialize (Hm w H).
  destruct (m w) as [[[a|] w1] e1]; [|done].
  specialize (Hk a w1 Hm). by destruct (k a w1) as [[??]?].
Qed.

Lemma quiet_try {A} (body handler : Async A) :
  Quiet body -> Quiet handler -> Quiet (try_catch body handler).
Proof.
  intros Hb Hh w H. unfold try_catch. specialize (Hb w H).
  destruct (body w) as [[[a|] w1] e1]; [done|].
  specialize (Hh w1 Hb). by destruct (handler w1) as [[??]?].
Qed.

Lemma quiet_outside {A} (c : Call) (effect : World -> A * World) :
  (forall w, w_faults (effect w).2 = w_faults w) -> Quiet (outside c effect).
Proof.
  intros He w H. rewrite (outside_ok _ _ _ H). unfold world_after; simpl.
  by rewrite He.
Qed.

Lemma quiet_for_each {A S} (l : list A) (body : S -> A -> Async S) (acc : S) :
  (forall s x, Quiet (body s x)) -> Quiet (for_each l body acc).
Proof.
  intros Hb. revert acc. induction l as [|x l IH]; intros acc; simpl.
  - apply quiet_ret.
  - apply quiet_bind; [apply Hb | intros; apply IH].
Qed.

Lemma quiet_random : Quiet Math_random_token.
Proof. intros w H. unfold Math_random_token. by destruct (w_random w). Qed.

Lemma quiet_getInfo p : Quiet (FileSystem.getInfoAsync_exists p).
Proof. by apply quiet_outside. Qed.
Lemma quiet_makeDirectory p : Quiet (FileSystem.makeDirectoryAsync p).
Proof. by apply quiet_outside. Qed.
Lemma quiet_write p d : Quiet (FileSystem.writeAsStringAsync p d).
Proof. by apply quiet_outside. Qed.
Lemma quiet_delete p : Quiet (FileSystem.deleteAsync p).
Proof. by apply quiet_outside. Qed.

(** Reduction of the control operators, up to the next outside call. *)
Ltac run :=
  repeat (progress (unfold bind, try_catch, ret, throw, get, modify, Date_now,
                      outcome, world_after, events;
                    cbn [for_each negb andb orb fst snd app])).

End AsyncFacts.

(** ** Saving and loading the notes *)

Module NotesProperties.
Import JsString Data Platform ImageStorage StorageContext STORAGE_KEYS Vocabulary AsyncFacts.

Section WithRuntime.
Context {rt : Runtime}.

Lemma quiet_persist_image dir acc entry : Quiet (persist_image dir acc entry).
Proof.
  destruct entry as [i image]. unfold persist_image.
  apply quiet_try; [|apply quiet_ret].
  destruct (startsWith image (js "file://")); [apply quiet_ret|].
  destruct (startsWith image (js "data:image/")); [|apply quiet_ret].
  apply quiet_bind; [apply quiet_get|intros now].
  apply quiet_bind; [apply quiet_random|intros random].
  destruct (split_on 44 image !! 1%nat) as [[|??]|]; try apply quiet_ret.
  apply quiet_bind; [apply quiet_write|intros; apply quiet_ret].
Qed.

Lemma quiet_persistImagesIfNeeded images : Quiet (persistImagesIfNeeded images).
Proof.
  unfold persistImagesIfNeeded.
  destruct images as [[|img imgs]|]; try apply quiet_ret.
  destruct OS_web; [apply quiet_ret|].
  apply quiet_bind.
  - apply quiet_try; [|apply quiet_ret].
    apply quiet_bind; [apply quiet_getInfo|].
    intros [|]; [apply quiet_ret|apply quiet_makeDirectory].
  - intros _. apply quiet_bind; [|intros; apply quiet_ret].
    apply quiet_for_each. intros; apply quiet_persist_image.
Qed.

Lemma quiet_sanitizeNotesImages notes : Quiet (sanitizeNotesImages notes).
Proof.
  unfold sanitizeNotesImages. destruct OS_web; [apply quiet_ret|].
  apply quiet_for_each. intros acc note.
  destruct (has_inline_image (n_images note)); [|apply quiet_ret].
  apply quiet_bind; [apply quiet_persistImagesIfNeeded|intros; apply quiet_ret].
Qed.

(** The image helpers and the sanitizer leave the key-value store alone. *)

Lemma keeps_ret {A} (a : A) : KeepsStore (ret a).
Proof. by intros w. Qed.
Lemma keeps_get {A} (f : World -> A) : KeepsStore (get f).
Proof. by intros w. Qed.
Lemma keeps_random : KeepsStore Math_random_token.
Proof. intros w. unfold Math_random_token. by destruct (w_random w). Qed.
Lemma keeps_bind {A B} (m : Async A) (k : A -> Async B) :
  KeepsStore m -> (forall a, KeepsStore (k a)) -> KeepsStore (bind m k).
Proof.
  intros Hm Hk w. specialize (Hm w). unfold bind, world_after in *.
  destruct (m w) as [[[a|] w1] e1]; simpl in *; [|done].
  specialize (Hk a w1). unfold world_after in Hk.
  destruct (k a w1) as [[r w2] e2]; simpl in *. congruence.
Qed.
Lemma keeps_try {A} (body handler : Async A) :
  KeepsStore body -> KeepsStore handler -> KeepsStore (try_catch body handler).
Proof.
  intros Hb Hh w. specialize (Hb w). unfold try_catch, world_after in *.
  destruct (body w) as [[[a|] w1] e1]; simpl in *; [done|].
  specialize (Hh w1). unfold world_after in Hh.
  destruct (handler w1) as [[r w2] e2]; simpl in *. congruence.
Qed.
Lemma keeps_for_each {A S} (l : list A) (body : S -> A -> Async S) (acc : S) :
  (forall s x, KeepsStore (body s x)) -> KeepsStore (for_each l body acc).
Proof.
  intros Hb. revert acc. induction l as [|x l IH]; intros acc; simpl.
  - apply keeps_ret.
  - apply keeps_bind; [apply Hb | intros; apply IH].
Qed.
Lemma keeps_outside {A} (c : Call) (effect : World -> A * World) :
  (forall w, w_store (effect w).2 = w_store w) -> KeepsStore (outside c effect).
Proof.
  intros He w. unfold outside, world_after.
  destruct (w_faults w) as [|[|] fs]; simpl; [| done |].
  - specialize (He w). by destruct (effect w).
  - specialize (He (with_faults fs w)). by destruct (effect _).
Qed.

Lemma keeps_persist_image dir acc entry : KeepsStore (persist_image dir acc entry).
Proof.
  destruct entry as [i image]. unfold persist_image.
  apply keeps_try; [|apply keeps_ret].
  destruct (startsWith image (js "file://")); [apply keeps_ret|].
  destruct (startsWith image (js "data:image/")); [|apply keeps_ret].
  apply keeps_bind; [apply keeps_get|intros now].
  apply keeps_bind; [apply keeps_random|intros random].
  destruct (split_on 44 image !! 1%nat) as [[|??]|]; try apply keeps_ret.
  apply keeps_bind; [by apply keeps_outside|intros; apply keeps_ret].
Qed.

Lemma keeps_persistImagesIfNeeded images : KeepsStore (persistImagesIfNeeded images).
Proof.
  unfold persistImagesIfNeeded.
  destruct images as [[|img imgs]|]; try apply keeps_ret.
  destruct OS_web; [apply keeps_ret|].
  apply keeps_bind.
  - apply keeps_try; [|apply keeps_ret].
    apply keeps_bind; [by apply keeps_outside|].
    intros [|]; [apply keeps_ret|by apply keeps_outside].
  - intros _. apply keeps_bind; [|intros; apply keeps_ret].
    apply keeps_for_each. intros; apply keeps_persist_image.
Qed.

Lemma sanitize_keeps_store notes : KeepsStore (sanitizeNotesImages notes).
Proof.
  unfold sanitizeNotesImages. destruct OS_web; [apply keeps_ret|].
  apply keeps_for_each. intros acc note.
  destruct (has_inline_image (n_images note)); [|apply keeps_ret].
  apply keeps_bind; [apply keeps_persistImagesIfNeeded|intros; apply keeps_ret].
Qed.

(** *** The calls of the store on a fault-free run *)

Lemma setItem_ok key value w :
  w_faults w = [] ->
  AsyncStorage.setItem key value w
  = (Returned tt, with_store (insert key value) w, [mkEvent (SetItem key value) false]).
Proof. intros H. unfold AsyncStorage.setItem. by rewrite outside_ok. Qed.

Lemma removeItem_ok key w :
  w_faults w = [] ->
  AsyncStorage.removeItem key w
  = (Returned tt, with_store (delete key) w, [mkEvent (RemoveItem key) false]).
Proof. intros H. unfold AsyncStorage.removeItem. by rewrite outside_ok. Qed.

Lemma multiRemove_ok keys w :
  w_faults w = [] ->
  AsyncStorage.multiRemove keys w
  = (Returned tt, with_store (fun m => foldr delete m keys) w, [mkEvent (MultiRemove keys) false]).
Proof. intros H. unfold AsyncStorage.multiRemove. by rewrite outside_ok. Qed.

Lemma getItem_ok key w :
  w_faults w = [] ->
  AsyncStorage.getItem key w = (Returned (w_store w !! key), w, [mkEvent (GetItem key) false]).
Proof. intros H. unfold AsyncStorage.getItem. by rewrite outside_ok. Qed.

Lemma getAllKeys_ok w :
  w_faults w = [] ->
  AsyncStorage.getAllKeys w = (Returned (map_to_list (w_store w)).*1, w, [mkEvent GetAllKeys false]).
Proof. intros H. unfold AsyncStorage.getAllKeys. by rewrite outside_ok. Qed.

(** *** Keys *)

Lemma prefix_app (p s : string) : String.prefix p (p +:+ s) = true.
Proof.
  induction p as [|a p IH]; simpl.
  - by destruct s.
  - destruct (Ascii.ascii_dec a a); [done|congruence].
Qed.

Lemma chunkKey_prefix i : key_startsWith (chunkKey i) chunkPrefix = true.
Proof. apply prefix_app. Qed.

Lemma key_without_prefix (k : string) i :
  key_startsWith k chunkPrefix = false -> chunkKey i <> k.
Proof. intros H E. rewrite <- E, chunkKey_prefix in H. done. Qed.

Lemma chunkKey_not_NOTES i : chunkKey i <> NOTES.
Proof. by apply key_without_prefix. Qed.
Lemma chunkKey_not_TMP i : chunkKey i <> NOTES_TMP.
Proof. by apply key_without_prefix. Qed.
Lemma chunkKey_not_META i : chunkKey i <> NOTES_META.
Proof. by apply key_without_prefix. Qed.

Lemma elem_of_selectedChunkKeys (m : gmap string jsstring) (k : string) :
  k ∈ selectedChunkKeys m <-> is_Some (m !! k) /\ key_startsWith k chunkPrefix = true.
Proof.
  unfold selectedChunkKeys. rewrite list_elem_of_In, filter_In, <- list_elem_of_In.
  rewrite list_elem_of_fmap. split.
  - intros [[[k' v] [-> Hin%elem_of_map_to_list]] Hp]. simpl in *. eauto.
  - intros [[v Hv] Hp]. split; [|done]. exists (k, v). split; [done|].
    by apply elem_of_map_to_list.
Qed.

(** What [cleanupOldChunks] leaves behind: no key that starts with the chunk
    prefix survives, whoever wrote it. *)
Lemma cleanedStore_chunk_key (m : gmap string jsstring) (k : string) :
  key_startsWith k chunkPrefix = true -> cleanedStore m !! k = None.
Proof.
  intros Hp. unfold cleanedStore.
  assert (k ∉ selectedChunkKeys m -> m !! k = None) as Hnot.
  { intros Hn. destruct (m !! k) eqn:E; [|done].
    exfalso. apply Hn. apply elem_of_selectedChunkKeys. eauto. }
  destruct (0 <? length (selectedChunkKeys m))%nat eqn:Hlen.
  - rewrite lookup_delete_ne.
    2:{ intros E. rewrite <- E in Hp. done. }
    destruct (decide (k ∈ selectedChunkKeys m)) as [Hin|Hn].
    + by apply lookup_foldr_delete.
    + rewrite lookup_foldr_delete_not_elem_of by done. by apply Hnot.
  - apply Hnot. apply Nat.ltb_ge in Hlen.
    destruct (selectedChunkKeys m); [apply not_elem_of_nil|simpl in Hlen; lia].
Qed.

Lemma cleanedStore_meta (m : gmap string jsstring) (k : string) :
  is_Some (m !! k) -> key_startsWith k chunkPrefix = true ->
  cleanedStore m !! NOTES_META = None.
Proof.
  intros Hk Hp. unfold cleanedStore.
  assert (k ∈ selectedChunkKeys m) as Hin by (apply elem_of_selectedChunkKeys; eauto).
  destruct (selectedChunkKeys m) as [|k0 ks] eqn:E.
  - by apply not_elem_of_nil in Hin.
  - simpl. apply lookup_delete_eq.
Qed.

Lemma cleanedStore_other (m : gmap string jsstring) (k : string) :
  key_startsWith k chunkPrefix = false -> k <> NOTES_META ->
  cleanedStore m !! k = m !! k.
Proof.
  intros Hp Hk. unfold cleanedStore.
  destruct (0 <? length (selectedChunkKeys m))%nat; [|done].
  rewrite lookup_delete_ne by done.
  apply lookup_foldr_delete_not_elem_of.
  intros [_ ?]%elem_of_selectedChunkKeys. congruence.
Qed.

Lemma cleanupOldChunks_ok w :
  w_faults w = [] ->
  cleanupOldChunks w
  = (Returned tt, with_store (fun _ => cleanedStore (w_store w)) w, cleanupEvents (w_store w)).
Proof.
  intros Hf. unfold cleanupOldChunks.
  erewrite try_returned; [reflexivity|].
  erewrite bind_returned by (by apply getAllKeys_ok).
  unfold cleanedStore, cleanupEvents. fold (selectedChunkKeys (w_store w)).
  destruct (0 <? length (selectedChunkKeys (w_store w)))%nat.
  - erewrite bind_returned by (by apply multiRemove_ok).
    rewrite removeItem_ok by done.
    unfold outcome, world_after, events; simpl. reflexivity.
  - unfold outcome, world_after, events, ret; simpl. by destruct w.
Qed.

Lemma write_chunks_ok (entries : list (nat * jsstring)) w :
  w_faults w = [] ->
  for_each entries (fun _ entry => AsyncStorage.setItem (chunkKey (fst entry)) (snd entry)) tt w
  = (Returned tt, with_store (fun m => foldl writeChunk m entries) w,
     map (fun entry => mkEvent (SetItem (chunkKey entry.1) entry.2) false) entries).
Proof.
  revert w. induction entries as [|entry entries IH]; intros w Hf; simpl.
  - unfold ret. by destruct w.
  - erewrite bind_returned by (by apply setItem_ok).
    rewrite IH by done. reflexivity.
Qed.

Lemma foldl_writeChunk_keeps (entries : list (nat * jsstring)) (m : gmap string jsstring) k :
  is_Some (m !! k) -> is_Some (foldl writeChunk m entries !! k).
Proof.
  revert m. induction entries as [|entry entries IH]; intros m H; simpl; [done|].
  apply IH. unfold writeChunk. rewrite lookup_insert. by case_decide.
Qed.

Lemma foldl_writeChunk_written (entries : list (nat * jsstring)) (m : gmap string jsstring) entry :
  entry ∈ entries -> is_Some (foldl writeChunk m entries !! chunkKey entry.1).
Proof.
  revert m. induction entries as [|e entries IH]; intros m H; simpl.
  - by apply not_elem_of_nil in H.
  - rewrite elem_of_cons in H. destruct H as [->|H]; [|by apply IH].
    apply foldl_writeChunk_keeps. unfold writeChunk. rewrite lookup_insert_eq. eauto.
Qed.

(** The chunked branch, when no call fails. *)
Lemma saveNotes_chunked_run (notes sanitized : list Note) w w1 e1 :
  w_faults w = [] ->
  sanitizeNotesImages notes w = (Returned sanitized, w1, e1) ->
  Z.of_nat (length (JSON_stringify_notes sanitized)) > 500 * 1024 ->
  let dataString := JSON_stringify_notes sanitized in
  let chunks := Chunk.splitStringByBytes hasTextEncoder hasWindow dataString maxChunkSize in
  let metadata := JSON_stringify_metadata
    {| totalChunks := Z.of_nat (length chunks); timestamp := w_now w1; version := js "2.0" |} in
  let before := chunkedStore (w_store w1) dataString metadata chunks in
  saveNotes notes w
  = (Returned tt,
     with_state (with_notes sanitized) (with_store (fun _ => cleanedStore before) w1),
     e1 ++ chunkedEvents dataString metadata chunks ++ cleanupEvents before).
Proof.
  intros Hf Hs Hlen dataString chunks metadata before.
  assert (w_faults w1 = []) as Hf1.
  { pose proof (quiet_sanitizeNotesImages notes w Hf) as H. by rewrite Hs in H. }
  unfold saveNotes, enqueue, saveNotes_task.
  erewrite try_returned; [reflexivity|].
  erewrite bind_returned by exact Hs.
  fold dataString.
  erewrite bind_returned by (by apply setItem_ok).
  assert ((Z.of_nat (length dataString) >? 500 * 1024) = true) as ->
    by (rewrite Z.gtb_ltb; apply Z.ltb_lt; unfold dataString; lia).
  unfold saveNotesWithUTF8Chunks. fold chunks.
  erewrite (bind_returned (bind Date_now _)).
  2:{ erewrite bind_returned by reflexivity.
      erewrite bind_returned by (by apply setItem_ok).
      erewrite bind_returned by (by apply write_chunks_ok).
      rewrite removeItem_ok by done.
      unfold outcome, world_after, events; simpl. reflexivity. }
  erewrite bind_returned by (by apply removeItem_ok).
  erewrite bind_returned by (by apply cleanupOldChunks_ok).
  unfold outcome, world_after, events, setNotes, modify; simpl.
  f_equal. unfold chunkedEvents. simpl. rewrite <- !app_assoc, app_nil_r. reflexivity.
Qed.

Lemma chunks_of_large_document (dataString : jsstring) :
  Z.of_nat (length dataString) > 500 * 1024 ->
  exists chunk chunks,
    Chunk.splitStringByBytes hasTextEncoder hasWindow dataString maxChunkSize = chunk :: chunks.
Proof.
  intros Hlen.
  pose proof (ChunkProperties.join_selected_splitter hasTextEncoder hasWindow dataString maxChunkSize) as Hjoin.
  destruct (Chunk.splitStringByBytes _ _ _ _) as [|chunk chunks]; [|eauto].
  simpl in Hjoin. subst dataString. simpl in Hlen. lia.
Qed.

Lemma elem_of_chunkEntries (chunks : list jsstring) i chunk :
  chunks !! i = Some chunk -> (i, chunk) ∈ chunkEntries chunks.
Proof.
  intros H. unfold chunkEntries. apply elem_of_lookup_imap. eauto.
Qed.

(** C2.  On the chunked branch the cleanup that ends the save selects every
    key that starts with the chunk prefix.  When no call fails, the save
    returns normally, it has written the metadata key and one key per chunk,
    and none of these keys is in the store any more. *)
Theorem cleanup_removes_chunks_just_written (notes sanitized : list Note) w w1 e1 :
  w_faults w = [] ->
  sanitizeNotesImages notes w = (Returned sanitized, w1, e1) ->
  Z.of_nat (length (JSON_stringify_notes sanitized)) > 500 * 1024 ->
  let chunks := Chunk.splitStringByBytes hasTextEncoder hasWindow
                  (JSON_stringify_notes sanitized) maxChunkSize in
  let run := saveNotes notes w in
  outcome run = Returned tt /\
  chunks <> [] /\
  (exists metadata, mkEvent (SetItem NOTES_META metadata) false ∈ events run) /\
  (forall i chunk, chunks !! i = Some chunk ->
     mkEvent (SetItem (chunkKey i) chunk) false ∈ events run) /\
  w_store (world_after run) !! NOTES_META = None /\
  (forall i, w_store (world_after run) !! chunkKey i = None).
Proof.
  intros Hf Hs Hlen chunks run.
  pose proof (saveNotes_chunked_run notes sanitized w w1 e1 Hf Hs Hlen) as Hrun.
  simpl in Hrun. fold chunks in Hrun. fold run in Hrun. rewrite Hrun.
  unfold outcome, world_after, events; simpl.
  destruct (chunks_of_large_document _ Hlen) as (chunk0 & rest & Hchunks).
  fold chunks in Hchunks.
  split; [done|]. split; [by rewrite Hchunks|].
  split; [|split; [|split]].
  - eexists. apply elem_of_app. right. apply elem_of_cons. right.
    apply elem_of_cons. by left.
  - intros i chunk Hi. apply elem_of_app. right. do 2 (apply elem_of_cons; right).
    do 2 (apply elem_of_app; left).
    apply list_elem_of_fmap. exists (i, chunk). split; [done|].
    by apply elem_of_chunkEntries.
  - apply (cleanedStore_meta _ (chunkKey 0)); [|apply chunkKey_prefix].
    unfold chunkedStore.
    rewrite lookup_delete_ne by (apply not_eq_sym, chunkKey_not_TMP).
    rewrite lookup_delete_ne by (apply not_eq_sym, chunkKey_not_NOTES).
    apply (foldl_writeChunk_written _ _ (0%nat, chunk0)).
    apply elem_of_chunkEntries. by rewrite Hchunks.
  - intros i. apply cleanedStore_chunk_key, chunkKey_prefix.
Qed.

Lemma primary_key_absent_run w :
  w_store w !! NOTES = None ->
  let run := initializeStorage_notes w in
  notes (w_state (world_after run)) = [] /\
  exists failed, events run = [mkEvent (GetItem NOTES) failed].
Proof.
  intros Hnone run. subst run.
  unfold initializeStorage_notes, safeStorageOperation, AsyncStorage.getItem,
    bind, try_catch, outside.
  destruct (w_faults w) as [|[|] fs]; simpl; rewrite ?Hnone; simpl; eauto.
Qed.

(** Loading when the primary key is absent: one read of the primary key, no
    read of any metadata or chunk key, and an empty collection, whatever
    else the store holds and whether or not the read fails. *)
Theorem load_without_primary_key w :
  w_store w !! NOTES = None ->
  let run := initializeStorage_notes w in
  notes (w_state (world_after run)) = [] /\
  exists failed, events run = [mkEvent (GetItem NOTES) failed].
Proof. apply primary_key_absent_run. Qed.

(** C1.  A collection whose document is longer than the threshold is saved
    in chunks; the save removes the primary key and then its own chunks, and
    the loader looks at nothing but the primary key when that key is absent.
    Saving and then loading, on any later start of the application, gives
    the empty collection. *)
Theorem chunked_save_then_load_is_empty (notes sanitized : list Note) w w1 e1 :
  w_faults w = [] ->
  sanitizeNotesImages notes w = (Returned sanitized, w1, e1) ->
  Z.of_nat (length (JSON_stringify_notes sanitized)) > 500 * 1024 ->
  let saved := saveNotes notes w in
  outcome saved = Returned tt /\
  Data.notes (w_state (world_after saved)) = sanitized /\
  w_store (world_after saved) !! NOTES = None /\
  forall restarted,
    w_store restarted = w_store (world_after saved) ->
    Data.notes (w_state (world_after (initializeStorage_notes restarted))) = [].
Proof.
  intros Hf Hs Hlen saved.
  pose proof (saveNotes_chunked_run notes sanitized w w1 e1 Hf Hs Hlen) as Hrun.
  simpl in Hrun. fold saved in Hrun.
  assert (w_store (world_after saved) !! NOTES = None) as Hnone.
  { rewrite Hrun. unfold world_after; simpl.
    rewrite cleanedStore_other by done.
    unfold chunkedStore. rewrite lookup_delete_ne by done. apply lookup_delete_eq. }
  split; [by rewrite Hrun|]. split; [by rewrite Hrun|]. split; [done|].
  intros restarted Hstore. apply primary_key_absent_run. by rewrite Hstore.
Qed.

(** [loadNotesFromChunks], which nothing calls, gives up at the first chunk
    that is missing. *)
Lemma read_chunks_missing (indexes : list nat) (chunks : list jsstring) w i :
  w_faults w = [] ->
  i ∈ indexes ->
  w_store w !! chunkKey i = None ->
  outcome (read_chunks indexes chunks w) = Returned None.
Proof.
  intros Hf Hi Hnone. revert chunks.
  induction indexes as [|j indexes IH]; intros chunks; simpl.
  - by apply not_elem_of_nil in Hi.
  - erewrite bind_returned by (by apply getItem_ok).
    unfold outcome at 1; simpl.
    destruct (w_store w !! chunkKey j) as [[|c cs]|] eqn:Hj; try done.
    apply IH. rewrite elem_of_cons in Hi. destruct Hi as [->|Hi]; [congruence|done].
Qed.

Lemma read_chunks_same_world (indexes : list nat) (chunks : list jsstring) w :
  w_faults w = [] -> world_after (read_chunks indexes chunks w) = w.
Proof.
  intros Hf. revert chunks.
  induction indexes as [|j indexes IH]; intros chunks; simpl; [done|].
  erewrite bind_returned by (by apply getItem_ok).
  unfold world_after at 1; simpl.
  destruct (w_store w !! chunkKey j) as [[|c cs]|]; first [done | apply IH].
Qed.

(** [loadNotesFromChunks], which nothing calls, does refuse an incomplete
    set: when the metadata announce [count] chunks and one of them is absent,
    it answers null. *)
Theorem loadNotesFromChunks_missing_chunk w metadata (count : Z) (i : nat) :
  w_faults w = [] ->
  w_store w !! NOTES_META = Some metadata -> metadata <> [] ->
  JSON_parse_metadata metadata = MetaCount count ->
  (Z.of_nat i < count) ->
  w_store w !! chunkKey i = None ->
  outcome (loadNotesFromChunks w) = Returned None.
Proof.
  intros Hf Hmeta Hne Hparse Hi Hnone.
  unfold loadNotesFromChunks.
  assert (outcome (read_chunks (seq 0 (Z.to_nat count)) [] w) = Returned None) as Hread.
  { apply (read_chunks_missing _ _ _ i); try done. apply elem_of_seq. lia. }
  destruct metadata as [|c metadata]; [done|].
  unfold try_catch.
  erewrite bind_returned by (by apply getItem_ok).
  rewrite Hmeta, Hparse.
  unfold bind, outcome in *.
  destruct (read_chunks _ _ _) as [[[r|] w'] e']; [|done].
  simpl in *. by injection Hread as ->.
Qed.

(** C3.  The loader that [initializeStorage] runs when the primary key does
    not parse reads another metadata key than the one the save writes, and
    it steps over a missing chunk: with two chunks announced, chunk 0
    missing and chunk 1 present, the collection is made of the notes of
    chunk 1. *)
Theorem initializeStorage_steps_over_missing_chunk w data metadata chunk1 items :
  w_faults w = [] ->
  w_store w !! NOTES = Some data ->
  data <> [] -> data <> js "undefined" -> data <> js "null" ->
  JSON_parse_notes data = SyntaxError ->
  w_store w !! legacyMetaKey = Some metadata -> metadata <> [] ->
  JSON_parse_metadata metadata = MetaCount 2 ->
  w_store w !! chunkKey 0 = None ->
  w_store w !! chunkKey 1 = Some chunk1 -> chunk1 <> [] ->
  JSON_parse_notes chunk1 = AnArray items ->
  let run := initializeStorage_notes w in
  Data.notes (w_state (world_after run)) = map (processNote (w_now w)) items /\
  events run = [mkEvent (GetItem NOTES) false; mkEvent (GetItem legacyMetaKey) false;
                mkEvent (GetItem (chunkKey 0)) false; mkEvent (GetItem (chunkKey 1)) false].
Proof.
  intros Hf Hdata Hd1 Hd2 Hd3 Hparse Hmeta Hm Hcount Hc0 Hc1 Hc Hitems run.
  subst run. destruct data as [|d data]; [done|].
  destruct metadata as [|m metadata]; [done|].
  destruct chunk1 as [|c chunk1]; [done|].
  assert (eqb (d :: data) (js "undefined") = false) as Hu by (by apply bool_decide_eq_false).
  assert (eqb (d :: data) (js "null") = false) as Hn by (by apply bool_decide_eq_false).
  unfold initializeStorage_notes, safeStorageOperation, loadLegacyChunks.
  run. rewrite getItem_ok by done. run.
  rewrite Hdata, Hu, Hn. run. rewrite Hparse. run.
  rewrite getItem_ok by done. run.
  rewrite Hmeta, Hcount. run.
  change (Z.to_nat 2) with 2%nat. cbn [seq]. run.
  rewrite getItem_ok by done. run. rewrite Hc0. run.
  rewrite getItem_ok by done. run. rewrite Hc1, Hitems. run.
  done.
Qed.

(** *** The direct branch *)

Lemma saveNotes_direct_run (notes sanitized : list Note) w w1 e1 :
  w_faults w = [] ->
  sanitizeNotesImages notes w = (Returned sanitized, w1, e1) ->
  Z.of_nat (length (JSON_stringify_notes sanitized)) <= 500 * 1024 ->
  let dataString := JSON_stringify_notes sanitized in
  let before := directStore (w_store w1) dataString in
  saveNotes notes w
  = (Returned tt,
     with_state (with_notes sanitized) (with_store (fun _ => cleanedStore before) w1),
     e1 ++ directEvents dataString ++ cleanupEvents before).
Proof.
  intros Hf Hs Hlen dataString before.
  assert (w_faults w1 = []) as Hf1.
  { pose proof (quiet_sanitizeNotesImages notes w Hf) as H. by rewrite Hs in H. }
  unfold saveNotes, enqueue, saveNotes_task.
  erewrite try_returned; [reflexivity|].
  erewrite bind_returned by exact Hs.
  fold dataString.
  erewrite bind_returned by (by apply setItem_ok).
  assert ((Z.of_nat (length dataString) >? 500 * 1024) = false) as ->
    by (rewrite Z.gtb_ltb; apply Z.ltb_ge; unfold dataString; lia).
  erewrite bind_returned by (by apply setItem_ok).
  erewrite bind_returned by (by apply removeItem_ok).
  erewrite bind_returned by (by apply cleanupOldChunks_ok).
  unfold outcome, world_after, events, setNotes, modify; simpl.
  f_equal. unfold directEvents. simpl. rewrite app_nil_r. reflexivity.
Qed.

Lemma cleanedStore_without_chunks (m : gmap string jsstring) :
  (forall key, key_startsWith key chunkPrefix = true -> m !! key = None) ->
  cleanedStore m = m.
Proof.
  intros Hnone. unfold cleanedStore.
  destruct (selectedChunkKeys m) as [|k ks] eqn:E; [done|].
  assert (k ∈ selectedChunkKeys m) as Hin by (rewrite E; left).
  apply elem_of_selectedChunkKeys in Hin as [[v Hv] Hp].
  rewrite (Hnone k Hp) in Hv. done.
Qed.

Lemma directStore_chunk_key (m : gmap string jsstring) (dataString : jsstring) (key : string) :
  key_startsWith key chunkPrefix = true -> directStore m dataString !! key = m !! key.
Proof.
  intros Hp. unfold directStore.
  assert (key <> NOTES_TMP) by (intros ->; done).
  assert (key <> NOTES) by (intros ->; done).
  by rewrite lookup_delete_ne, !lookup_insert_ne.
Qed.

(** A document up to the threshold goes to the primary key alone: the save
    writes the staging key and the primary key and nothing else, and it
    leaves no staging key and no chunk key.  The metadata key is removed
    when the store held a chunk key before the save; when it held none, the
    metadata key keeps what it had.  A later start loads what the parser
    makes of the very document that was saved. *)
Theorem direct_save_then_load (notes sanitized : list Note) w w1 e1 (parsed : list RawNote) :
  w_faults w = [] ->
  sanitizeNotesImages notes w = (Returned sanitized, w1, e1) ->
  Z.of_nat (length (JSON_stringify_notes sanitized)) <= 500 * 1024 ->
  JSON_stringify_notes sanitized <> [] ->
  JSON_stringify_notes sanitized <> js "undefined" ->
  JSON_stringify_notes sanitized <> js "null" ->
  JSON_parse_notes (JSON_stringify_notes sanitized) = AnArray parsed ->
  let saved := saveNotes notes w in
  outcome saved = Returned tt /\
  events saved
  = e1 ++ directEvents (JSON_stringify_notes sanitized)
       ++ cleanupEvents (directStore (w_store w1) (JSON_stringify_notes sanitized)) /\
  w_store (world_after saved) !! NOTES = Some (JSON_stringify_notes sanitized) /\
  w_store (world_after saved) !! NOTES_TMP = None /\
  (forall key, key_startsWith key chunkPrefix = true ->
     w_store (world_after saved) !! key = None) /\
  ((exists key, key_startsWith key chunkPrefix = true /\ is_Some (w_store w !! key)) ->
   w_store (world_after saved) !! NOTES_META = None) /\
  ((forall key, key_startsWith key chunkPrefix = true -> w_store w !! key = None) ->
   w_store (world_after saved) !! NOTES_META = w_store w !! NOTES_META) /\
  forall restarted,
    w_store restarted = w_store (world_after saved) ->
    w_faults restarted = [] ->
    Data.notes (w_state (world_after (initializeStorage_notes restarted)))
    = map (processNote (w_now restarted)) parsed.
Proof.
  intros Hf Hs Hlen Hne Hu Hn Hparse saved.
  pose proof (saveNotes_direct_run notes sanitized w w1 e1 Hf Hs Hlen) as Hrun.
  cbv zeta in Hrun. fold saved in Hrun.
  assert (w_store w1 = w_store w) as Hsame.
  { pose proof (sanitize_keeps_store notes w) as H. by rewrite Hs in H. }
  assert (w_store (world_after saved) !! NOTES = Some (JSON_stringify_notes sanitized)) as Hprimary.
  { rewrite Hrun. unfold world_after; simpl. rewrite cleanedStore_other by done.
    unfold directStore. rewrite lookup_delete_ne by done. apply lookup_insert_eq. }
  split; [by rewrite Hrun|]. split; [|split; [done|split; [|split; [|split; [|split]]]]].
  - by rewrite Hrun.
  - rewrite Hrun. unfold world_after; simpl. rewrite cleanedStore_other by done.
    unfold directStore. apply lookup_delete_eq.
  - intros key Hp. rewrite Hrun. unfold world_after; simpl.
    by apply cleanedStore_chunk_key.
  - intros (key & Hp & Hkey). rewrite Hrun. unfold world_after; simpl.
    apply (cleanedStore_meta _ key); [|done].
    by rewrite directStore_chunk_key, Hsame.
  - intros Hnone. rewrite Hrun. unfold world_after; simpl.
    rewrite cleanedStore_without_chunks.
    + unfold directStore. by rewrite lookup_delete_ne, !lookup_insert_ne, Hsame.
    + intros key Hp. rewrite directStore_chunk_key, Hsame by done. by apply Hnone.
  - intros restarted Hstore Hfr.
    assert (eqb (JSON_stringify_notes sanitized) (js "undefined") = false) as Hu'
      by (by apply bool_decide_eq_false).
    assert (eqb (JSON_stringify_notes sanitized) (js "null") = false) as Hn'
      by (by apply bool_decide_eq_false).
    unfold initializeStorage_notes, safeStorageOperation.
    run. rewrite getItem_ok by done. run.
    rewrite Hstore, Hprimary.
    destruct (JSON_stringify_notes sanitized) as [|c data] eqn:Hdata; [done|].
    rewrite Hu', Hn'. run. rewrite Hparse. run. done.
Qed.


End WithRuntime.
End NotesProperties.

(** The three statements above at concrete inputs. *)

Module NotesExamples.
Import JsString Data Platform StorageContext STORAGE_KEYS NotesProperties DemoRuntime.

Lemma cleanup_removes_chunks_just_written_example :
  let chunks := Chunk.splitStringByBytes hasTextEncoder hasWindow
                  (JSON_stringify_notes [largeNote]) maxChunkSize in
  let run := saveNotes [largeNote] emptyWorld in
  outcome run = Returned tt /\
  chunks <> [] /\
  (exists metadata, mkEvent (SetItem NOTES_META metadata) false ∈ events run) /\
  (forall i chunk, chunks !! i = Some chunk ->
     mkEvent (SetItem (chunkKey i) chunk) false ∈ events run) /\
  w_store (world_after run) !! NOTES_META = None /\
  (forall i, w_store (world_after run) !! chunkKey i = None).
Proof.
  apply (cleanup_removes_chunks_just_written [largeNote] [largeNote] emptyWorld emptyWorld []).
  - reflexivity.
  - reflexivity.
  - vm_compute. reflexivity.
Defined.

Lemma chunked_save_then_load_is_empty_example :
  let saved := saveNotes [largeNote] emptyWorld in
  outcome saved = Returned tt /\
  Data.notes (w_state (world_after saved)) = [largeNote] /\
  w_store (world_after saved) !! NOTES = None /\
  forall restarted,
    w_store restarted = w_store (world_after saved) ->
    Data.notes (w_state (world_after (initializeStorage_notes restarted))) = [].
Proof.
  apply (chunked_save_then_load_is_empty [largeNote] [largeNote] emptyWorld emptyWorld []).
  - reflexivity.
  - reflexivity.
  - vm_compute. reflexivity.
Defined.

Lemma initializeStorage_steps_over_missing_chunk_example :
  let run := initializeStorage_notes brokenWorld in
  Data.notes (w_state (world_after run))
  = map (processNote (w_now brokenWorld))
      [mkRawNote (js "hello") (js "hello") (js "hello") None None None;
       mkRawNote (js "world") (js "world") (js "world") None None None] /\
  events run = [mkEvent (GetItem NOTES) false; mkEvent (GetItem legacyMetaKey) false;
                mkEvent (GetItem (chunkKey 0)) false; mkEvent (GetItem (chunkKey 1)) false].
Proof.
  apply (initializeStorage_steps_over_missing_chunk brokenWorld (js "{") (js "2")
           (js "[hello|world]")).
  - reflexivity.
  - reflexivity.
  - discriminate.
  - discriminate.
  - discriminate.
  - reflexivity.
  - reflexivity.
  - discriminate.
  - reflexivity.
  - reflexivity.
  - reflexivity.
  - discriminate.
  - reflexivity.
Defined.

End NotesExamples.

(** ** Searching *)

Module SearchProperties.
Import JsString Data Platform StorageContext Vocabulary.

Lemma split_ws_from_words (s : jsstring) (inSeparator : bool) (current : jsstring) :
  (inSeparator = true -> current = []) ->
  List.filter (fun word => (0 <? length word)%nat) (split_ws_from inSeparator current s)
  = words_from current s.
Proof.
  revert inSeparator current.
  induction s as [|c s IH]; intros inSeparator current Hsep; simpl.
  - by destruct current.
  - destruct (isWhiteSpace c).
    + destruct inSeparator.
      * rewrite Hsep by done. simpl. by apply IH.
      * simpl. rewrite IH by done. by destruct current.
    + by apply IH.
Qed.

Lemma words_from_whitespace (ws : jsstring) (current : jsstring) :
  forallb isWhiteSpace ws = true ->
  words_from current ws = match current with [] => [] | _ => [current] end.
Proof.
  revert current. induction ws as [|c ws IH]; intros current H; simpl in *; [done|].
  apply andb_true_iff in H as [Hc Hws]. rewrite Hc, IH by done.
  by destruct current.
Qed.

Lemma words_from_app_whitespace (s ws : jsstring) (current : jsstring) :
  forallb isWhiteSpace ws = true ->
  words_from current (s ++ ws) = words_from current s.
Proof.
  intros Hws. revert current. induction s as [|c s IH]; intros current; simpl.
  - by apply words_from_whitespace.
  - destruct (isWhiteSpace c); by rewrite IH.
Qed.

Lemma trimStart_split (s : jsstring) :
  exists ws, s = ws ++ trimStart s /\ forallb isWhiteSpace ws = true.
Proof.
  induction s as [|c s (ws & Hs & Hws)]; simpl.
  - by exists [].
  - destruct (isWhiteSpace c) eqn:Hc.
    + exists (c :: ws). simpl. rewrite Hc, Hws. split; [by f_equal|done].
    + by exists [].
Qed.

Lemma words_trimStart (s : jsstring) : words (trimStart s) = words s.
Proof.
  unfold words. induction s as [|c s IH]; simpl; [done|].
  destruct (isWhiteSpace c) eqn:Hc; [done|]. simpl. by rewrite Hc.
Qed.

Lemma forallb_rev {A} (p : A -> bool) (l : list A) : forallb p (rev l) = forallb p l.
Proof.
  induction l as [|x l IH]; simpl; [done|].
  rewrite forallb_app, IH. simpl. rewrite andb_true_r. apply andb_comm.
Qed.

Lemma words_trim (s : jsstring) : words (trim s) = words s.
Proof.
  unfold trim.
  destruct (trimStart_split (rev (trimStart s))) as (ws & Hs & Hws).
  apply (f_equal (@rev N)) in Hs. rewrite rev_involutive, rev_app_distr in Hs.
  rewrite <- (words_trimStart s). rewrite Hs at 2.
  unfold words. rewrite words_from_app_whitespace; [done|].
  by rewrite forallb_rev.
Qed.

Section WithRuntime.
Context {rt : Runtime}.

(** The query words are the words of the lower-cased query. *)
Lemma queryWords_words (query : jsstring) : queryWords query = words (toLowerCase query).
Proof.
  unfold queryWords, split_whitespace.
  rewrite split_ws_from_words by done. apply words_trim.
Qed.

Lemma push_loop {A B} (test : A -> bool) (make : A -> B) (l : list A) (results : list B) :
  fold_left (fun results x => if test x then results ++ [make x] else results) l results
  = results ++ map make (List.filter test l).
Proof.
  revert results. induction l as [|x l IH]; intros results; simpl.
  - by rewrite app_nil_r.
  - rewrite IH. destruct (test x); simpl; [|done]. by rewrite <- app_assoc.
Qed.

Lemma nested_loop {A B} (inner : list B -> A -> list B) (found : A -> list B)
    (l : list A) (results : list B) :
  (forall results x, inner results x = results ++ found x) ->
  fold_left inner l results = results ++ flat_map found l.
Proof.
  intros Hinner. revert results. induction l as [|x l IH]; intros results; simpl.
  - by rewrite app_nil_r.
  - rewrite IH, Hinner. by rewrite <- app_assoc.
Qed.

Lemma filter_flat_map {A B} (p : B -> bool) (f : A -> list B) (l : list A) :
  List.filter p (flat_map f l) = flat_map (fun x => List.filter p (f x)) l.
Proof.
  induction l as [|x l IH]; simpl; [done|]. by rewrite List.filter_app, IH.
Qed.

Lemma filter_map_swap {A B} (p : B -> bool) (f : A -> B) (l : list A) :
  List.filter p (map f l) = map f (List.filter (fun x => p (f x)) l).
Proof.
  induction l as [|x l IH]; simpl; [done|]. destruct (p (f x)); simpl; by rewrite IH.
Qed.

Lemma searchShutters_filter (projectsRef : list Project) (query : jsstring) :
  searchShutters projectsRef query = List.filter (matches query) (allShutters projectsRef).
Proof.
  unfold searchShutters, allShutters.
  rewrite (nested_loop _ (fun project =>
             List.filter (matches query)
               (flat_map (fun building =>
                  flat_map (fun zone =>
                    map (fun shutter => mkSearchResult shutter zone building project)
                      (z_shutters zone))
                  (b_functionalZones building))
               (p_buildings project)))).
  - simpl. by rewrite filter_flat_map.
  - intros results project.
    rewrite filter_flat_map. apply nested_loop. intros results' building.
    rewrite filter_flat_map. apply nested_loop. intros results'' zone.
    rewrite push_loop. f_equal. by rewrite filter_map_swap.
Qed.

Lemma elem_of_allShutters (projects : list Project) (r : SearchResult) :
  r ∈ allShutters projects <->
  r_project r ∈ projects /\
  r_building r ∈ p_buildings (r_project r) /\
  r_zone r ∈ b_functionalZones (r_building r) /\
  r_shutter r ∈ z_shutters (r_zone r).
Proof.
  unfold allShutters. rewrite list_elem_of_In, in_flat_map. split.
  - intros (project & Hp & H). apply in_flat_map in H as (building & Hb & H).
    apply in_flat_map in H as (zone & Hz & H). apply in_map_iff in H as (shutter & <- & Hs).
    simpl. by rewrite !list_elem_of_In.
  - intros (Hp & Hb & Hz & Hs). rewrite !list_elem_of_In in *.
    exists (r_project r). split; [done|]. apply in_flat_map.
    exists (r_building r). split; [done|]. apply in_flat_map.
    exists (r_zone r). split; [done|]. apply in_map_iff.
    exists (r_shutter r). split; [by destruct r|done].
Qed.

Lemma join_fields (a b c d e f : jsstring) :
  join (js " ") [a; b; c; d; e; f]
  = a ++ js " " ++ b ++ js " " ++ c ++ js " " ++ d ++ js " " ++ e ++ js " " ++ f.
Proof. reflexivity. Qed.

(** The text that the code builds for a shutter is the lower-cased text of
    the six fields. *)
Lemma searchableText_fields (r : SearchResult) :
  searchableText (r_shutter r) (r_zone r) (r_building r) (r_project r)
  = toLowerCase (searchedText r).
Proof.
  unfold searchableText, searchedText, or_empty. rewrite join_fields.
  by destruct (p_city (r_project r)), (s_remarks (r_shutter r)).
Qed.

Lemma matches_words (query : jsstring) (r : SearchResult) :
  matches query r
  = forallb (includes (toLowerCase (searchedText r))) (words (toLowerCase query)).
Proof.
  unfold matches, matchesAllWords. by rewrite queryWords_words, searchableText_fields.
Qed.

(** C8.  The query is cut into the words of its lower-cased form.  The text
    of a shutter is the lower-cased concatenation, with single spaces, of
    its name, the names of its zone, building and project, the city of the
    project and its remarks (the empty text for a missing city or remark).
    The result lists, in the order of the tree, exactly the shutters (with
    their zone, building and project) whose text contains every one of these
    words; a shutter whose text lacks a word is not listed. *)
Theorem searchShutters_all_words (projectsRef : list Project) (query : jsstring) :
  queryWords query = words (toLowerCase query) /\
  searchShutters projectsRef query
  = List.filter
      (fun r => forallb (includes (toLowerCase (searchedText r))) (words (toLowerCase query)))
      (allShutters projectsRef) /\
  forall r : SearchResult,
    r ∈ searchShutters projectsRef query <->
    (r_project r ∈ projectsRef /\
     r_building r ∈ p_buildings (r_project r) /\
     r_zone r ∈ b_functionalZones (r_building r) /\
     r_shutter r ∈ z_shutters (r_zone r)) /\
    forall word, word ∈ words (toLowerCase query) ->
      includes (toLowerCase (searchedText r)) word = true.
Proof.
  split; [apply queryWords_words|].
  split.
  - rewrite searchShutters_filter. apply filter_ext. intros r. apply matches_words.
  - intros r. rewrite searchShutters_filter.
    rewrite list_elem_of_In, filter_In, <- list_elem_of_In, elem_of_allShutters.
    rewrite matches_words, forallb_forall.
    setoid_rewrite list_elem_of_In. tauto.
Qed.

End WithRuntime.
End SearchProperties.

(** ** How failures of the store travel through the operations *)

Module FailureProperties.
Import JsString Data Platform ImageStorage StorageContext STORAGE_KEYS Vocabulary AsyncFacts.

Lemma outside_cases {A} (c : Call) (effect : World -> A * World) w :
  (outcome (outside c effect w) = Thrown /\ events (outside c effect w) = [mkEvent c true]) \/
  ((exists a, outcome (outside c effect w) = Returned a)
   /\ events (outside c effect w) = [mkEvent c false]).
Proof.
  unfold outside. destruct (w_faults w) as [|[|] fs].
  - right. destruct (effect w). eauto.
  - by left.
  - right. destruct (effect _). eauto.
Qed.

(** *** Computations that make no persistence write *)

Lemma nowrites_ret {A} (a : A) : NoWrites (ret a).
Proof. intros w ev H. by apply not_elem_of_nil in H. Qed.
Lemma nowrites_throw {A} : NoWrites (@throw A).
Proof. intros w ev H. by apply not_elem_of_nil in H. Qed.
Lemma nowrites_get {A} (f : World -> A) : NoWrites (get f).
Proof. intros w ev H. by apply not_elem_of_nil in H. Qed.
Lemma nowrites_modify f : NoWrites (modify f).
Proof. intros w ev H. by apply not_elem_of_nil in H. Qed.
Lemma nowrites_random : NoWrites Math_random_token.
Proof. intros w ev H. unfold Math_random_token in H. destruct (w_random w); by apply not_elem_of_nil in H. Qed.

Lemma nowrites_outside {A} (c : Call) (effect : World -> A * World) :
  persistenceWrite c = false -> NoWrites (outside c effect).
Proof.
  intros Hc w ev H.
  destruct (outside_cases c effect w) as [[_ He]|[_ He]]; rewrite He in H;
    apply list_elem_of_singleton in H; by subst ev.
Qed.

Lemma nowrites_bind {A B} (m : Async A) (k : A -> Async B) :
  NoWrites m -> (forall a, NoWrites (k a)) -> NoWrites (bind m k).
Proof.
  intros Hm Hk w ev. specialize (Hm w). unfold bind, events in *.
  destruct (m w) as [[[a|] w1] e1]; simpl in *; [|by apply Hm].
  specialize (Hk a w1). unfold events in Hk.
  destruct (k a w1) as [[r w2] e2]; simpl in *.
  intros [?|?]%elem_of_app; eauto.
Qed.

Lemma nowrites_try {A} (body handler : Async A) :
  NoWrites body -> NoWrites handler -> NoWrites (try_catch body handler).
Proof.
  intros Hb Hh w ev. specialize (Hb w). unfold try_catch, events in *.
  destruct (body w) as [[[a|] w1] e1]; simpl in *; [by apply Hb|].
  specialize (Hh w1). unfold events in Hh.
  destruct (handler w1) as [[r w2] e2]; simpl in *.
  intros [?|?]%elem_of_app; eauto.
Qed.

Lemma nowrites_for_each {A S} (l : list A) (body : S -> A -> Async S) (acc : S) :
  (forall s x, NoWrites (body s x)) -> NoWrites (for_each l body acc).
Proof.
  intros Hb. revert acc. induction l as [|x l IH]; intros acc; simpl.
  - apply nowrites_ret.
  - apply nowrites_bind; [apply Hb | intros; apply IH].
Qed.

(** *** Computations that never throw *)

Lemma never_ret {A} (a : A) : NeverThrows (ret a).
Proof. by intros w. Qed.
Lemma never_get {A} (f : World -> A) : NeverThrows (get f).
Proof. by intros w. Qed.
Lemma never_modify f : NeverThrows (modify f).
Proof. by intros w. Qed.
Lemma never_random : NeverThrows Math_random_token.
Proof. intros w. unfold Math_random_token. by destruct (w_random w). Qed.

Lemma never_bind {A B} (m : Async A) (k : A -> Async B) :
  NeverThrows m -> (forall a, NeverThrows (k a)) -> NeverThrows (bind m k).
Proof.
  intros Hm Hk w. specialize (Hm w). unfold bind, outcome in *.
  destruct (m w) as [[[a|] w1] e1]; simpl in *; [|done].
  specialize (Hk a w1). unfold outcome in Hk. by destruct (k a w1) as [[r w2] e2].
Qed.

Lemma never_try {A} (body handler : Async A) :
  NeverThrows handler -> NeverThrows (try_catch body handler).
Proof.
  intros Hh w. unfold try_catch, outcome.
  destruct (body w) as [[[a|] w1] e1]; simpl; [done|].
  specialize (Hh w1). unfold outcome in Hh. by destruct (handler w1) as [[r w2] e2].
Qed.

Lemma never_for_each {A S} (l : list A) (body : S -> A -> Async S) (acc : S) :
  (forall s x, NeverThrows (body s x)) -> NeverThrows (for_each l body acc).
Proof.
  intros Hb. revert acc. induction l as [|x l IH]; intros acc; simpl.
  - apply never_ret.
  - apply never_bind; [apply Hb | intros; apply IH].
Qed.

(** *** Computations in which a failed persistence write is never lost *)

Lemma strict_nowrites {A} (m : Async A) : NoWrites m -> Strict m.
Proof. intros Hm w (ev & Hin & Hw & _). specialize (Hm w ev Hin). congruence. Qed.

Lemma strict_outside {A} (c : Call) (effect : World -> A * World) : Strict (outside c effect).
Proof.
  intros w (ev & Hin & _ & Hfailed).
  destruct (outside_cases c effect w) as [[Ho He]|[_ He]]; [done|].
  rewrite He in Hin. apply list_elem_of_singleton in Hin. by subst ev.
Qed.

Lemma strict_bind {A B} (m : Async A) (k : A -> Async B) :
  Strict m -> (forall a, Strict (k a)) -> Strict (bind m k).
Proof.
  intros Hm Hk w (ev & Hin & Hev). specialize (Hm w). unfold bind, outcome, events in *.
  destruct (m w) as [[[a|] w1] e1]; simpl in *; [|done].
  specialize (Hk a w1). unfold outcome, events in Hk.
  destruct (k a w1) as [[r w2] e2]; simpl in *.
  apply elem_of_app in Hin as [Hin|Hin]; [|by eauto].
  discriminate Hm. eauto.
Qed.

Lemma strict_for_each {A S} (l : list A) (body : S -> A -> Async S) (acc : S) :
  (forall s x, Strict (body s x)) -> Strict (for_each l body acc).
Proof.
  intros Hb. revert acc. induction l as [|x l IH]; intros acc; simpl.
  - apply strict_nowrites, nowrites_ret.
  - apply strict_bind; [apply Hb | intros; apply IH].
Qed.

(** A handler that throws again keeps the body strict. *)
Lemma strict_try_rethrow {A} (body handler : Async A) :
  Strict body -> AlwaysThrows handler -> Strict (try_catch body handler).
Proof.
  intros Hb Hh w (ev & Hin & Hev). specialize (Hb w). unfold try_catch, outcome, events in *.
  destruct (body w) as [[[a|] w1] e1]; simpl in *; [by eauto|].
  specialize (Hh w1). unfold outcome in Hh. by destruct (handler w1) as [[r w2] e2].
Qed.

Lemma strict_promise_all {A B} (queued : Async A) (direct : Async B) :
  Strict queued -> NoWrites direct -> Strict (Promise_all queued direct).
Proof.
  intros Hq Hd w (ev & Hin & Hev). specialize (Hd w). unfold Promise_all, outcome, events in *.
  destruct (direct w) as [[rb w1] e1]; simpl in *.
  specialize (Hq w1). unfold outcome, events in Hq.
  destruct (queued w1) as [[ra w2] e2]; simpl in *.
  apply elem_of_app in Hin as [Hin|Hin].
  - destruct Hev as [Hw _]. specialize (Hd ev Hin). congruence.
  - rewrite Hq by eauto. done.
Qed.

Lemma always_throws_then {A B} (m : Async A) : NeverThrows m -> AlwaysThrows (bind m (fun _ => @throw B)).
Proof.
  intros Hm w. specialize (Hm w). unfold bind, outcome in *.
  by destruct (m w) as [[[a|] w1] e1].
Qed.

(** *** What a computation can return *)

Lemma returns_ret {A} (P : A -> Prop) (a : A) : P a -> Returns P (ret a).
Proof. intros H w a' E. unfold outcome, ret in E; simpl in E. congruence. Qed.

Lemma returns_bind {A B} (P : B -> Prop) (m : Async A) (k : A -> Async B) :
  (forall a, Returns P (k a)) -> Returns P (bind m k).
Proof.
  intros Hk w b. unfold bind, outcome.
  destruct (m w) as [[[a|] w1] e1]; simpl; [|done].
  specialize (Hk a w1 b). unfold outcome in Hk. by destruct (k a w1) as [[r w2] e2].
Qed.

(** The tactic that takes a computation apart along its control operators. *)
Ltac take_apart_step :=
  lazymatch goal with
  | |- _ (match ?x with _ => _ end) => destruct x
  | |- _ (AsyncStorage.setItem _ _) => unfold AsyncStorage.setItem
  | |- _ (AsyncStorage.removeItem _) => unfold AsyncStorage.removeItem
  | |- _ (AsyncStorage.multiRemove _) => unfold AsyncStorage.multiRemove
  | |- _ AsyncStorage.getAllKeys => unfold AsyncStorage.getAllKeys
  | |- _ (FileSystem.getInfoAsync_exists _) => unfold FileSystem.getInfoAsync_exists
  | |- _ (FileSystem.makeDirectoryAsync _) => unfold FileSystem.makeDirectoryAsync
  | |- _ (FileSystem.writeAsStringAsync _ _) => unfold FileSystem.writeAsStringAsync
  | |- _ (FileSystem.deleteAsync _) => unfold FileSystem.deleteAsync
  | |- _ Date_now => unfold Date_now
  | |- NoWrites (ret _) => apply nowrites_ret
  | |- NoWrites throw => apply nowrites_throw
  | |- NoWrites (get _) => apply nowrites_get
  | |- NoWrites (modify _) => apply nowrites_modify
  | |- NoWrites Math_random_token => apply nowrites_random
  | |- NoWrites (for_each _ _ _) => apply nowrites_for_each; intros
  | |- NoWrites (bind _ _) => apply nowrites_bind; [|intros]
  | |- NoWrites (try_catch _ _) => apply nowrites_try
  | |- NoWrites (outside _ _) => apply nowrites_outside; reflexivity
  | |- NeverThrows (ret _) => apply never_ret
  | |- NeverThrows (get _) => apply never_get
  | |- NeverThrows (modify _) => apply never_modify
  | |- NeverThrows Math_random_token => apply never_random
  | |- NeverThrows (for_each _ _ _) => apply never_for_each; intros
  | |- NeverThrows (bind _ _) => apply never_bind; [|intros]
  | |- NeverThrows (try_catch _ (ret _)) => apply never_try, never_ret
  | |- Strict (outside _ _) => apply strict_outside
  | |- Strict (for_each _ _ _) => apply strict_for_each; intros
  | |- Strict (bind _ _) => apply strict_bind; [|intros]
  | |- Strict (ret _) => apply strict_nowrites, nowrites_ret
  | |- Strict (get _) => apply strict_nowrites, nowrites_get
  | |- Strict (modify _) => apply strict_nowrites, nowrites_modify
  | |- Strict Math_random_token => apply strict_nowrites, nowrites_random
  | |- Returns _ (bind _ _) => apply returns_bind; intros
  | |- Returns _ (ret _) => apply returns_ret; reflexivity
  end.

Ltac take_apart := repeat take_apart_step.

Section WithRuntime.
Context {rt : Runtime}.

(** *** The image helpers: no persistence write, no throw *)

Lemma nowrites_persist_image dir acc entry : NoWrites (persist_image dir acc entry).
Proof. destruct entry. unfold persist_image, Date_now, FileSystem.writeAsStringAsync. take_apart. Qed.

Lemma never_persist_image dir acc entry : NeverThrows (persist_image dir acc entry).
Proof. destruct entry. unfold persist_image. apply never_try, never_ret. Qed.

Lemma nowrites_persistImagesIfNeeded images : NoWrites (persistImagesIfNeeded images).
Proof.
  unfold persistImagesIfNeeded, FileSystem.getInfoAsync_exists, FileSystem.makeDirectoryAsync.
  take_apart; apply nowrites_persist_image.
Qed.

Lemma never_persistImagesIfNeeded images : NeverThrows (persistImagesIfNeeded images).
Proof.
  unfold persistImagesIfNeeded.
  destruct images as [[|img imgs]|]; try apply never_ret.
  destruct OS_web; [apply never_ret|].
  apply never_bind; [apply never_try, never_ret|intros _].
  apply never_bind; [|intros; apply never_ret].
  apply never_for_each. intros. apply never_persist_image.
Qed.

Lemma nowrites_removeImages uris : NoWrites (removeImages uris).
Proof.
  unfold removeImages, remove_image, FileSystem.getInfoAsync_exists, FileSystem.deleteAsync.
  take_apart.
Qed.

Lemma never_removeImages uris : NeverThrows (removeImages uris).
Proof.
  unfold removeImages.
  destruct uris as [[|u us]|]; try apply never_ret.
  destruct OS_web; [apply never_ret|].
  apply never_for_each. intros [] uri. unfold remove_image.
  destruct (startsWith uri (js "file://")); [apply never_try|]; apply never_ret.
Qed.

Lemma nowrites_sanitizeNotesImages notes : NoWrites (sanitizeNotesImages notes).
Proof.
  unfold sanitizeNotesImages. take_apart; apply nowrites_persistImagesIfNeeded.
Qed.

Lemma never_sanitizeNotesImages notes : NeverThrows (sanitizeNotesImages notes).
Proof.
  unfold sanitizeNotesImages. take_apart; apply never_persistImagesIfNeeded.
Qed.

(** *** The two save routines *)

Lemma collectionKey_chunkKey i : collectionKey (chunkKey i) = true.
Proof. unfold collectionKey. rewrite NotesProperties.chunkKey_prefix. apply orb_true_r. Qed.

Lemma strict_saveProjects ps : Strict (saveProjects ps).
Proof.
  unfold saveProjects, enqueue, saveProjects_task.
  apply strict_try_rethrow; [|by intros w].
  unfold setProjects. take_apart.
Qed.

Lemma nowrites_cleanupOldChunks : NoWrites cleanupOldChunks.
Proof.
  unfold cleanupOldChunks, AsyncStorage.getAllKeys, AsyncStorage.multiRemove,
    AsyncStorage.removeItem.
  take_apart.
Qed.

Lemma never_cleanupOldChunks : NeverThrows cleanupOldChunks.
Proof. apply never_try, never_ret. Qed.

Lemma strict_saveNotes ns : Strict (saveNotes ns).
Proof.
  unfold saveNotes, enqueue, saveNotes_task.
  apply strict_try_rethrow.
  - apply strict_bind; [apply strict_nowrites, nowrites_sanitizeNotesImages|intros sanitized].
    unfold saveNotesWithUTF8Chunks, AsyncStorage.setItem, AsyncStorage.removeItem, Date_now.
    apply strict_bind; [apply strict_outside|intros _].
    apply strict_bind.
    { destruct (_ >? _); take_apart. }
    intros _. apply strict_bind; [apply strict_outside|intros _].
    apply strict_bind; [apply strict_nowrites, nowrites_cleanupOldChunks|intros _].
    apply strict_nowrites, nowrites_modify.
  - apply always_throws_then, never_try, never_ret.
Qed.

(** *** The favourites setters swallow what goes wrong and write no
    collection key *)

Lemma nowrites_setFavorite (key : string) (favorites : list jsstring) (setState : Async unit) :
  collectionKey key = false -> NoWrites setState ->
  NoWrites (safeStorageOperation (AsyncStorage.setItem key (JSON_stringify_ids favorites)) tt ;;; setState).
Proof.
  intros Hkey Hstate. unfold safeStorageOperation, AsyncStorage.setItem.
  apply nowrites_bind; [|done]. apply nowrites_try; [|apply nowrites_ret].
  by apply nowrites_outside.
Qed.

Lemma never_setFavorite (key : string) (favorites : list jsstring) (setState : Async unit) :
  NeverThrows setState ->
  NeverThrows (safeStorageOperation (AsyncStorage.setItem key (JSON_stringify_ids favorites)) tt ;;; setState).
Proof.
  intros Hstate. apply never_bind; [|done]. apply never_try, never_ret.
Qed.

Lemma nowrites_setFavoriteProjects f : NoWrites (setFavoriteProjects f).
Proof. by apply nowrites_setFavorite; [|apply nowrites_modify]. Qed.
Lemma nowrites_setFavoriteBuildings f : NoWrites (setFavoriteBuildings f).
Proof. by apply nowrites_setFavorite; [|apply nowrites_modify]. Qed.
Lemma nowrites_setFavoriteZones f : NoWrites (setFavoriteZones f).
Proof. by apply nowrites_setFavorite; [|apply nowrites_modify]. Qed.
Lemma nowrites_setFavoriteShutters f : NoWrites (setFavoriteShutters f).
Proof. by apply nowrites_setFavorite; [|apply nowrites_modify]. Qed.
Lemma nowrites_setFavoriteNotes f : NoWrites (setFavoriteNotes f).
Proof. by apply nowrites_setFavorite; [|apply nowrites_modify]. Qed.

Lemma never_setFavoriteBuildings f : NeverThrows (setFavoriteBuildings f).
Proof. apply never_setFavorite, never_modify. Qed.
Lemma never_setFavoriteZones f : NeverThrows (setFavoriteZones f).
Proof. apply never_setFavorite, never_modify. Qed.
Lemma never_setFavoriteShutters f : NeverThrows (setFavoriteShutters f).
Proof. apply never_setFavorite, never_modify. Qed.
Lemma never_setFavoriteNotes f : NeverThrows (setFavoriteNotes f).
Proof. apply never_setFavorite, never_modify. Qed.

(** *** Batch deletions *)

Lemma blames_never {A} (deciding : Call -> bool) (m : Async A) :
  NeverThrows m -> Blames deciding m.
Proof. intros Hm w H. by destruct (Hm w). Qed.

Lemma blames_outside {A} (deciding : Call -> bool) (c : Call) (effect : World -> A * World) :
  deciding c = true -> Blames deciding (outside c effect).
Proof.
  intros Hc w Hthrown.
  destruct (outside_cases c effect w) as [[_ He]|[[a Ha] _]]; [|congruence].
  exists (mkEvent c true). rewrite He. split; [by apply list_elem_of_singleton|done].
Qed.

Lemma blames_bind {A B} (deciding : Call -> bool) (m : Async A) (k : A -> Async B) :
  Blames deciding m -> (forall a, Blames deciding (k a)) -> Blames deciding (bind m k).
Proof.
  intros Hm Hk w. specialize (Hm w). unfold bind, outcome, events in *.
  destruct (m w) as [[[a|] w1] e1]; simpl in *; [|by intros _; apply Hm].
  specialize (Hk a w1). unfold outcome, events in Hk.
  destruct (k a w1) as [[r w2] e2]; simpl in *.
  intros H. destruct (Hk H) as (ev & Hin & Hev). exists ev. split; [|done].
  apply elem_of_app. by right.
Qed.

Lemma blames_try {A} (deciding : Call -> bool) (body handler : Async A) :
  Blames deciding body -> Blames deciding (try_catch body handler).
Proof.
  intros Hb w. specialize (Hb w). unfold try_catch, outcome, events in *.
  destruct (body w) as [[[a|] w1] e1]; simpl in *; [done|].
  destruct (handler w1) as [[r w2] e2]; simpl. intros _.
  destruct (Hb eq_refl) as (ev & Hin & Hev). exists ev. split; [|done].
  apply elem_of_app. by left.
Qed.

Lemma blames_for_each {A S} (deciding : Call -> bool) (l : list A) (body : S -> A -> Async S)
    (acc : S) :
  (forall s x, Blames deciding (body s x)) -> Blames deciding (for_each l body acc).
Proof.
  intros Hb. revert acc. induction l as [|x l IH]; intros acc; simpl.
  - apply blames_never, never_ret.
  - apply blames_bind; [apply Hb | intros; apply IH].
Qed.

(** [saveProjects] rejects only when its write has failed. *)
Lemma blames_saveProjects ps : Blames persistenceWrite (saveProjects ps).
Proof.
  unfold saveProjects, enqueue, saveProjects_task, AsyncStorage.setItem, setProjects.
  apply blames_try, blames_bind; [by apply blames_outside|intros _].
  apply blames_never, never_modify.
Qed.

(** [saveNotes] rejects only when a write of the collection, or the removal
    of the primary or of the staging key, has failed. *)
Lemma blames_saveNotes ns : Blames notesSaveCall (saveNotes ns).
Proof.
  unfold saveNotes, enqueue, saveNotes_task.
  apply blames_try.
  apply blames_bind; [apply blames_never, never_sanitizeNotesImages|intros sanitized].
  unfold saveNotesWithUTF8Chunks, AsyncStorage.setItem, AsyncStorage.removeItem, Date_now.
  apply blames_bind; [by apply blames_outside|intros _].
  apply blames_bind.
  { destruct (_ >? _); [|by apply blames_outside].
    apply blames_bind; [apply blames_never, never_get|intros now].
    apply blames_bind; [by apply blames_outside|intros _].
    apply blames_bind; [|intros _; by apply blames_outside].
    apply blames_for_each. intros [] [i chunk].
    apply blames_outside. apply collectionKey_chunkKey. }
  intros _. apply blames_bind; [by apply blames_outside|intros _].
  apply blames_bind; [apply blames_never, never_cleanupOldChunks|intros _].
  apply blames_never, never_modify.
Qed.

(** A deletion in the tree: the favourites, then the tree, then [true]. *)
Lemma blames_tree_deletion (setFavorites : Async unit) (ps : list Project) :
  NeverThrows setFavorites ->
  Blames persistenceWrite (setFavorites ;;; saveProjects ps ;;; ret true).
Proof.
  intros Hfav. apply blames_bind; [by apply blames_never|intros _].
  apply blames_bind; [apply blames_saveProjects|intros _]. apply blames_never, never_ret.
Qed.

(** A body that ends in [return true], inside [try { ... } catch { return
    false }]. *)
Lemma try_returns_true (deciding : Call -> bool) (body : Async bool) w :
  Blames deciding body -> Returns (eq true) body ->
  (forall ev, ev ∈ events (try_catch body (ret false) w) ->
     deciding (ev_call ev) = true -> ev_failed ev = false) ->
  outcome (try_catch body (ret false) w) = Returned true.
Proof.
  intros Hf Hr Hev. specialize (Hf w). specialize (Hr w).
  unfold try_catch, outcome, events in *.
  destruct (body w) as [[[a|] w1] e1]; simpl in *.
  - by rewrite <- (Hr a).
  - destruct (Hf eq_refl) as (ev & Hin & Htouch & Hfailed).
    rewrite Hev in Hfailed; [done| |done].
    apply elem_of_app. by left.
Qed.

(** C10, as amended.  A batch deletion returns [true] as soon as none of
    the calls it depends on fails: for the deletions of buildings, zones and
    shutters that is the write of the projects; for the deletion of notes it
    is every write of the notes collection and the removals of the primary
    key and of the staging key.  The ids play no part in it, so this is also
    what it returns when none of them names an entity. *)
Theorem batch_delete_returns_true (kind : BatchDelete) (rendered : AppState)
    (ids : list jsstring) (w : World) :
  (forall ev, ev ∈ events (batchDelete kind rendered ids w) ->
     decidingCall kind (ev_call ev) = true -> ev_failed ev = false) ->
  outcome (batchDelete kind rendered ids w) = Returned true.
Proof.
  destruct kind; simpl; unfold deleteBuildings, deleteZones, deleteShuttersBatch, deleteNotes;
    apply try_returns_true; cbv zeta.
  - apply blames_tree_deletion, never_setFavoriteBuildings.
  - take_apart.
  - apply blames_tree_deletion, never_setFavoriteZones.
  - take_apart.
  - apply blames_tree_deletion, never_setFavoriteShutters.
  - take_apart.
  - apply blames_bind.
    { apply blames_never. destruct (0 <? _)%nat; [apply never_try|]; apply never_ret. }
    intros _.
    apply blames_bind; [apply blames_never, never_setFavoriteNotes|intros _].
    apply blames_bind; [apply blames_saveNotes|intros _]. apply blames_never, never_ret.
  - take_apart.
Qed.

(** *** Every operation *)

Lemma strict_told {A} (f : A -> Answer) (m : Async A) : Strict m -> Strict (told f m).
Proof. intros Hm. apply strict_bind; [done|]. intros a. apply strict_nowrites, nowrites_ret. Qed.

Lemma told_flag_try (body : Async bool) w :
  Strict body ->
  (exists ev, ev ∈ events (told Flag (try_catch body (ret false)) w) /\ failedWrite ev) ->
  outcome (told Flag (try_catch body (ret false)) w) = Returned (Flag false).
Proof.
  intros Hb (ev & Hin & Hev). specialize (Hb w).
  unfold told, bind, try_catch, ret, outcome, events in *.
  destruct (body w) as [[[a|] w1] e1]; simpl in *; [|done].
  rewrite !app_nil_r in Hin. discriminate Hb. eauto.
Qed.

Ltac strict_step :=
  lazymatch goal with
  | |- Strict (saveProjects _) => apply strict_saveProjects
  | |- Strict (saveNotes _) => apply strict_saveNotes
  | |- Strict (Promise_all (saveProjects _) _) =>
      apply strict_promise_all; [apply strict_saveProjects|]
  | |- Strict (try_catch _ throw) => apply strict_try_rethrow; [|by intros ?]
  | |- Strict generateUniqueId => unfold generateUniqueId
  | |- NoWrites (setFavoriteProjects _) => apply nowrites_setFavoriteProjects
  | |- NoWrites (setFavoriteBuildings _) => apply nowrites_setFavoriteBuildings
  | |- NoWrites (setFavoriteZones _) => apply nowrites_setFavoriteZones
  | |- NoWrites (setFavoriteShutters _) => apply nowrites_setFavoriteShutters
  | |- NoWrites (setFavoriteNotes _) => apply nowrites_setFavoriteNotes
  | |- NoWrites (persistImagesIfNeeded _) => apply nowrites_persistImagesIfNeeded
  | |- NoWrites (removeImages _) => apply nowrites_removeImages
  | |- Strict (setFavoriteProjects _) => apply strict_nowrites
  | |- Strict (setFavoriteBuildings _) => apply strict_nowrites
  | |- Strict (setFavoriteZones _) => apply strict_nowrites
  | |- Strict (setFavoriteShutters _) => apply strict_nowrites
  | |- Strict (setFavoriteNotes _) => apply strict_nowrites
  | |- Strict (removeImages _) => apply strict_nowrites
  | |- Strict (persistImagesIfNeeded _) => apply strict_nowrites
  | |- _ => take_apart_step
  end.

Ltac strict := cbv zeta; repeat strict_step.

Lemma strict_createProject d : Strict (createProject d).
Proof. unfold createProject, generateUniqueId, Date_now. strict. Qed.
Lemma strict_updateProject id u : Strict (updateProject id u).
Proof. unfold updateProject, Date_now. strict. Qed.
Lemma strict_deleteProject rendered id : Strict (deleteProject rendered id).
Proof. unfold deleteProject. strict. Qed.
Lemma strict_createBuilding pid d : Strict (createBuilding pid d).
Proof. unfold createBuilding, generateUniqueId, Date_now. strict. Qed.
Lemma strict_updateBuilding id u : Strict (updateBuilding id u).
Proof. unfold updateBuilding, Date_now. strict. Qed.
Lemma strict_deleteBuilding rendered id : Strict (deleteBuilding rendered id).
Proof. unfold deleteBuilding, Date_now. strict. Qed.
Lemma strict_updateFunctionalZone id u : Strict (updateFunctionalZone id u).
Proof. unfold updateFunctionalZone, Date_now. strict. Qed.
Lemma strict_deleteFunctionalZone rendered id : Strict (deleteFunctionalZone rendered id).
Proof. unfold deleteFunctionalZone, Date_now. strict. Qed.
Lemma strict_createShutter zid d : Strict (createShutter zid d).
Proof. unfold createShutter, generateUniqueId, Date_now. strict. Qed.
Lemma strict_updateShutter id u : Strict (updateShutter id u).
Proof. unfold updateShutter, Date_now. strict. Qed.
Lemma strict_deleteShutter rendered id : Strict (deleteShutter rendered id).
Proof. unfold deleteShutter, Date_now. strict. Qed.

Lemma strict_createNote rendered d : Strict (createNote rendered d).
Proof.
  unfold createNote, generateUniqueId, Date_now.
  apply strict_bind.
  { apply strict_nowrites, nowrites_try; [apply nowrites_persistImagesIfNeeded|apply nowrites_ret]. }
  intros images. strict.
Qed.

Lemma strict_updateNote rendered id u : Strict (updateNote rendered id u).
Proof.
  unfold updateNote, Date_now. cbv zeta.
  destruct (findIndex _ _) as [[noteIndex currentNote]|]; [|strict].
  destruct (nu_images u) as [images|]; [|strict].
  apply strict_bind.
  { apply strict_nowrites, nowrites_try; [|apply nowrites_ret].
    apply nowrites_bind; [apply nowrites_persistImagesIfNeeded|intros; apply nowrites_ret]. }
  intros [finalImages|]; [|strict].
  apply strict_bind; [|intros _; strict].
  apply strict_nowrites.
  destruct (n_images currentNote); [|apply nowrites_ret].
  apply nowrites_try; [|apply nowrites_ret].
  destruct (0 <? _)%nat; [apply nowrites_removeImages|apply nowrites_ret].
Qed.

Lemma strict_deleteBuildings_body rendered ids :
  Strict (setFavoriteBuildings
            (List.filter (fun fId => negb (includes_id ids fId)) (favoriteBuildings rendered)) ;;;
          saveProjects
            (map (fun project =>
                    with_buildings
                      (List.filter (fun b => negb (includes_id ids (b_id b))) (p_buildings project))
                      project)
               (projects rendered)) ;;;
          ret true).
Proof. strict. Qed.

(** C9.  When a write of a collection key fails during a create, update or
    delete operation, the caller learns it: the promise rejects, or, for the
    operations that catch their own failures, it resolves to [false]. *)
Theorem failed_write_is_surfaced (rendered : AppState) (op : Operation) (w : World) :
  (exists ev, ev ∈ events (perform rendered op w) /\ failedWrite ev) ->
  outcome (perform rendered op w) = Thrown \/
  outcome (perform rendered op w) = Returned (Flag false).
Proof.
  intros Hev.
  destruct op; simpl in *;
    try (left; revert Hev; apply strict_told;
         first [ apply strict_createProject | apply strict_updateProject
               | apply strict_deleteProject | apply strict_createBuilding
               | apply strict_updateBuilding | apply strict_deleteBuilding
               | apply strict_updateFunctionalZone | apply strict_deleteFunctionalZone
               | apply strict_createShutter | apply strict_updateShutter
               | apply strict_deleteShutter | apply strict_createNote
               | apply strict_updateNote ]);
    right; revert Hev; apply told_flag_try.
  - apply strict_deleteBuildings_body.
  - strict.
  - strict.
  - destruct (findIndex _ _) as [[i noteToDelete]|]; [|strict].
    apply strict_bind; [|intros _; strict].
    apply strict_nowrites. destruct (n_images noteToDelete);
      [apply nowrites_removeImages|apply nowrites_ret].
  - apply strict_bind; [|intros _; strict].
    apply strict_nowrites. destruct (0 <? _)%nat; [|apply nowrites_ret].
    apply nowrites_try; [apply nowrites_removeImages|apply nowrites_ret].
Qed.

End WithRuntime.
End FailureProperties.

(** ** The quick-calc history *)

Module HistoryProperties.
Import JsString Data Platform StorageContext STORAGE_KEYS Vocabulary AsyncFacts.

Section WithRuntime.
Context {rt : Runtime}.

(** C7.  In the provider that is in use, [addQuickCalcHistory] puts the new
    item in front of the history it was rendered with and keeps everything:
    the list it hands to the store and the list it sets as state are one
    longer than before, whatever their length. *)
Theorem addQuickCalcHistory_keeps_every_item (rendered : AppState) (item : HistoryData)
    (w : World) :
  let run := addQuickCalcHistory rendered item w in
  exists newItem failed,
    quickCalcHistory (w_state (world_after run)) = newItem :: quickCalcHistory rendered /\
    events run
    = [mkEvent (SetItem QUICK_CALC_HISTORY
                  (JSON_stringify_history (newItem :: quickCalcHistory rendered))) failed] /\
    length (quickCalcHistory (w_state (world_after run)))
    = S (length (quickCalcHistory rendered)).
Proof.
  unfold addQuickCalcHistory, generateUniqueId, safeStorageOperation, setQuickCalcHistoryState,
    AsyncStorage.setItem, Math_random_token, Date_now, outside,
    bind, try_catch, ret, get, modify, world_after, events.
  destruct (w_random w) as [|r rs]; cbn [w_faults with_random];
    destruct (w_faults w) as [|[|] fs]; cbn -[js decimal].
  all: do 2 eexists; split; [reflexivity|]; split; reflexivity.
Qed.

(** The provider with module variables does cap the list, at five. *)
Theorem module_state_history_capped (item : HistoryData) (w : World) :
  (length (quickCalcHistory
             (w_state (world_after (ModuleStateProvider.addQuickCalcHistory item w)))) <= 5)%nat.
Proof.
  unfold ModuleStateProvider.addQuickCalcHistory, ModuleStateProvider.saveQuickCalcHistory,
    generateUniqueId, AsyncStorage.setItem, Math_random_token, Date_now, outside,
    bind, try_catch, ret, get, modify, throw, world_after.
  destruct (w_random w) as [|r rs]; cbn [w_faults with_random with_state];
    destruct (w_faults w) as [|[|] fs]; cbn -[js decimal take];
    rewrite length_take; lia.
Qed.

End WithRuntime.

End HistoryProperties.

(** ** The write queue *)

Module QueueProperties.
Import JsString Data Platform StorageContext STORAGE_KEYS EventLoop Vocabulary AsyncFacts.

Section WithRuntime.
Context {rt : Runtime}.

Lemma saveProjects_task_ok (newProjects : list Project) w :
  w_faults w = [] ->
  world_after (saveProjects_task newProjects w)
  = with_state (with_projects newProjects)
      (with_store (insert PROJECTS (JSON_stringify_projects newProjects)) w).
Proof.
  intros Hf. unfold saveProjects_task, setProjects, AsyncStorage.setItem,
    bind, try_catch, modify, world_after.
  by rewrite outside_ok.
Qed.

(** C4.  [updateShutter] reads [projectsRef.current] and builds its snapshot
    before the write is queued, and the ref is refreshed only by a render
    that follows a completed write.  So two calls made without waiting build
    their snapshots from the same tree; the queue writes them in order, and
    what stays in the store and in the state is the snapshot of the second
    call, made from the tree as it was before the first. *)
Theorem later_update_overwrites_earlier (renderBetween : bool) (w : World)
    (first second : jsstring) (firstUpdates secondUpdates : Shutter -> Shutter)
    (firstSnapshot secondSnapshot : list Project) (firstShutter secondShutter : Shutter) :
  w_faults w = [] ->
  updateShutter_snapshot (w_projectsRef w) (w_now w) first firstUpdates
  = Some (firstSnapshot, firstShutter) ->
  updateShutter_snapshot (w_projectsRef w) (w_now w) second secondUpdates
  = Some (secondSnapshot, secondShutter) ->
  let final := two_updates renderBetween first firstUpdates second secondUpdates w in
  lp_queue final = [] /\
  w_store (lp_world final) !! PROJECTS = Some (JSON_stringify_projects secondSnapshot) /\
  projects (w_state (lp_world final)) = secondSnapshot /\
  w_projectsRef (lp_world final) = secondSnapshot.
Proof.
  intros Hf Hfirst Hsecond final. subst final.
  unfold two_updates, call_updateShutter. cbn [lp_world]. rewrite Hfirst.
  unfold enqueue_task. cbn [lp_world lp_queue app]. rewrite Hsecond.
  assert (run_task (mkLoop w [saveProjects_task firstSnapshot; saveProjects_task secondSnapshot])
          = mkLoop (with_state (with_projects firstSnapshot)
                      (with_store (insert PROJECTS (JSON_stringify_projects firstSnapshot)) w))
                   [saveProjects_task secondSnapshot]) as ->.
  { unfold run_task. cbn [lp_world lp_queue]. by rewrite saveProjects_task_ok. }
  assert (forall l : Loop,
            lp_queue l = [saveProjects_task secondSnapshot] ->
            w_faults (lp_world l) = [] ->
            let final := render (run_task l) in
            lp_queue final = [] /\
            w_store (lp_world final) !! PROJECTS = Some (JSON_stringify_projects secondSnapshot) /\
            projects (w_state (lp_world final)) = secondSnapshot /\
            w_projectsRef (lp_world final) = secondSnapshot) as Hlast.
  { intros [lw lq] Hq Hlf. simpl in *. subst lq. unfold run_task, render. simpl.
    rewrite saveProjects_task_ok by done. simpl.
    split; [done|]. split; [apply lookup_insert_eq|done]. }
  destruct renderBetween; apply Hlast; done.
Qed.

End WithRuntime.
End QueueProperties.

(** ** The statements on the plant of the concrete runtime *)

Module PlantExamples.
Import JsString Data Platform StorageContext STORAGE_KEYS EventLoop Vocabulary.
Import FailureProperties QueueProperties HistoryProperties DemoRuntime.

Lemma some_failed_write (l : list Event) :
  existsb (fun ev => persistenceWrite (ev_call ev) && ev_failed ev) l = true ->
  exists ev, ev ∈ l /\ failedWrite ev.
Proof.
  intros H. apply existsb_exists in H as (ev & Hin & H).
  apply andb_true_iff in H. exists ev. by rewrite list_elem_of_In.
Qed.

Lemma no_failed_deciding_call (kind : BatchDelete) (l : list Event) :
  forallb (fun ev => negb (decidingCall kind (ev_call ev) && ev_failed ev)) l = true ->
  forall ev, ev ∈ l -> decidingCall kind (ev_call ev) = true -> ev_failed ev = false.
Proof.
  intros H ev Hin Htouch. rewrite forallb_forall in H.
  apply list_elem_of_In in Hin. apply H in Hin. rewrite Htouch in Hin.
  destruct (ev_failed ev); [discriminate Hin|reflexivity].
Qed.

Lemma no_failed_write (l : list Event) :
  forallb (fun ev => negb (persistenceWrite (ev_call ev) && ev_failed ev)) l = true ->
  forall ev, ev ∈ l -> persistenceWrite (ev_call ev) = true -> ev_failed ev = false.
Proof.
  intros H ev Hin Htouch. rewrite forallb_forall in H.
  apply list_elem_of_In in Hin. apply H in Hin. rewrite Htouch in Hin.
  destruct (ev_failed ev); [discriminate Hin|reflexivity].
Qed.

(** No shutter is called [sX] and no note [nX]; the batch deletions still
    answer [true]. *)
Lemma batch_delete_returns_true_example :
  ((js "sX" ∉ map s_id (shuttersOf [project1])) /\
   outcome (batchDelete OfShutters plantState [js "sX"] plantWorld) = Returned true) /\
  ((js "nX" ∉ map n_id (notes plantState)) /\
   outcome (batchDelete OfNotes plantState [js "nX"] plantWorld) = Returned true).
Proof.
  split; (split; [vm_compute; intros H; repeat (apply elem_of_cons in H as [H|H]; [discriminate H|]);
                  by apply elem_of_nil in H|]).
  - apply (batch_delete_returns_true OfShutters plantState [js "sX"] plantWorld).
    apply no_failed_deciding_call. vm_compute. reflexivity.
  - apply (batch_delete_returns_true OfNotes plantState [js "nX"] plantWorld).
    apply no_failed_deciding_call. vm_compute. reflexivity.
Defined.

(** For the notes it is not enough that the writes succeed.  The fourth
    call of this deletion, the removal of the staging key, fails: no write
    has failed, the primary key holds the new document, and yet the deletion
    answers [false]. *)
Lemma batch_delete_false_after_successful_write :
  let run := batchDelete OfNotes plantState [js "nX"]
               (with_faults [false; false; false; true] plantWorld) in
  (forall ev, ev ∈ events run -> persistenceWrite (ev_call ev) = true -> ev_failed ev = false) /\
  mkEvent (SetItem NOTES (JSON_stringify_notes (notes plantState))) false ∈ events run /\
  mkEvent (RemoveItem NOTES_TMP) true ∈ events run /\
  w_store (world_after run) !! NOTES = Some (JSON_stringify_notes (notes plantState)) /\
  outcome run = Returned false.
Proof.
  cbv zeta. split; [apply no_failed_write; vm_compute; reflexivity|].
  split; [vm_compute; do 2 right; left|].
  split; [vm_compute; do 3 right; left|].
  split; vm_compute; reflexivity.
Qed.

(** The write of the staging key fails while the note [n1] is deleted: the
    caller gets [false]. *)
Lemma failed_write_is_surfaced_example :
  (exists ev, ev ∈ events (perform plantState (DeleteNote (js "n1")) failingWorld)
              /\ failedWrite ev) /\
  (outcome (perform plantState (DeleteNote (js "n1")) failingWorld) = Thrown \/
   outcome (perform plantState (DeleteNote (js "n1")) failingWorld) = Returned (Flag false)).
Proof.
  assert (exists ev, ev ∈ events (perform plantState (DeleteNote (js "n1")) failingWorld)
                     /\ failedWrite ev) as H.
  { apply some_failed_write. vm_compute. reflexivity. }
  split; [exact H|].
  exact (failed_write_is_surfaced plantState (DeleteNote (js "n1")) failingWorld H).
Defined.

(** Renaming [sA] and then [sB] without waiting: the store ends with the
    old name of [sA]. *)
Lemma later_update_overwrites_earlier_example :
  let final := two_updates false (js "sA") (rename (js "A2")) (js "sB") (rename (js "B2"))
                 plantWorld in
  lp_queue final = [] /\
  w_store (lp_world final) !! PROJECTS
  = Some (JSON_stringify_projects
            [mkProject (js "p1") (js "Plant") (Some (js "Lyon")) 1 1700000000000
               [mkBuilding (js "b1") (js "p1") (js "Hall") 1
                  [mkZone (js "z1") (js "b1") (js "North wing") 1
                     [shutterA;
                      mkShutter (js "sB") (js "z1") (js "B2") None 1 1700000000000]]]]) /\
  projects (w_state (lp_world final))
  = [mkProject (js "p1") (js "Plant") (Some (js "Lyon")) 1 1700000000000
       [mkBuilding (js "b1") (js "p1") (js "Hall") 1
          [mkZone (js "z1") (js "b1") (js "North wing") 1
             [shutterA;
              mkShutter (js "sB") (js "z1") (js "B2") None 1 1700000000000]]]] /\
  w_projectsRef (lp_world final)
  = [mkProject (js "p1") (js "Plant") (Some (js "Lyon")) 1 1700000000000
       [mkBuilding (js "b1") (js "p1") (js "Hall") 1
          [mkZone (js "z1") (js "b1") (js "North wing") 1
             [shutterA;
              mkShutter (js "sB") (js "z1") (js "B2") None 1 1700000000000]]]].
Proof.
  apply (later_update_overwrites_earlier false plantWorld (js "sA") (js "sB")
           (rename (js "A2")) (rename (js "B2"))
           [mkProject (js "p1") (js "Plant") (Some (js "Lyon")) 1 1700000000000
              [mkBuilding (js "b1") (js "p1") (js "Hall") 1
                 [mkZone (js "z1") (js "b1") (js "North wing") 1
                    [mkShutter (js "sA") (js "z1") (js "A2") None 1 1700000000000;
                     shutterB]]]]
           _
           (mkShutter (js "sA") (js "z1") (js "A2") None 1 1700000000000)
           (mkShutter (js "sB") (js "z1") (js "B2") None 1 1700000000000)).
  - reflexivity.
  - vm_compute. reflexivity.
  - vm_compute. reflexivity.
Defined.

(** What the store holds at the end, as text. *)
Lemma two_renames_text :
  w_store (lp_world (two_updates false (js "sA") (rename (js "A2")) (js "sB") (rename (js "B2"))
                       plantWorld)) !! PROJECTS
  = Some (js "[p1[b1[z1[sA=A|sB=B2]]]]").
Proof. vm_compute. reflexivity. Qed.

(** When the second call is made after the first write and a render, both
    renames are in the store. *)
Lemma two_renames_in_turn :
  let afterFirst := render (run_task (call_updateShutter (js "sA") (rename (js "A2"))
                                        (mkLoop plantWorld []))) in
  let final := render (run_task (call_updateShutter (js "sB") (rename (js "B2")) afterFirst)) in
  w_store (lp_world final) !! PROJECTS = Some (js "[p1[b1[z1[sA=A2|sB=B2]]]]").
Proof. vm_compute. reflexivity. Qed.

(** A history of five items grows to six. *)
Lemma sixth_item_is_kept :
  length (quickCalcHistory fullHistoryState) = 5%nat /\
  length (quickCalcHistory
            (w_state (world_after (addQuickCalcHistory fullHistoryState measurement emptyWorld))))
  = 6%nat.
Proof. vm_compute. done. Qed.

(** The example of the specification: ["north hangar"] finds the shutter
    ["Hangar Nord"] of the zone ["North wing"]; ["north south"] does not. *)
Lemma search_example :
  let hangar := mkShutter (js "s1") (js "z1") (js "Hangar Nord") None 1 1 in
  let zone := mkZone (js "z1") (js "b1") (js "North wing") 1 [hangar] in
  let building := mkBuilding (js "b1") (js "p1") (js "Hall") 1 [zone] in
  let project := mkProject (js "p1") (js "Plant") None 1 1 [building] in
  searchShutters [project] (js "  north   HANGAR ") = [mkSearchResult hangar zone building project] /\
  searchShutters [project] (js "north south") = [].
Proof. vm_compute. done. Qed.

(** The city of the project and the remarks of the shutter are searched
    like the names. *)
Lemma search_by_city_and_remarks :
  let hangar := mkShutter (js "s1") (js "z1") (js "Hangar") (Some (js "noisy fan")) 1 1 in
  let zone := mkZone (js "z1") (js "b1") (js "North wing") 1 [hangar] in
  let building := mkBuilding (js "b1") (js "p1") (js "Hall") 1 [zone] in
  let project := mkProject (js "p1") (js "Plant") (Some (js "Lyon")) 1 1 [building] in
  searchShutters [project] (js "LYON") = [mkSearchResult hangar zone building project] /\
  searchShutters [project] (js "fan lyon") = [mkSearchResult hangar zone building project] /\
  searchShutters [project] (js "paris") = [].
Proof. vm_compute. done. Qed.

End PlantExamples.

(** ** Further properties *)

Module MoreProperties.
Import JsString Data Platform ImageStorage StorageContext STORAGE_KEYS Vocabulary AsyncFacts.
Import Chunk ChunkProperties NotesProperties.

(** One code unit never takes more than three bytes. *)
Lemma byteLength_code_unit (c : N) : (c < 0x10000)%N -> byteLength [c] <= 3.
Proof.
  intros Hc. unfold byteLength, TextEncoder_encode. cbn [scalar_values].
  destruct (is_high_surrogate c); [done|].
  destruct (is_low_surrogate c); [done|].
  cbn [flat_map]. unfold utf8_bytes.
  destruct (c <? 0x80)%N; [done|]. destruct (c <? 0x800)%N; [done|].
  destruct (c <? 0x10000)%N eqn:E; [done|]. apply N.ltb_ge in E. lia.
Qed.

Lemma split_with_elements (measure : jsstring -> Z) (maxBytes : Z) (s chunk : jsstring) (c : N) :
  chunk ∈ split_with measure s maxBytes -> c ∈ chunk -> c ∈ s.
Proof.
  intros Hchunk Hc. rewrite <- (join_split_with measure maxBytes s).
  unfold joinChunks. rewrite list_elem_of_In. apply in_concat.
  exists chunk. by rewrite <- !list_elem_of_In.
Qed.

(** With a limit of three bytes or more, every chunk of a string of 16-bit
    code units is within the limit. *)
Theorem splitByBytes_within_limit (s : jsstring) (m : Z) :
  3 <= m ->
  Forall (fun c => (c < 0x10000)%N) s ->
  Forall (fun chunk => byteLength chunk <= m) (splitByBytes s m).
Proof.
  intros Hm Hs. pose proof (split_with_limit byteLength m s) as Hlimit.
  fold (splitByBytes s m) in Hlimit. unfold within_limit in Hlimit.
  rewrite Forall_forall in Hlimit. rewrite Forall_forall in Hs.
  apply Forall_forall. intros chunk Hin.
  destruct (Hlimit chunk Hin) as [H|H]; [done|].
  destruct chunk as [|c [|??]]; try done.
  pose proof (byteLength_code_unit c) as Hc.
  assert (c < 0x10000)%N; [|lia].
  apply Hs. apply (split_with_elements byteLength m s [c]); [done|].
  by apply list_elem_of_singleton.
Qed.

Lemma splitByBytes_within_limit_example :
  3 <= 4 /\
  Forall (fun c => (c < 0x10000)%N) (js "h" ++ [0xE9; 0x20AC; 0xD83D; 0xDE00]%N) /\
  Forall (fun chunk => byteLength chunk <= 4)
    (splitByBytes (js "h" ++ [0xE9; 0x20AC; 0xD83D; 0xDE00]%N) 4).
Proof.
  assert (Forall (fun c => (c < 0x10000)%N) (js "h" ++ [0xE9; 0x20AC; 0xD83D; 0xDE00]%N)) as H.
  { repeat constructor. }
  split; [lia|]. split; [exact H|].
  apply (splitByBytes_within_limit _ 4); [lia|exact H].
Defined.

Section WithRuntime.
Context {rt : Runtime}.

(** *** Batch deletion of shutters *)

Lemma shuttersOf_allShutters (ps : list Project) : map r_shutter (allShutters ps) = shuttersOf ps.
Proof.
  unfold allShutters, shuttersOf.
  induction ps as [|p ps IH]; simpl; [done|]. rewrite map_app, IH. f_equal.
  induction (p_buildings p) as [|b bs IHb]; simpl; [done|]. rewrite map_app, IHb. f_equal.
  induction (b_functionalZones b) as [|z zs IHz]; simpl; [done|]. rewrite map_app, IHz. f_equal.
  rewrite map_map. simpl. apply map_id.
Qed.

Lemma shuttersOf_withoutShutters (ids : list jsstring) (ps : list Project) :
  shuttersOf (withoutShutters ids ps)
  = List.filter (fun s => negb (includes_id ids (s_id s))) (shuttersOf ps).
Proof.
  unfold shuttersOf, withoutShutters.
  induction ps as [|p ps IH]; simpl; [done|]. rewrite List.filter_app, IH. f_equal.
  induction (p_buildings p) as [|b bs IHb]; simpl; [done|]. rewrite List.filter_app, IHb. f_equal.
  induction (b_functionalZones b) as [|z zs IHz]; simpl; [done|].
  by rewrite List.filter_app, IHz.
Qed.

(** When no call fails, [deleteShuttersBatch] writes the favourites once and
    the tree once, and the tree it writes and sets holds the shutters whose
    id is not among the ids, in their order; the favourites lose the ids. *)
Theorem deleteShuttersBatch_removes_the_ids (rendered : AppState) (ids : list jsstring) (w : World) :
  w_faults w = [] ->
  let run := deleteShuttersBatch rendered ids w in
  let newFavorites :=
    List.filter (fun fId => negb (includes_id ids fId)) (favoriteShutters rendered) in
  outcome run = Returned true /\
  events run
  = [mkEvent (SetItem FAVORITE_SHUTTERS (JSON_stringify_ids newFavorites)) false;
     mkEvent (SetItem PROJECTS
                (JSON_stringify_projects (withoutShutters ids (projects rendered)))) false] /\
  projects (w_state (world_after run)) = withoutShutters ids (projects rendered) /\
  favoriteShutters (w_state (world_after run)) = newFavorites /\
  shuttersOf (projects (w_state (world_after run)))
  = List.filter (fun s => negb (includes_id ids (s_id s))) (shuttersOf (projects rendered)).
Proof.
  intros Hf run newFavorites.
  assert (run
          = (Returned true,
             with_state (with_projects (withoutShutters ids (projects rendered)))
               (with_store (insert PROJECTS
                              (JSON_stringify_projects (withoutShutters ids (projects rendered))))
                  (with_state (with_favoriteShutters newFavorites)
                     (with_store (insert FAVORITE_SHUTTERS (JSON_stringify_ids newFavorites)) w))),
             [mkEvent (SetItem FAVORITE_SHUTTERS (JSON_stringify_ids newFavorites)) false;
              mkEvent (SetItem PROJECTS
                         (JSON_stringify_projects (withoutShutters ids (projects rendered)))) false]))
    as ->.
  { subst run. unfold deleteShuttersBatch, setFavoriteShutters, saveProjects, enqueue,
      saveProjects_task, safeStorageOperation, setFavoriteShuttersState, setProjects.
    fold (withoutShutters ids (projects rendered)). fold newFavorites.
    run. rewrite setItem_ok by done. run.
    rewrite setItem_ok by done. run. reflexivity. }
  unfold outcome, world_after, events; simpl.
  repeat split. apply shuttersOf_withoutShutters.
Qed.

(** *** Images that are files already *)

Lemma persist_external_loop (dir : jsstring) (entries : list (nat * jsstring))
    (acc : list jsstring) w :
  Forall (fun entry => startsWith entry.2 (js "file://") = true) entries ->
  for_each entries (persist_image dir) acc w = (Returned (acc ++ entries.*2), w, []).
Proof.
  revert acc. induction entries as [|[i image] entries IH]; intros acc Hall; simpl.
  - by rewrite app_nil_r.
  - apply Forall_cons in Hall as [Himage Hall]. simpl in Himage.
    erewrite bind_returned.
    2:{ unfold persist_image. rewrite Himage. reflexivity. }
    rewrite IH by done. unfold outcome, world_after, events; simpl.
    by rewrite <- app_assoc.
Qed.

Lemma imap_pair_snd_from {A} (l : list A) (g : nat -> nat) :
  (imap (fun i x => (g i, x)) l).*2 = l.
Proof.
  revert g. induction l as [|x l IH]; intros g; simpl; [done|].
  f_equal. apply (IH (g ∘ S)).
Qed.

Lemma imap_pair_snd {A} (l : list A) : (imap (fun i x => (i, x)) l).*2 = l.
Proof. apply (imap_pair_snd_from l id). Qed.

(** On a phone, persisting images that are all file references gives the
    same list back and writes no file. *)
Theorem persist_keeps_external_references (image : jsstring) (images : list jsstring) (w : World) :
  OS_web = false ->
  Forall (fun img => startsWith img (js "file://") = true) (image :: images) ->
  let run := persistImagesIfNeeded (Some (image :: images)) w in
  outcome run = Returned (Some (image :: images)) /\
  w_files (world_after run) = w_files w /\
  forall path data failed, mkEvent (WriteAsStringAsync path data) failed ∉ events run.
Proof.
  intros Hweb Hall run. subst run. unfold persistImagesIfNeeded. rewrite Hweb.
  set (loop := for_each _ _ _).
  assert (forall w', loop w' = (Returned (image :: images), w', [])) as Hloop.
  { intros w'. unfold loop. rewrite persist_external_loop.
    - by rewrite imap_pair_snd.
    - apply Forall_forall. intros [i img] Hin.
      apply elem_of_lookup_imap in Hin as (i' & img' & [= -> ->] & Hlookup).
      rewrite Forall_forall in Hall. apply Hall. by eapply list_elem_of_lookup_2. }
  unfold FileSystem.getInfoAsync_exists, FileSystem.makeDirectoryAsync, outside.
  run. destruct (w_faults w) as [|[|] fs]; cbn [w_faults with_faults with_dirs].
  all: repeat match goal with
       | |- context [bool_decide ?P || bool_decide ?Q] =>
           destruct (bool_decide P || bool_decide Q)
       | |- context [match ?l with [] => _ | _ => _ end] =>
           match type of l with list bool => destruct l as [|[|] ?] end
       end; cbn [w_faults with_faults with_dirs]; rewrite ?Hloop; simpl.
  all: split; [done|]; split; [done|]; intros path data failed Hin.
  all: repeat (apply elem_of_cons in Hin as [Hin|Hin]; [done|]); by apply not_elem_of_nil in Hin.
Qed.

End WithRuntime.
End MoreProperties.

(** The further properties at concrete inputs. *)

Module MoreExamples.
Import JsString Data Platform ImageStorage StorageContext STORAGE_KEYS Vocabulary.
Import NotesProperties MoreProperties DemoRuntime.

Lemma direct_save_then_load_example :
  let saved := saveNotes [note (js "abc")] staleMetaWorld in
  outcome saved = Returned tt /\
  events saved
  = [] ++ directEvents (JSON_stringify_notes [note (js "abc")])
       ++ cleanupEvents (directStore (w_store staleMetaWorld)
                           (JSON_stringify_notes [note (js "abc")])) /\
  w_store (world_after saved) !! NOTES = Some (JSON_stringify_notes [note (js "abc")]) /\
  w_store (world_after saved) !! NOTES_TMP = None /\
  (forall key, key_startsWith key chunkPrefix = true ->
     w_store (world_after saved) !! key = None) /\
  ((exists key, key_startsWith key chunkPrefix = true /\
                is_Some (w_store staleMetaWorld !! key)) ->
   w_store (world_after saved) !! NOTES_META = None) /\
  ((forall key, key_startsWith key chunkPrefix = true -> w_store staleMetaWorld !! key = None) ->
   w_store (world_after saved) !! NOTES_META = w_store staleMetaWorld !! NOTES_META) /\
  forall restarted,
    w_store restarted = w_store (world_after saved) ->
    w_faults restarted = [] ->
    Data.notes (w_state (world_after (initializeStorage_notes restarted)))
    = map (processNote (w_now restarted))
        [mkRawNote (js "abc") (js "abc") (js "abc") None None None].
Proof.
  apply (direct_save_then_load [note (js "abc")] [note (js "abc")] staleMetaWorld
           staleMetaWorld []).
  - reflexivity.
  - reflexivity.
  - vm_compute. discriminate.
  - discriminate.
  - discriminate.
  - discriminate.
  - reflexivity.
Defined.

(** A metadata key without chunks outlives a direct save. *)
Lemma stale_metadata_survives_direct_save :
  w_store (world_after (saveNotes [note (js "abc")] staleMetaWorld)) !! NOTES_META
  = Some (js "3").
Proof. vm_compute. reflexivity. Qed.


Lemma loadNotesFromChunks_missing_chunk_example :
  outcome (loadNotesFromChunks incompleteWorld) = Returned None.
Proof.
  apply (loadNotesFromChunks_missing_chunk incompleteWorld (js "3") 3 1).
  - reflexivity.
  - reflexivity.
  - discriminate.
  - reflexivity.
  - lia.
  - reflexivity.
Defined.

(** The store holds a metadata key and chunks, but no primary key: the
    loader of [initializeStorage] reads the primary key and stops. *)
Lemma load_without_primary_key_example :
  let run := initializeStorage_notes incompleteWorld in
  Data.notes (w_state (world_after run)) = [] /\
  exists failed, events run = [mkEvent (GetItem NOTES) failed].
Proof.
  apply (load_without_primary_key incompleteWorld). reflexivity.
Defined.

Lemma deleteShuttersBatch_removes_the_ids_example :
  let run := deleteShuttersBatch plantState [js "sA"] plantWorld in
  let newFavorites :=
    List.filter (fun fId => negb (includes_id [js "sA"] fId)) (favoriteShutters plantState) in
  outcome run = Returned true /\
  events run
  = [mkEvent (SetItem FAVORITE_SHUTTERS (JSON_stringify_ids newFavorites)) false;
     mkEvent (SetItem PROJECTS
                (JSON_stringify_projects (withoutShutters [js "sA"] (projects plantState)))) false] /\
  projects (w_state (world_after run)) = withoutShutters [js "sA"] (projects plantState) /\
  favoriteShutters (w_state (world_after run)) = newFavorites /\
  shuttersOf (projects (w_state (world_after run)))
  = List.filter (fun s => negb (includes_id [js "sA"] (s_id s))) (shuttersOf (projects plantState)).
Proof.
  apply (deleteShuttersBatch_removes_the_ids plantState [js "sA"] plantWorld). reflexivity.
Defined.

Lemma persist_keeps_external_references_example :
  let run := @persistImagesIfNeeded mobile
               (Some [js "file:///documents/notes/a.jpg"; js "file:///documents/notes/b.png"])
               emptyWorld in
  outcome run
  = Returned (Some [js "file:///documents/notes/a.jpg"; js "file:///documents/notes/b.png"]) /\
  w_files (world_after run) = w_files emptyWorld /\
  forall path data failed, mkEvent (WriteAsStringAsync path data) failed ∉ events run.
Proof.
  apply (@persist_keeps_external_references mobile).
  - reflexivity.
  - repeat constructor.
Defined.

End MoreExamples.

(** ** Chunks, image checks and the editor's image list *)

Module StringProperties.
Import JsString Chunk ImageCompression EditNoteScreen Vocabulary ChunkProperties.

(** *** The chunks that the provider stores *)

(** A string of 16-bit code units encodes to at most three bytes per code
    unit. *)
Lemma encode_length (s : jsstring) :
  Forall (fun c => (c < 0x10000)%N) s ->
  (length (TextEncoder_encode s) <= 3 * length s)%nat.
Proof.
  unfold TextEncoder_encode.
  remember (length s) as n eqn:Hn. revert s Hn.
  induction n as [n IH] using lt_wf_ind. intros s Hn Hs.
  destruct s as [|c rest]; [simpl; lia|].
  apply Forall_cons in Hs as [Hc Hrest]. subst n.
  assert (length (flat_map utf8_bytes (scalar_values rest)) <= 3 * length rest)%nat as Hone.
  { apply (IH (length rest)); [simpl; lia|done|done]. }
  assert (forall u, (u < 0x10000)%N -> (length (utf8_bytes u) <= 3)%nat) as Hunit.
  { intros u Hu. unfold utf8_bytes.
    destruct (u <? 0x80)%N; [simpl; lia|]. destruct (u <? 0x800)%N; [simpl; lia|].
    destruct (u <? 0x10000)%N eqn:E; [simpl; lia|]. apply N.ltb_ge in E. lia. }
  assert (forall u, (length (utf8_bytes u) <= 4)%nat) as Hany.
  { intros u. unfold utf8_bytes.
    destruct (u <? 0x80)%N; [simpl; lia|]. destruct (u <? 0x800)%N; [simpl; lia|].
    destruct (u <? 0x10000)%N; simpl; lia. }
  cbn [scalar_values].
  destruct (is_high_surrogate c).
  - destruct rest as [|d rest']; [pose proof (Hunit 0xFFFD%N ltac:(lia)); cbn [flat_map length] in *; rewrite app_nil_r; lia|].
    destruct (is_low_surrogate d).
    + apply Forall_cons in Hrest as [Hd Hrest'].
      cbn [flat_map]. rewrite length_app.
      assert (length (flat_map utf8_bytes (scalar_values rest')) <= 3 * length rest')%nat.
      { apply (IH (length rest')); [simpl; lia|done|done]. }
      match goal with |- context [utf8_bytes ?u] => pose proof (Hany u) end.
      cbn [length]. lia.
    + cbn [flat_map]. rewrite length_app.
      pose proof (Hunit 0xFFFD%N ltac:(lia)). cbn [length] in *. lia.
  - destruct (is_low_surrogate c); cbn [flat_map]; rewrite length_app.
    + pose proof (Hunit 0xFFFD%N ltac:(lia)). cbn [length] in *. lia.
    + pose proof (Hunit c Hc). cbn [length] in *. lia.
Qed.

Section Splitter.
Variable measure : jsstring -> Z.
Variable maxBytes : Z.

(** The loop never closes an empty chunk. *)
Lemma split_loop_nonempty (str : jsstring) (chunks : list jsstring) (currentChunk : jsstring) :
  Forall (fun chunk => chunk <> []) chunks ->
  let '(chunks', _) := fold_left (split_step measure maxBytes) str (chunks, currentChunk) in
  Forall (fun chunk => chunk <> []) chunks'.
Proof.
  revert chunks currentChunk.
  induction str as [|char str IH]; intros chunks currentChunk Hchunks; simpl; [done|].
  destruct (measure (currentChunk ++ [char]) >? maxBytes); simpl.
  - destruct currentChunk as [|d currentChunk]; simpl.
    + by apply IH.
    + apply IH. apply Forall_app. split; [done|]. by constructor.
  - by apply IH.
Qed.

Lemma split_with_nonempty (str : jsstring) :
  Forall (fun chunk => chunk <> []) (split_with measure str maxBytes).
Proof.
  unfold split_with. destruct str as [|c str]; [constructor|].
  pose proof (split_loop_nonempty (c :: str) [] [] ltac:(constructor)) as H.
  destruct (fold_left _ (c :: str) _) as [chunks currentChunk].
  destruct currentChunk as [|d currentChunk]; simpl; [done|].
  apply Forall_app. split; [done|]. by constructor.
Qed.

End Splitter.

(** Whichever splitter the platform selects, and for every limit of three
    bytes or more, no chunk of a string of 16-bit code units is empty and
    every chunk encodes to at most the limit. *)
Theorem splitStringByBytes_chunks_fit (enc win : bool) (s : jsstring) (m : Z) :
  3 <= m ->
  Forall (fun c => (c < 0x10000)%N) s ->
  Forall (fun chunk => chunk <> [] /\ byteLength chunk <= m) (splitStringByBytes enc win s m).
Proof.
  intros Hm Hs.
  assert (forall measure chunk c, chunk ∈ split_with measure s m -> c ∈ chunk -> (c < 0x10000)%N)
    as Hunits.
  { intros measure chunk c Hchunk Hc.
    rewrite Forall_forall in Hs. apply Hs.
    rewrite <- (join_split_with measure m s).
    unfold joinChunks. rewrite list_elem_of_In. apply in_concat.
    exists chunk. by rewrite <- !list_elem_of_In. }
  assert (forall chunk, Forall (fun c => (c < 0x10000)%N) chunk -> length chunk = 1%nat ->
            byteLength chunk <= 3) as Hsingle.
  { intros chunk Hc Hlen. unfold byteLength. pose proof (encode_length chunk Hc). lia. }
  unfold splitStringByBytes.
  destruct (enc && win); apply Forall_forall; intros chunk Hin.
  - split.
    + pose proof (split_with_nonempty byteLength m s) as Hne.
      rewrite Forall_forall in Hne. by apply Hne.
    + pose proof (split_with_limit byteLength m s) as Hlimit.
      rewrite Forall_forall in Hlimit.
      destruct (Hlimit chunk Hin) as [H|H]; [done|].
      assert (byteLength chunk <= 3); [|lia].
      apply Hsingle; [|done]. apply Forall_forall. intros c Hc. by eapply Hunits.
  - split.
    + pose proof (split_with_nonempty estimatedBytes m s) as Hne.
      rewrite Forall_forall in Hne. by apply Hne.
    + pose proof (split_with_limit estimatedBytes m s) as Hlimit.
      rewrite Forall_forall in Hlimit.
      assert (Forall (fun c => (c < 0x10000)%N) chunk) as Hchunk.
      { apply Forall_forall. intros c Hc. by eapply Hunits. }
      destruct (Hlimit chunk Hin) as [H|H].
      * unfold estimatedBytes in H. unfold byteLength.
        pose proof (encode_length chunk Hchunk). lia.
      * pose proof (Hsingle chunk Hchunk H). lia.
Qed.

Lemma splitStringByBytes_chunks_fit_example :
  3 <= 4 /\
  Forall (fun c => (c < 0x10000)%N) (js "h" ++ [0xE9; 0x20AC; 0xD83D; 0xDE00]%N) /\
  Forall (fun chunk => chunk <> [] /\ byteLength chunk <= 4)
    (splitStringByBytes false true (js "h" ++ [0xE9; 0x20AC; 0xD83D; 0xDE00]%N) 4).
Proof.
  assert (Forall (fun c => (c < 0x10000)%N) (js "h" ++ [0xE9; 0x20AC; 0xD83D; 0xDE00]%N)) as H.
  { repeat constructor. }
  split; [lia|]. split; [exact H|].
  apply (splitStringByBytes_chunks_fit false true _ 4); [lia|exact H].
Defined.

(** *** [validateImageBase64] *)

Lemma indexOf_Some (c : N) (s : jsstring) (i : nat) :
  indexOf c s = Some i <->
  exists before after, s = before ++ (c :: after) /\ (c ∉ before) /\ length before = i.
Proof.
  revert i. induction s as [|d s IH]; intros i; simpl.
  - split; [done|]. intros (before & after & H & _). by destruct before.
  - destruct (d =? c)%N eqn:E.
    + apply N.eqb_eq in E as ->. split.
      * intros [= <-]. exists [], s. split; [done|]. split; [|done]. by apply not_elem_of_nil.
      * intros (before & after & H & Hnot & Hlen).
        destruct before as [|b before]; [by subst|].
        injection H as -> _. exfalso. apply Hnot. left.
    + apply N.eqb_neq in E. destruct (indexOf c s) as [j|] eqn:Hj; simpl.
      * split.
        -- intros [= <-]. destruct (proj1 (IH j) eq_refl) as (before & after & -> & Hnot & Hlen).
           exists (d :: before), after. split; [done|]. split; [|by simpl; rewrite Hlen].
           by apply not_elem_of_cons.
        -- intros (before & after & H & Hnot & Hlen).
           destruct before as [|b before]; [by injection H as ->|].
           injection H as -> ->. apply not_elem_of_cons in Hnot as [_ Hnot].
           f_equal. simpl in Hlen. subst i. f_equal.
           assert (Some j = Some (length before)) as [= ->]; [|done].
           apply IH. by exists before, after.
      * split; [done|].
        intros (before & after & H & Hnot & Hlen).
        destruct before as [|b before]; [by injection H as ->|].
        injection H as -> ->. apply not_elem_of_cons in Hnot as [_ Hnot].
        assert (None = Some (length before)) as Habs; [|done].
        apply IH. by exists before, after.
Qed.

Lemma validateImageBase64_eq (base64 : jsstring) :
  validateImageBase64 base64
  = startsWith base64 (js "data:image/")
    && match indexOf 44 base64 with
       | Some commaIndex => negb (Z.of_nat (length base64) - Z.of_nat commaIndex <? 100)
       | None => false
       end.
Proof.
  destruct base64 as [|c rest]; [reflexivity|].
  unfold validateImageBase64. by destruct (startsWith (c :: rest) (js "data:image/")).
Qed.

(** An image is accepted exactly when it starts with [data:image/] and its
    first comma is followed by at least 99 code units. *)
Theorem validateImageBase64_accepts (base64 : jsstring) :
  validateImageBase64 base64 = true <->
  startsWith base64 (js "data:image/") = true /\
  exists before after,
    base64 = before ++ (44%N :: after) /\ (44%N ∉ before) /\ (99 <= length after)%nat.
Proof.
  rewrite validateImageBase64_eq. set (s := base64).
  destruct (startsWith s (js "data:image/")); cbn [andb]; [|by split; [|intros [? _]]].
  destruct (indexOf 44 s) as [i|] eqn:Hi.
  - apply indexOf_Some in Hi as (before & after & Hs & Hnot & Hlen).
    rewrite Hs, length_app. simpl. subst i. split.
    + intros H. split; [done|]. exists before, after. split; [done|]. split; [done|].
      apply negb_true_iff, Z.ltb_ge in H. lia.
    + intros (_ & before' & after' & Hs' & Hnot' & Hlen').
      apply negb_true_iff, Z.ltb_ge.
      assert (Some (length before) = Some (length before')) as [= E].
      { assert (indexOf 44 (before ++ 44%N :: after) = Some (length before)) as H1.
        { apply indexOf_Some. by exists before, after. }
        assert (indexOf 44 (before ++ 44%N :: after) = Some (length before')) as H2.
        { apply indexOf_Some. by exists before', after'. }
        congruence. }
      assert (length after = length after').
      { apply (f_equal length) in Hs'. rewrite !length_app in Hs'. simpl in Hs'. lia. }
      lia.
  - split; [done|]. intros (_ & before & after & Hs & Hnot & _).
    assert (indexOf 44 s = Some (length before)) as H; [|congruence].
    apply indexOf_Some. by exists before, after.
Qed.

(** *** The image list of the editor *)

Lemma filter_index_from {A} (keep : nat -> bool) (g : nat -> nat) (l : list A) :
  (List.filter (fun entry : nat * A => keep entry.1) (imap (fun i x => (g i, x)) l)).*2
  = match l with
    | [] => []
    | x :: l' =>
        (if keep (g 0%nat) then [x] else [])
        ++ (List.filter (fun entry : nat * A => keep entry.1)
              (imap (fun i x => (g (S i), x)) l')).*2
    end.
Proof.
  destruct l as [|x l]; [done|]. simpl.
  destruct (keep (g 0%nat)); reflexivity.
Qed.

Lemma filter_index_delete {A} (keep : nat -> bool) (g : nat -> nat) (i : nat) (l : list A) :
  (forall j, j <> i -> keep (g j) = true) ->
  keep (g i) = false ->
  (List.filter (fun entry : nat * A => keep entry.1) (imap (fun i x => (g i, x)) l)).*2
  = delete i l.
Proof.
  revert g i. induction l as [|x l IH]; intros g i Hne Heq; [by destruct i|].
  rewrite filter_index_from. destruct i as [|i].
  - rewrite Heq. simpl.
    assert (forall j, keep (g (S j)) = true) as Hrest by (intros j; apply Hne; lia).
    clear Heq Hne IH. revert g Hrest. induction l as [|y l IH]; intros g Hrest; [done|].
    rewrite filter_index_from, (Hrest 0%nat). simpl. f_equal.
    apply (IH (g ∘ S)). intros j. apply (Hrest (S j)).
  - rewrite (Hne 0%nat) by lia. simpl. f_equal.
    apply (IH (g ∘ S)); simpl; [|done].
    intros j Hj. apply Hne. lia.
Qed.

Lemma filter_index_all {A} (keep : nat -> bool) (g : nat -> nat) (l : list A) :
  (forall j, keep (g j) = true) ->
  (List.filter (fun entry : nat * A => keep entry.1) (imap (fun i x => (g i, x)) l)).*2 = l.
Proof.
  revert g. induction l as [|x l IH]; intros g Hkeep; [done|].
  rewrite filter_index_from, Hkeep. simpl. f_equal.
  apply (IH (g ∘ S)). intros j. apply Hkeep.
Qed.

(** Removing the image at an index of the list gives the list without that
    element; an index outside the list leaves the list as it is; and removing
    the indices of a one-element array is removing that index. *)
Theorem handleRemoveImage_bounds (prev : list jsstring) :
  (forall i : nat, handleRemoveImage (Z.of_nat i) prev = delete i prev) /\
  (forall index, index < 0 \/ Z.of_nat (length prev) <= index ->
     handleRemoveImage index prev = prev) /\
  (forall index, handleRemoveMultipleImages [index] prev = handleRemoveImage index prev) /\
  handleRemoveMultipleImages [] prev = prev.
Proof.
  split; [|split; [|split]].
  - intros i. unfold handleRemoveImage, filter_index.
    apply (filter_index_delete (fun j => negb (Z.of_nat j =? Z.of_nat i)) id); simpl.
    + intros j Hj. apply negb_true_iff, Z.eqb_neq. lia.
    + apply negb_false_iff, Z.eqb_eq. done.
  - intros index [Hneg|Hbig]; unfold handleRemoveImage, filter_index.
    + apply (filter_index_all (fun i => negb (Z.of_nat i =? index)) id).
      intros j. apply negb_true_iff, Z.eqb_neq. simpl. lia.
    + destruct (Z_of_nat_complete index ltac:(lia)) as [i ->].
      rewrite (filter_index_delete (fun j => negb (Z.of_nat j =? Z.of_nat i)) id i); simpl.
      * rewrite delete_take_drop, take_ge, drop_ge by lia. apply app_nil_r.
      * intros j Hj. apply negb_true_iff, Z.eqb_neq. lia.
      * apply negb_false_iff, Z.eqb_eq. done.
  - intros index. unfold handleRemoveMultipleImages, handleRemoveImage, filter_index.
    f_equal. apply List.filter_ext. intros [i x]. simpl. by rewrite orb_false_r, Z.eqb_sym.
  - unfold handleRemoveMultipleImages, filter_index.
    by apply (filter_index_all (fun _ => true) id).
Qed.

End StringProperties.

(** ** Images on the file system *)

Module ImageProperties.
Import JsString Data Platform ImageStorage Vocabulary AsyncFacts.

Local Arguments js : simpl never.

(** *** Prefixes and separators *)

Lemma startsWith_app (p s : jsstring) : startsWith (p ++ s) p = true.
Proof. induction p as [|c p IH]; simpl; [by destruct s|]. by rewrite N.eqb_refl. Qed.

Lemma startsWith_app_l (s p rest : jsstring) :
  startsWith s p = true -> startsWith (s ++ rest) p = true.
Proof.
  revert s. induction p as [|c p IH]; intros s H; [by destruct s, rest|].
  destruct s as [|d s]; [done|]. simpl in *.
  apply andb_true_iff in H as [-> H]. by apply IH.
Qed.


Lemma replace_first_prefix (pat rep s : jsstring) :
  startsWith s pat = true -> replace_first pat rep s = rep ++ drop (length pat) s.
Proof. intros H. destruct s; cbn [replace_first]; by rewrite H. Qed.

Lemma split_on_plain (sep : N) (s : jsstring) : sep ∉ s -> split_on sep s = [s].
Proof.
  induction s as [|c s IH]; intros H; [done|].
  apply not_elem_of_cons in H as [Hc Hs]. simpl. rewrite (IH Hs).
  destruct (c =? sep)%N eqn:E; [|done]. apply N.eqb_eq in E. congruence.
Qed.

Lemma split_on_nonempty (sep : N) (s : jsstring) : split_on sep s <> [].
Proof.
  induction s as [|c s IH]; simpl; [done|].
  destruct (split_on sep s); [done|]. by destruct (c =? sep)%N.
Qed.

Lemma split_on_first (sep : N) (before after : jsstring) :
  sep ∉ before ->
  split_on sep (before ++ sep :: after) = before :: split_on sep after.
Proof.
  induction before as [|c before IH]; intros H; simpl.
  - rewrite N.eqb_refl. pose proof (split_on_nonempty sep after).
    by destruct (split_on sep after).
  - apply not_elem_of_cons in H as [Hc Hs]. rewrite (IH Hs).
    destruct (c =? sep)%N eqn:E; [|done]. apply N.eqb_eq in E. congruence.
Qed.

Section WithRuntime.
Context {rt : Runtime}.

(** *** What [persistImagesIfNeeded] returns *)

Local Ltac nothing_added :=
  simpl; exists []; rewrite app_nil_r; split; [done|]; split; [constructor|simpl; lia].

Lemma persist_image_step (dir : jsstring) (acc : list jsstring) (entry : nat * jsstring) w :
  exists extra,
    outcome (persist_image dir acc entry w) = Returned (acc ++ extra) /\
    Forall (fun img => startsWith img (js "file://") = true) extra /\
    (length extra <= 1)%nat.
Proof.
  destruct entry as [i image]. unfold persist_image.
  destruct (startsWith image (js "file://")) eqn:Hfile.
  { exists [image]. split; [done|]. split; [by repeat constructor|done]. }
  destruct (startsWith image (js "data:image/")); [|nothing_added].
  unfold FileSystem.writeAsStringAsync, outside, Math_random_token.
  destruct (split_on 44 image !! 1%nat) as [[|c data]|].
  1,3: run; destruct (w_random w); nothing_added.
  run. destruct (w_random w) as [|r rs]; cbn [w_faults with_random];
    destruct (w_faults w) as [|[|] fs]; simpl.
  all: first [ nothing_added
             | eexists [_]; split; [reflexivity|]; split; [|done];
               repeat constructor; apply (startsWith_app (js "file://")) ].
Qed.

Lemma persist_loop_files (dir : jsstring) (entries : list (nat * jsstring))
    (acc : list jsstring) w :
  exists extra,
    outcome (for_each entries (persist_image dir) acc w) = Returned (acc ++ extra) /\
    Forall (fun img => startsWith img (js "file://") = true) extra /\
    (length extra <= length entries)%nat.
Proof.
  revert acc w. induction entries as [|entry entries IH]; intros acc w; simpl.
  - exists []. rewrite app_nil_r. split; [done|]. split; [constructor|simpl; lia].
  - destruct (persist_image_step dir acc entry w) as (e1 & He1 & Hf1 & Hl1).
    unfold bind. unfold outcome in He1.
    destruct (persist_image dir acc entry w) as [[[a|] w1] ev1]; simpl in He1; [|done].
    injection He1 as ->.
    destruct (IH (acc ++ e1) w1) as (e2 & He2 & Hf2 & Hl2). unfold outcome in He2.
    destruct (for_each entries _ (acc ++ e1) w1) as [[r w2] ev2]. simpl in He2. subst r.
    exists (e1 ++ e2). unfold outcome. simpl. rewrite app_assoc. split; [done|].
    split; [by apply Forall_app|]. rewrite length_app. lia.
Qed.

Lemma persist_result (images : option (list jsstring)) (w : World) :
  OS_web = false ->
  let run := persistImagesIfNeeded images w in
  exists result,
    outcome run = Returned result /\
    match result with
    | Some persisted =>
        persisted <> [] /\
        Forall (fun img => startsWith img (js "file://") = true) persisted /\
        (length persisted <= length (default [] images))%nat
    | None => True
    end /\
    w_store (world_after run) = w_store w.
Proof.
  intros Hweb run.
  assert (w_store (world_after run) = w_store w) as Hstore.
  { apply NotesProperties.keeps_persistImagesIfNeeded. }
  cut (exists result,
         outcome run = Returned result /\
         match result with
         | Some persisted =>
             persisted <> [] /\
             Forall (fun img => startsWith img (js "file://") = true) persisted /\
             (length persisted <= length (default [] images))%nat
         | None => True
         end).
  { intros (result & ? & ?). by exists result. }
  clear Hstore. subst run. unfold persistImagesIfNeeded.
  destruct images as [[|img imgs]|]; [by exists None| |by exists None].
  rewrite Hweb.
  set (first := try_catch _ _). set (entries := imap _ _).
  unfold bind at 1.
  assert (outcome (first w) <> Thrown) as Hfirst.
  { apply FailureProperties.never_try, FailureProperties.never_ret. }
  unfold outcome in Hfirst.
  destruct (first w) as [[[[]|] w1] ev1]; [|done].
  unfold bind at 1.
  destruct (persist_loop_files (documentDirectory ++ IMAGES_DIR) entries [] w1)
    as (extra & Hloop & Hfiles & Hlen).
  unfold outcome in Hloop.
  destruct (for_each entries _ [] w1) as [[r w2] ev2]. simpl in Hloop. subst r.
  unfold ret, outcome. simpl.
  destruct extra as [|x extra]; simpl.
  - by exists None.
  - exists (Some (x :: extra)). split; [done|].
    split; [done|]. split; [done|].
    unfold entries in Hlen. by rewrite length_imap in Hlen.
Qed.

(** Off the web, [persistImagesIfNeeded] never rejects, whatever fails; it
    returns nothing or a non-empty list, never more images than it was
    given, and every image it returns is a file reference.  It leaves the
    key-value store alone. *)
Theorem persistImagesIfNeeded_returns_file_references (images : option (list jsstring)) (w : World) :
  OS_web = false ->
  let run := persistImagesIfNeeded images w in
  exists result,
    outcome run = Returned result /\
    match result with
    | Some persisted =>
        persisted <> [] /\
        Forall (fun img => startsWith img (js "file://") = true) persisted /\
        (length persisted <= length (default [] images))%nat
    | None => True
    end /\
    w_store (world_after run) = w_store w.
Proof. apply persist_result. Qed.

(** *** What [removeImages] deletes *)




(** *** From an inline image to a file and back to nothing *)

(** On a phone where no call fails, an inline image whose header and payload
    hold no comma is written to a file that holds its payload, the file
    reference comes back, and [removeImages] on that reference deletes the
    file again and leaves all other files as they were at the start. *)
Theorem persisted_image_is_stored_and_removable (header data : jsstring) (w : World) :
  OS_web = false ->
  w_faults w = [] ->
  startsWith header (js "data:image/") = true ->
  44%N ∉ header -> 44%N ∉ data -> data <> [] ->
  let image := header ++ 44%N :: data in
  let saved := persistImagesIfNeeded (Some [image]) w in
  exists path,
    outcome saved = Returned (Some [js "file://" ++ path]) /\
    w_files (world_after saved) !! path = Some data /\
    let removed := removeImages (Some [js "file://" ++ path]) (world_after saved) in
    outcome removed = Returned tt /\
    w_files (world_after removed) !! path = None /\
    forall other, other <> path ->
      w_files (world_after removed) !! other = w_files w !! other.
Proof.
  intros Hweb Hf Hheader Hh Hd Hne image saved.
  assert (startsWith image (js "data:image/") = true) as Hinline.
  { by apply startsWith_app_l. }
  assert (startsWith image (js "file://") = false) as Hfile.
  { unfold image. destruct header as [|c header]; [done|].
    change (js "data:image/") with (100%N :: js "ata:image/") in Hheader.
    change (js "file://") with (102%N :: js "ile://").
    cbn [startsWith app] in Hheader |- *.
    apply andb_true_iff in Hheader as [E _]. apply N.eqb_eq in E as ->. done. }
  assert (split_on 44 image !! 1%nat = Some data) as Hsplit.
  { unfold image. rewrite split_on_first by done. by rewrite split_on_plain. }
  destruct data as [|d data]; [done|].
  set (dir := documentDirectory ++ IMAGES_DIR).
  assert (exists w1 ev1,
            try_catch
              (dirExists <- FileSystem.getInfoAsync_exists dir ;;
               if dirExists then ret tt else FileSystem.makeDirectoryAsync dir)
              (ret tt) w = (Returned tt, w1, ev1) /\
            w_faults w1 = [] /\ w_files w1 = w_files w)
    as (w1 & ev1 & Hfirst & Hf1 & Hfiles1).
  { unfold FileSystem.getInfoAsync_exists, FileSystem.makeDirectoryAsync, outside.
    run. rewrite Hf. cbn [fst snd].
    destruct (bool_decide _ || bool_decide _); rewrite ?Hf; eauto 10. }
  assert (exists token w2,
            Math_random_token w1 = (Returned token, w2, []) /\
            w_faults w2 = [] /\ w_files w2 = w_files w1 /\ w_now w2 = w_now w1)
    as (token & w2 & Hrandom & Hf2 & Hfiles2 & Hnow2).
  { unfold Math_random_token. destruct (w_random w1); eauto 10. }
  set (path := dir ++ (js "img_" ++ decimal (w_now w1) ++ js "_" ++ decimal (Z.of_nat 0)
                         ++ js "_" ++ token) ++ js "." ++ getImageExtension image).
  assert (persistImagesIfNeeded (Some [image]) w
          = (Returned (Some [js "file://" ++ path]), with_files (insert path (d :: data)) w2,
             ev1 ++ [mkEvent (WriteAsStringAsync path (d :: data)) false])) as Hsaved.
  { assert (for_each (imap (fun i image => (i, image)) [image]) (persist_image dir) [] w1
            = (Returned [js "file://" ++ path], with_files (insert path (d :: data)) w2,
               [mkEvent (WriteAsStringAsync path (d :: data)) false])) as Hloop.
    { cbn [imap for_each]. unfold persist_image. rewrite Hfile, Hinline, Hsplit.
      unfold bind, try_catch, Date_now, get, ret. cbv beta. rewrite Hrandom.
      cbv beta match zeta. unfold FileSystem.writeAsStringAsync.
      rewrite outside_ok by done. reflexivity. }
    unfold persistImagesIfNeeded. rewrite Hweb. fold dir.
    unfold bind at 1. rewrite Hfirst. unfold bind at 1. rewrite Hloop. reflexivity. }
  exists path. subst saved. rewrite Hsaved.
  unfold outcome, world_after, events; cbn [fst snd].
  split; [done|]. split; [by cbn [w_files with_files]; rewrite lookup_insert_eq|].
  assert (removeImages (Some [js "file://" ++ path]) (with_files (insert path (d :: data)) w2)
          = (Returned tt,
             with_dirs (fun dirs => dirs ∖ {[path]})
               (with_files (delete path) (with_files (insert path (d :: data)) w2)),
             [mkEvent (GetInfoAsync path) false; mkEvent (DeleteAsync path) false])) as Hremoved.
  { unfold removeImages. rewrite Hweb. cbn [for_each]. unfold remove_image.
    rewrite (startsWith_app (js "file://") path).
    rewrite (replace_first_prefix _ _ _ (startsWith_app (js "file://") path)).
    rewrite drop_app_length. change ([] ++ path) with path.
    unfold FileSystem.getInfoAsync_exists, FileSystem.deleteAsync.
    unfold bind, try_catch, ret. rewrite outside_ok by done.
    cbv beta match zeta. cbn [fst snd w_files with_files].
    rewrite lookup_insert_eq.
    rewrite (bool_decide_eq_true_2 (is_Some (Some (d :: data)))) by eauto.
    rewrite orb_true_r. rewrite outside_ok by done. reflexivity. }
  rewrite Hremoved. cbn [fst snd w_files with_files with_dirs].
  split; [done|]. split; [by rewrite lookup_delete_eq|].
  intros other Hother. rewrite lookup_delete_ne, lookup_insert_ne by done. congruence.
Qed.

(** *** What a phone keeps of the images of a note *)

Lemma file_not_inline (img : jsstring) :
  startsWith img (js "file://") = true -> startsWith img (js "data:image/") = false.
Proof.
  destruct img as [|c img]; [done|].
  change (js "data:image/") with (100%N :: js "ata:image/").
  change (js "file://") with (102%N :: js "ile://").
  cbn [startsWith]. intros H. apply andb_true_iff in H as [E _].
  apply N.eqb_eq in E as ->. done.
Qed.

Lemma last_step_sets_notes {A} (m : Async A) (k : A -> Async unit) (ns : list Note) :
  (forall a w, outcome (k a w) = Returned tt -> notes (w_state (world_after (k a w))) = ns) ->
  forall w, outcome (bind m k w) = Returned tt ->
            notes (w_state (world_after (bind m k w))) = ns.
Proof.
  intros Hk w. unfold bind, outcome, world_after in *.
  destruct (m w) as [[[a|] w1] e1]; cbn [fst snd]; [|done].
  specialize (Hk a w1). by destruct (k a w1) as [[r w2] e2].
Qed.

(** Each turn of the loop treats its image in one of the three ways. *)
Lemma persist_image_kind (dir : jsstring) (acc : list jsstring) (entry : nat * jsstring) w :
  exists extra,
    outcome (persist_image dir acc entry w) = Returned (acc ++ extra) /\
    PersistedImages [entry.2] extra.
Proof.
  destruct entry as [i image]. unfold persist_image. cbn [snd].
  destruct (startsWith image (js "file://")) eqn:Hfile.
  { exists [image]. split; [done|]. apply persisted_reference; [done|constructor]. }
  assert (PersistedImages [image] []) as Hdropped.
  { apply persisted_dropped; [done|constructor]. }
  assert (exists extra, acc = acc ++ extra /\ PersistedImages [image] extra) as Hnothing.
  { exists []. by rewrite app_nil_r. }
  destruct (startsWith image (js "data:image/")) eqn:Hinline.
  2:{ destruct Hnothing as (extra & E & H). exists extra. split; [|done].
      unfold outcome, ret. cbn [fst]. by rewrite <- E. }
  unfold FileSystem.writeAsStringAsync, outside, Math_random_token.
  destruct (split_on 44 image !! 1%nat) as [[|c data]|].
  1,3: run; destruct (w_random w); simpl; exists []; rewrite app_nil_r; by split.
  run. destruct (w_random w) as [|r rs]; cbn [w_faults with_random];
    destruct (w_faults w) as [|[|] fs]; simpl.
  all: first [ exists []; rewrite app_nil_r; by split
             | eexists [_]; split; [reflexivity|];
               apply persisted_inline; [done|done| |constructor];
               apply (startsWith_app (js "file://")) ].
Qed.

Lemma persisted_app (images kept images' kept' : list jsstring) :
  PersistedImages images kept -> PersistedImages images' kept' ->
  PersistedImages (images ++ images') (kept ++ kept').
Proof.
  intros H H'. induction H; cbn [app]; [done| | |].
  - by apply persisted_reference.
  - by apply persisted_inline.
  - by apply persisted_dropped.
Qed.

Lemma persisted_files (images kept : list jsstring) :
  PersistedImages images kept ->
  Forall (fun image => startsWith image (js "file://") = true) kept.
Proof. induction 1; [constructor| | |]; try done; by constructor. Qed.

Lemma persist_loop_kinds (dir : jsstring) (entries : list (nat * jsstring))
    (acc : list jsstring) w :
  exists kept,
    outcome (for_each entries (persist_image dir) acc w) = Returned (acc ++ kept) /\
    PersistedImages entries.*2 kept.
Proof.
  revert acc w. induction entries as [|entry entries IH]; intros acc w; cbn [for_each].
  - exists []. rewrite app_nil_r. split; [done|constructor].
  - destruct (persist_image_kind dir acc entry w) as (e1 & He1 & Hk1).
    unfold bind. unfold outcome in He1.
    destruct (persist_image dir acc entry w) as [[[a|] w1] ev1]; cbn [fst] in He1; [|done].
    injection He1 as ->.
    destruct (IH (acc ++ e1) w1) as (e2 & He2 & Hk2). unfold outcome in He2.
    destruct (for_each entries _ (acc ++ e1) w1) as [[r w2] ev2]. cbn [fst] in He2. subst r.
    exists (e1 ++ e2). unfold outcome. cbn [fst]. rewrite app_assoc. split; [done|].
    apply (persisted_app [entry.2] e1 entries.*2 e2 Hk1 Hk2).
Qed.

Lemma persist_kinds (images : option (list jsstring)) (w : World) :
  OS_web = false ->
  exists kept,
    outcome (persistImagesIfNeeded images w)
    = Returned (match kept with [] => None | _ => Some kept end) /\
    PersistedImages (match images with Some imgs => imgs | None => [] end) kept.
Proof.
  intros Hweb. unfold persistImagesIfNeeded.
  destruct images as [[|img imgs]|]; [exists []; split; [done|constructor]|
                                      |exists []; split; [done|constructor]].
  rewrite Hweb.
  set (first := try_catch _ _). set (entries := imap _ _).
  unfold bind at 1.
  assert (outcome (first w) <> Thrown) as Hfirst.
  { apply FailureProperties.never_try, FailureProperties.never_ret. }
  unfold outcome in Hfirst.
  destruct (first w) as [[[[]|] w1] ev1]; [|done].
  unfold bind at 1.
  destruct (persist_loop_kinds (documentDirectory ++ IMAGES_DIR) entries [] w1)
    as (kept & Hloop & Hkinds).
  unfold outcome in Hloop.
  destruct (for_each entries _ [] w1) as [[r w2] ev2]. cbn [fst] in Hloop. subst r.
  exists kept. split.
  - unfold ret, outcome. cbn [fst app]. by destruct kept.
  - unfold entries in Hkinds. by rewrite MoreProperties.imap_pair_snd in Hkinds.
Qed.

Lemma has_inline_image_true (n : Note) :
  StorageContext.has_inline_image (n_images n) = true -> Exists inlineImage (imagesOf n).
Proof.
  unfold StorageContext.has_inline_image, imagesOf, inlineImage.
  destruct (n_images n) as [images|]; [|done].
  intros (image & Hin & H)%existsb_exists. apply Exists_exists. exists image.
  by rewrite list_elem_of_In.
Qed.

Lemma has_inline_image_false (n : Note) :
  StorageContext.has_inline_image (n_images n) = false ->
  Forall (fun image => ~ inlineImage image) (imagesOf n).
Proof.
  unfold StorageContext.has_inline_image, imagesOf, inlineImage.
  destruct (n_images n) as [images|]; [|constructor].
  intros H. apply Forall_forall. intros image Hin Himage.
  apply not_true_iff_false in H. apply H, existsb_exists. exists image.
  by rewrite <- list_elem_of_In.
Qed.

Lemma sanitized_not_inline (original sanitized : Note) :
  SanitizedNote original sanitized ->
  Forall (fun image => ~ inlineImage image) (imagesOf sanitized).
Proof.
  intros [[H ->]|(_ & kept & Hkept & ->)]; [done|].
  apply persisted_files in Hkept.
  assert (imagesOf (mkNote (n_id original) (n_title original) (n_content original)
                      (match kept with [] => None | _ => Some kept end)
                      (n_createdAt original) (n_updatedAt original)) = kept) as ->.
  { unfold imagesOf. cbn [n_images]. by destruct kept. }
  eapply Forall_impl; [exact Hkept|]. intros image Hfile. unfold inlineImage.
  by rewrite (file_not_inline _ Hfile).
Qed.

Lemma sanitize_loop_notes (notes acc : list Note) w :
  OS_web = false ->
  exists extra,
    outcome
      (for_each notes
         (fun sanitizedNotes note =>
            if StorageContext.has_inline_image (n_images note) then
              persistedImages <- persistImagesIfNeeded (n_images note) ;;
              ret (sanitizedNotes ++ [StorageContext.with_images persistedImages note])
            else ret (sanitizedNotes ++ [note]))
         acc w)
    = Returned (acc ++ extra) /\
    Forall2 SanitizedNote notes extra.
Proof.
  intros Hweb. revert acc w. induction notes as [|note notes IH]; intros acc w; cbn [for_each].
  - exists []. rewrite app_nil_r. split; [done|constructor].
  - unfold bind at 1.
    assert (exists clean w1 e1,
              (if StorageContext.has_inline_image (n_images note) then
                 persistedImages <- persistImagesIfNeeded (n_images note) ;;
                 ret (acc ++ [StorageContext.with_images persistedImages note])
               else ret (acc ++ [note])) w = (Returned (acc ++ [clean]), w1, e1) /\
              SanitizedNote note clean) as (clean & w1 & e1 & E & Hclean).
    { destruct (StorageContext.has_inline_image (n_images note)) eqn:Hinline.
      2:{ exists note, w, []. split; [done|]. left. split; [|done].
          by apply has_inline_image_false. }
      destruct (persist_kinds (n_images note) w Hweb) as (kept & Hresult & Hkinds).
      unfold bind, outcome in *.
      destruct (persistImagesIfNeeded (n_images note) w) as [[r w1] e1]. cbn [fst] in Hresult.
      subst r.
      exists (StorageContext.with_images (match kept with [] => None | _ => Some kept end) note),
        w1, (e1 ++ []).
      split; [done|]. right. split; [by apply has_inline_image_true|].
      exists kept. split; [exact Hkinds|done]. }
    rewrite E. destruct (IH (acc ++ [clean]) w1) as (extra & Hextra & Hall).
    unfold outcome in *.
    destruct (for_each notes _ (acc ++ [clean]) w1) as [[r w2] e2]. cbn [fst] in *. subst r.
    exists (clean :: extra). split; [by rewrite <- app_assoc|]. by constructor.
Qed.

(** On a phone, once [saveNotes] has returned, the notes in memory are the
    notes that were handed in, in their order.  A note without inline image
    is kept as it is.  A note with one keeps all its fields but the images:
    of these every file reference stays, every inline image is replaced by a
    file reference or dropped, every other entry is dropped, and the note
    has no image list when nothing is left.  So no note in memory holds an
    inline image. *)
Theorem saveNotes_on_phone_keeps_sanitized_notes (newNotes : list Note) (w : World) :
  OS_web = false ->
  let run := StorageContext.saveNotes newNotes w in
  outcome run = Returned tt ->
  Forall2 SanitizedNote newNotes (notes (w_state (world_after run))) /\
  Forall (fun n => Forall (fun image => ~ inlineImage image) (imagesOf n))
    (notes (w_state (world_after run))).
Proof.
  intros Hweb run.
  cut (outcome run = Returned tt ->
       Forall2 SanitizedNote newNotes (notes (w_state (world_after run)))).
  { intros Hcut Hrun. specialize (Hcut Hrun). split; [done|].
    apply Forall_forall. intros n Hn.
    apply list_elem_of_lookup in Hn as [k Hk].
    destruct (Forall2_lookup_r _ _ _ _ _ Hcut Hk) as (original & _ & Hsan).
    by apply (sanitized_not_inline original). }
  assert (run = StorageContext.saveNotes newNotes w) as Hrun by reflexivity. clearbody run.
  unfold StorageContext.saveNotes, StorageContext.enqueue, StorageContext.saveNotes_task in Hrun.
  unfold try_catch at 1 in Hrun.
  match type of Hrun with
  | run = match ?body w with _ => _ end =>
      assert (outcome (body w) = Returned tt ->
              Forall2 SanitizedNote newNotes (notes (w_state (world_after (body w))))) as Hbody;
      [|unfold outcome, world_after in Hbody; destruct (body w) as [[[[]|] w1] e1]]
  end.
  - match goal with |- outcome ?t = _ -> _ => remember t as r eqn:Hr end.
    unfold StorageContext.sanitizeNotesImages in Hr. rewrite Hweb in Hr.
    destruct (sanitize_loop_notes newNotes [] w Hweb) as (sanitized & Hloop & Hall).
    unfold bind at 1 in Hr. unfold outcome at 1 in Hloop.
    destruct (for_each newNotes _ [] w) as [[r0 w1] e1]. cbn [fst] in Hloop. subst r0.
    cbn [app] in Hr. set (rest := bind _ _) in Hr.
    assert (outcome (rest w1) = Returned tt ->
            notes (w_state (world_after (rest w1))) = sanitized) as Hrest.
    { unfold rest. do 4 (apply last_step_sets_notes; intros ? ?). done. }
    unfold outcome, world_after in *. destruct (rest w1) as [[r2 w2] e2]. cbn [fst snd] in *.
    subst r. cbn [fst snd]. intros ->. by rewrite Hrest.
  - subst run. apply Hbody.
  - assert (AlwaysThrows
              (bind (try_catch (AsyncStorage.removeItem StorageContext.STORAGE_KEYS.NOTES_TMP)
                       (ret tt))
                 (fun _ => @throw unit))) as Hthrows.
    { apply FailureProperties.always_throws_then.
      apply FailureProperties.never_try, FailureProperties.never_ret. }
    specialize (Hthrows w1). unfold outcome in Hthrows.
    destruct (bind _ _ w1) as [[r3 w3] e3]. cbn [fst] in Hthrows. subst r3 run. done.
Qed.

End WithRuntime.
End ImageProperties.

(** ** The provider: utilities, import, preferences, loading *)

Module ProviderProperties.
Import JsString Data Platform ImageStorage StorageContext STORAGE_KEYS Vocabulary AsyncFacts.

(** *** Observations that a computation keeps *)

Lemma kept_ret {A X} (observe : World -> X) (a : A) : Keeps observe (ret a).
Proof. by intros w. Qed.

Lemma kept_throw {A X} (observe : World -> X) : Keeps observe (@throw A).
Proof. by intros w. Qed.

Lemma kept_get {A X} (observe : World -> X) (f : World -> A) : Keeps observe (get f).
Proof. by intros w. Qed.

Lemma kept_modify {X} (observe : World -> X) (f : World -> World) :
  (forall w, observe (f w) = observe w) -> Keeps observe (modify f).
Proof. intros H w. apply H. Qed.

Lemma kept_random {X} (observe : World -> X) :
  (forall r w, observe (with_random r w) = observe w) -> Keeps observe Math_random_token.
Proof.
  intros H w. unfold Math_random_token, world_after.
  destruct (w_random w); simpl; [done|apply H].
Qed.

Lemma kept_bind {A B X} (observe : World -> X) (m : Async A) (k : A -> Async B) :
  Keeps observe m -> (forall a, Keeps observe (k a)) -> Keeps observe (bind m k).
Proof.
  intros Hm Hk w. specialize (Hm w). unfold bind, world_after in *.
  destruct (m w) as [[[a|] w1] e1]; simpl in *; [|done].
  specialize (Hk a w1). unfold world_after in Hk.
  destruct (k a w1) as [[r w2] e2]; simpl in *. congruence.
Qed.

Lemma kept_try {A X} (observe : World -> X) (body handler : Async A) :
  Keeps observe body -> Keeps observe handler -> Keeps observe (try_catch body handler).
Proof.
  intros Hb Hh w. specialize (Hb w). unfold try_catch, world_after in *.
  destruct (body w) as [[[a|] w1] e1]; simpl in *; [done|].
  specialize (Hh w1). unfold world_after in Hh.
  destruct (handler w1) as [[r w2] e2]; simpl in *. congruence.
Qed.

Lemma kept_for_each {A S X} (observe : World -> X) (l : list A) (body : S -> A -> Async S)
    (acc : S) :
  (forall s x, Keeps observe (body s x)) -> Keeps observe (for_each l body acc).
Proof.
  intros Hb. revert acc. induction l as [|x l IH]; intros acc; simpl.
  - apply kept_ret.
  - apply kept_bind; [apply Hb | intros; apply IH].
Qed.

Lemma kept_outside {A X} (observe : World -> X) (c : Call) (effect : World -> A * World) :
  (forall fs w, observe (with_faults fs w) = observe w) ->
  (forall w, observe (effect w).2 = observe w) ->
  Keeps observe (outside c effect).
Proof.
  intros Hfaults He w. unfold outside, world_after.
  destruct (w_faults w) as [|[|] fs]; simpl.
  - specialize (He w). by destruct (effect w).
  - apply Hfaults.
  - specialize (He (with_faults fs w)). destruct (effect _). simpl in *.
    by rewrite He, Hfaults.
Qed.

Lemma kept_promise_all_queued {A B X} (observe : World -> X) (first : Async A) (second : Async B) :
  Keeps observe first -> Keeps observe second ->
  Keeps observe (Promise_all_queued first second).
Proof.
  intros H1 H2 w. specialize (H1 w). unfold Promise_all_queued, world_after in *.
  destruct (first w) as [[ra w1] e1]. specialize (H2 w1). unfold world_after in H2.
  destruct (second w1) as [[rb w2] e2]. simpl in *. congruence.
Qed.

Ltac kept_step :=
  lazymatch goal with
  | |- Keeps _ (match ?x with _ => _ end) => destruct x
  | |- Keeps _ (AsyncStorage.getItem _) => unfold AsyncStorage.getItem
  | |- Keeps _ (AsyncStorage.setItem _ _) => unfold AsyncStorage.setItem
  | |- Keeps _ (AsyncStorage.removeItem _) => unfold AsyncStorage.removeItem
  | |- Keeps _ (AsyncStorage.multiRemove _) => unfold AsyncStorage.multiRemove
  | |- Keeps _ AsyncStorage.getAllKeys => unfold AsyncStorage.getAllKeys
  | |- Keeps _ (FileSystem.getInfoAsync_exists _) => unfold FileSystem.getInfoAsync_exists
  | |- Keeps _ (FileSystem.makeDirectoryAsync _) => unfold FileSystem.makeDirectoryAsync
  | |- Keeps _ (FileSystem.writeAsStringAsync _ _) => unfold FileSystem.writeAsStringAsync
  | |- Keeps _ (FileSystem.deleteAsync _) => unfold FileSystem.deleteAsync
  | |- Keeps _ Date_now => apply kept_get
  | |- Keeps _ (ret _) => apply kept_ret
  | |- Keeps _ throw => apply kept_throw
  | |- Keeps _ (get _) => apply kept_get
  | |- Keeps _ (modify _) => apply kept_modify; reflexivity
  | |- Keeps _ Math_random_token => apply kept_random; reflexivity
  | |- Keeps _ (for_each _ _ _) => apply kept_for_each; intros
  | |- Keeps _ (bind _ _) => apply kept_bind; [|intros]
  | |- Keeps _ (try_catch _ _) => apply kept_try
  | |- Keeps _ (Promise_all_queued _ _) => apply kept_promise_all_queued
  | |- Keeps _ (outside _ _) => apply kept_outside; reflexivity
  end.

Ltac kept := cbv zeta; repeat kept_step.

Section WithRuntime.
Context {rt : Runtime}.

Lemma state_kept_removeImages uris : Keeps w_state (removeImages uris).
Proof. unfold removeImages, remove_image. kept. Qed.

Lemma store_kept_removeImages uris : Keeps w_store (removeImages uris).
Proof. unfold removeImages, remove_image. kept. Qed.

Lemma state_kept_cleanupOldChunks : Keeps w_state cleanupOldChunks.
Proof. unfold cleanupOldChunks. kept. Qed.

(** *** [clearAllData] *)

Lemma lookup_foldr_delete_None (m : gmap string jsstring) (keys : list string) (key : string) :
  m !! key = None -> foldr delete m keys !! key = None.
Proof.
  intros H. induction keys as [|k keys IH]; simpl; [done|].
  destruct (decide (k = key)) as [->|Hne]; [apply lookup_delete_eq|].
  by rewrite lookup_delete_ne.
Qed.

Lemma cleanup_only_deletes w key :
  w_store w !! key = None -> w_store (world_after (cleanupOldChunks w)) !! key = None.
Proof.
  intros H. unfold cleanupOldChunks, AsyncStorage.getAllKeys, AsyncStorage.multiRemove,
    AsyncStorage.removeItem, outside.
  run. destruct (w_faults w) as [|[|] fs]; cbn [w_faults with_faults with_store fst snd].
  all: repeat match goal with
       | |- context [(0 <? ?n)%nat] => destruct (0 <? n)%nat
       | |- context [match ?l with [] => _ | _ => _ end] =>
           match type of l with list bool => destruct l as [|[|] ?] end
       end; cbn [w_faults with_faults with_store w_store fst snd].
  all: rewrite ?lookup_delete_None; auto using lookup_foldr_delete_None.
Qed.

Lemma reset_state_run w :
  (setProjects [] ;;; setNotes [] ;;; setFavoriteProjectsState [] ;;;
   setFavoriteBuildingsState [] ;;; setFavoriteZonesState [] ;;;
   setFavoriteShuttersState [] ;;; setFavoriteNotesState [] ;;;
   setQuickCalcHistoryState []) w
  = (Returned tt, with_state (fun _ => emptyState) w, []).
Proof. reflexivity. Qed.

Lemma clear_images_run (rendered : AppState) w :
  let images :=
    if negb OS_web then
      removeImages (Some (flat_map (fun note => default [] (n_images note)) (notes rendered)))
    else ret tt in
  exists w1 e1, images w = (Returned tt, w1, e1) /\
    w_state w1 = w_state w /\ w_store w1 = w_store w.
Proof.
  intros images.
  assert (outcome (images w) <> Thrown) as Hnever.
  { unfold images. destruct (negb OS_web); [apply FailureProperties.never_removeImages|done]. }
  assert (w_state (world_after (images w)) = w_state w) as Hstate.
  { unfold images. destruct (negb OS_web); [apply state_kept_removeImages|done]. }
  assert (w_store (world_after (images w)) = w_store w) as Hstore.
  { unfold images. destruct (negb OS_web); [apply store_kept_removeImages|done]. }
  unfold outcome, world_after in *.
  destruct (images w) as [[[[]|] w1] e1]; [|done]. eauto.
Qed.

(** [clearAllData] resets the state exactly when it returns.  When it
    returns, none of the ten named keys is left in the store and every
    collection of the state is empty; when it rejects, the state and the
    store are as they were. *)
Theorem clearAllData_all_or_nothing (rendered : AppState) (w : World) :
  let run := clearAllData rendered w in
  match outcome run with
  | Returned _ =>
      w_state (world_after run) = emptyState /\
      forall key, key ∈ namedKeys -> w_store (world_after run) !! key = None
  | Thrown =>
      w_state (world_after run) = w_state w /\ w_store (world_after run) = w_store w
  end.
Proof.
  intros run. assert (run = clearAllData rendered w) as Hrun by reflexivity. clearbody run.
  unfold clearAllData in Hrun.
  destruct (clear_images_run rendered w) as (w1 & e1 & Himages & Hstate1 & Hstore1).
  cbv zeta in Himages. unfold try_catch in Hrun. unfold bind at 1 in Hrun.
  rewrite Himages in Hrun.
  unfold bind at 1 in Hrun. unfold AsyncStorage.multiRemove, outside in Hrun.
  fold namedKeys in Hrun.
  destruct (w_faults w1) as [|[|] fs].
  2:{ subst run. unfold throw, outcome, world_after; cbn [fst snd w_state w_store with_faults].
      done. }
  all: cbv beta match zeta in Hrun; unfold bind at 1 in Hrun.
  all: match type of Hrun with
       | context [cleanupOldChunks ?w2] =>
           pose proof (FailureProperties.never_cleanupOldChunks w2) as Hnever;
           pose proof (state_kept_cleanupOldChunks w2) as Hstate;
           pose proof (fun key => cleanup_only_deletes w2 key) as Hdeletes;
           unfold outcome, world_after in Hnever, Hstate, Hdeletes;
           destruct (cleanupOldChunks w2) as [[[[]|] w3] e3]; [|done]
       end.
  all: rewrite reset_state_run in Hrun; subst run; unfold outcome, world_after; cbn [fst snd].
  all: split; [done|]; intros key Hkey; cbn [w_store with_state]; apply Hdeletes.
  all: cbn [w_store with_store with_faults]; by apply lookup_foldr_delete.
Qed.

Lemma quiet_removeImages uris : Quiet (removeImages uris).
Proof.
  unfold removeImages. destruct uris as [[|u us]|]; try apply quiet_ret.
  destruct OS_web; [apply quiet_ret|].
  apply quiet_for_each. intros [] uri. unfold remove_image.
  destruct (startsWith uri (js "file://")); [|apply quiet_ret].
  apply quiet_try; [|apply quiet_ret].
  apply quiet_bind; [apply quiet_getInfo|].
  intros [|]; [apply quiet_delete|apply quiet_ret].
Qed.

Lemma cleanedStore_None (m : gmap string jsstring) (key : string) :
  m !! key = None -> cleanedStore m !! key = None.
Proof.
  intros H. unfold cleanedStore. destruct (0 <? _)%nat; [|done].
  apply lookup_delete_None. right. by apply lookup_foldr_delete_None.
Qed.

(** When no call fails, [clearAllData] returns, every collection of the
    state is empty, the store holds none of the ten named keys and no key
    with the chunk prefix, and every other key keeps its value. *)
Theorem clearAllData_removes_everything (rendered : AppState) (w : World) :
  w_faults w = [] ->
  let run := clearAllData rendered w in
  outcome run = Returned tt /\
  w_state (world_after run) = emptyState /\
  (forall key, key ∈ namedKeys \/ key_startsWith key chunkPrefix = true ->
     w_store (world_after run) !! key = None) /\
  (forall key, key ∉ namedKeys -> key_startsWith key chunkPrefix = false ->
     w_store (world_after run) !! key = w_store w !! key).
Proof.
  intros Hf run. assert (run = clearAllData rendered w) as Hrun by reflexivity. clearbody run.
  unfold clearAllData in Hrun.
  destruct (clear_images_run rendered w) as (w1 & e1 & Himages & Hstate1 & Hstore1).
  assert (w_faults w1 = []) as Hf1.
  { cbv zeta in Himages.
    assert (Quiet (if negb OS_web
                   then removeImages
                          (Some (flat_map (fun note => default [] (n_images note)) (notes rendered)))
                   else ret tt)) as Hquiet.
    { destruct (negb OS_web); [apply quiet_removeImages|apply quiet_ret]. }
    specialize (Hquiet w Hf). by rewrite Himages in Hquiet. }
  cbv zeta in Himages. fold namedKeys in Hrun.
  erewrite try_returned in Hrun.
  2:{ erewrite bind_returned by exact Himages.
      erewrite bind_returned by (by apply NotesProperties.multiRemove_ok).
      erewrite bind_returned by (by apply NotesProperties.cleanupOldChunks_ok).
      rewrite reset_state_run. unfold outcome, world_after, events; cbn [fst snd]. reflexivity. }
  subst run. unfold outcome, world_after; cbn [fst snd w_state w_store with_state with_store].
  split; [done|]. split; [done|]. split.
  - intros key [Hkey|Hkey].
    + apply cleanedStore_None. by apply lookup_foldr_delete.
    + by apply NotesProperties.cleanedStore_chunk_key.
  - intros key Hkey Hprefix.
    rewrite NotesProperties.cleanedStore_other; [|done|].
    + rewrite lookup_foldr_delete_not_elem_of by done. by rewrite Hstore1.
    + intros ->. apply Hkey. unfold namedKeys. set_solver.
Qed.

(** *** [getStorageInfo] and the blank query *)

Lemma count_loop {A B} (count : A -> Z) (items : A -> list B) (l : list A) (total : Z) :
  (forall x, count x = Z.of_nat (length (items x))) ->
  fold_left (fun total x => total + count x) l total
  = total + Z.of_nat (length (flat_map items l)).
Proof.
  intros Hcount. revert total. induction l as [|x l IH]; intros total; simpl; [lia|].
  rewrite IH, Hcount, length_app. lia.
Qed.

Lemma totalShutters_counts (projectsRef : list Project) :
  totalShutters (getStorageInfo projectsRef) = Z.of_nat (length (shuttersOf projectsRef)).
Proof.
  unfold getStorageInfo, shuttersOf. cbn [totalShutters].
  rewrite (count_loop _ (fun project =>
             flat_map (fun building => flat_map z_shutters (b_functionalZones building))
               (p_buildings project))); [lia|].
  intros project.
  rewrite (count_loop _ (fun building => flat_map z_shutters (b_functionalZones building)));
    [lia|].
  intros building. rewrite (count_loop _ z_shutters); [lia|done].
Qed.

(** A query without a word (empty, or white space only) is answered with
    every shutter of the tree, in the order of the tree; their number is the
    [totalShutters] that [getStorageInfo] reports, and [projectsCount] is the
    number of projects. *)
Theorem blank_query_lists_every_shutter (projectsRef : list Project) (query : jsstring) :
  queryWords query = [] ->
  searchShutters projectsRef query = allShutters projectsRef /\
  totalShutters (getStorageInfo projectsRef)
  = Z.of_nat (length (searchShutters projectsRef query)) /\
  projectsCount (getStorageInfo projectsRef) = Z.of_nat (length projectsRef).
Proof.
  intros Hwords.
  assert (searchShutters projectsRef query = allShutters projectsRef) as Hall.
  { rewrite SearchProperties.searchShutters_filter.
    assert (forall r, matches query r = true) as Htrue.
    { intros r. unfold matches. by rewrite Hwords. }
    induction (allShutters projectsRef) as [|r l IH]; simpl; [done|].
    by rewrite Htrue, IH. }
  split; [done|]. split; [|done].
  rewrite Hall, totalShutters_counts, <- MoreProperties.shuttersOf_allShutters.
  by rewrite length_map.
Qed.

(** *** [importProject] *)

Lemma returns_bind_with {A B} (Q : A -> Prop) (P : B -> Prop) (m : Async A) (k : A -> Async B) :
  Returns Q m -> (forall a, Q a -> Returns P (k a)) -> Returns P (bind m k).
Proof.
  intros Hm Hk w b. unfold bind, outcome.
  specialize (Hm w). unfold outcome in Hm.
  destruct (m w) as [[[a|] w1] e1]; simpl; [|done].
  specialize (Hk a (Hm a eq_refl) w1 b). unfold outcome in Hk.
  by destruct (k a w1) as [[r w2] e2].
Qed.

Lemma for_each_copies {A B} (R : A -> B -> Prop) (l : list A)
    (body : list B -> A -> Async (list B)) (acc : list B) :
  (forall acc x, Returns (fun r => exists y, r = acc ++ [y] /\ R x y) (body acc x)) ->
  Returns (fun r => exists ys, r = acc ++ ys /\ Forall2 R l ys) (for_each l body acc).
Proof.
  intros Hbody. revert acc. induction l as [|x l IH]; intros acc; cbn [for_each].
  - apply FailureProperties.returns_ret. exists []. by rewrite app_nil_r.
  - eapply returns_bind_with; [apply Hbody|].
    intros r (y & -> & Hy). intros w r' Hr'.
    destruct (IH (acc ++ [y]) w r' Hr') as (ys & -> & Hys).
    exists (y :: ys). split; [by rewrite <- app_assoc|]. by constructor.
Qed.

Lemma importShutter_copies zoneId acc shutter :
  Returns (fun r => exists copy, r = acc ++ [copy] /\ copiedShutter zoneId shutter copy)
    (importShutter zoneId acc shutter).
Proof.
  unfold importShutter. repeat (apply FailureProperties.returns_bind; intros).
  apply FailureProperties.returns_ret. eexists. split; [reflexivity|]. by repeat split.
Qed.

Lemma importZone_copies buildingId acc zone :
  Returns (fun r => exists copy, r = acc ++ [copy] /\ copiedZone buildingId zone copy)
    (importZone buildingId acc zone).
Proof.
  unfold importZone. apply FailureProperties.returns_bind; intros newZoneId.
  apply FailureProperties.returns_bind; intros createdAt.
  eapply returns_bind_with.
  { apply (for_each_copies (copiedShutter newZoneId)). intros. apply importShutter_copies. }
  intros shutters (copies & -> & Hcopies).
  apply FailureProperties.returns_ret. eexists. split; [reflexivity|]. by repeat split.
Qed.

Lemma importBuilding_copies projectId acc building :
  Returns (fun r => exists copy, r = acc ++ [copy] /\ copiedBuilding projectId building copy)
    (importBuilding projectId acc building).
Proof.
  unfold importBuilding. apply FailureProperties.returns_bind; intros newBuildingId.
  apply FailureProperties.returns_bind; intros createdAt.
  eapply returns_bind_with.
  { apply (for_each_copies (copiedZone newBuildingId)). intros. apply importZone_copies. }
  intros zones (copies & -> & Hcopies).
  apply FailureProperties.returns_ret. eexists. split; [reflexivity|]. by repeat split.
Qed.

Lemma importedProject_copies project :
  Returns (copiedProject project) (importedProject project).
Proof.
  unfold importedProject. apply FailureProperties.returns_bind; intros newProjectId.
  apply FailureProperties.returns_bind; intros createdAt.
  apply FailureProperties.returns_bind; intros updatedAt.
  eapply returns_bind_with.
  { apply (for_each_copies (copiedBuilding newProjectId)). intros. apply importBuilding_copies. }
  intros buildings (copies & -> & Hcopies).
  apply FailureProperties.returns_ret. by repeat split.
Qed.

Lemma ref_kept_persistImagesIfNeeded images : Keeps w_projectsRef (persistImagesIfNeeded images).
Proof. unfold persistImagesIfNeeded, persist_image. kept. Qed.

Lemma ref_kept_importedProject project : Keeps w_projectsRef (importedProject project).
Proof.
  unfold importedProject, importBuilding, importZone, importShutter, generateUniqueId. kept.
Qed.

Lemma projects_kept_saveNotes ns : Keeps (fun w => projects (w_state w)) (saveNotes ns).
Proof.
  unfold saveNotes, enqueue, saveNotes_task, sanitizeNotesImages, persistImagesIfNeeded,
    persist_image, saveNotesWithUTF8Chunks, cleanupOldChunks, setNotes.
  kept.
Qed.

Lemma saveProjects_returned ps w :
  outcome (saveProjects ps w) = Returned tt ->
  projects (w_state (world_after (saveProjects ps w))) = ps.
Proof.
  unfold saveProjects, enqueue, saveProjects_task, AsyncStorage.setItem, setProjects, outside.
  run. by destruct (w_faults w) as [|[|] fs].
Qed.

(** When [importProject] answers [true], the tree in memory is the tree it
    started from followed by one project: a copy of the project handed in,
    with the same names in the same order, in which every building names
    the new project, every zone its new building and every shutter its new
    zone. *)
Theorem importProject_appends_a_linked_copy (rendered : AppState) (project : Project)
    (relatedNotes : list Note) (w : World) :
  let run := importProject rendered project relatedNotes w in
  outcome run = Returned true ->
  exists imported,
    copiedProject project imported /\
    projects (w_state (world_after run)) = w_projectsRef w ++ [imported].
Proof.
  intros run. assert (run = importProject rendered project relatedNotes w) as Hrun by reflexivity.
  clearbody run. unfold importProject in Hrun.
  set (persistNotes := for_each relatedNotes _ []) in Hrun.
  assert (Keeps w_projectsRef persistNotes) as Hkept1.
  { apply kept_for_each. intros acc note.
    apply kept_bind; [apply ref_kept_persistImagesIfNeeded|intros; apply kept_ret]. }
  unfold try_catch in Hrun. unfold bind at 1 in Hrun.
  specialize (Hkept1 w). unfold world_after in Hkept1.
  destruct (persistNotes w) as [[[ns|] w1] e1]; cbn [fst snd] in Hkept1.
  2:{ subst run. done. }
  unfold bind at 1 in Hrun.
  pose proof (importedProject_copies project w1) as Hcopy.
  pose proof (ref_kept_importedProject project w1) as Hkept2.
  unfold outcome, world_after in Hcopy, Hkept2.
  destruct (importedProject project w1) as [[[imported|] w2] e2]; cbn [fst snd] in *.
  2:{ subst run. done. }
  specialize (Hcopy imported eq_refl).
  unfold bind at 1 in Hrun. unfold get at 1 in Hrun. cbv beta match zeta in Hrun.
  unfold bind at 1 in Hrun. unfold Promise_all_queued in Hrun.
  rewrite Hkept2, Hkept1 in Hrun.
  pose proof (saveProjects_returned (w_projectsRef w ++ [imported]) w2) as Hsaved.
  unfold outcome, world_after in Hsaved.
  destruct (saveProjects (w_projectsRef w ++ [imported]) w2) as [[r3 w3] e3]; cbn [fst snd] in *.
  pose proof (projects_kept_saveNotes (notes rendered ++ ns) w3) as Hkept4.
  unfold world_after in Hkept4. cbv beta in Hkept4.
  destruct (saveNotes (notes rendered ++ ns) w3) as [[r4 w4] e4]; cbn [fst snd] in *.
  destruct r3 as [[]|], r4 as [[]|]; unfold ret in Hrun; cbv beta match zeta in Hrun;
    subst run; unfold outcome, world_after; cbn [fst snd]; intros Htrue; try done.
  exists imported. split; [done|]. rewrite Hkept4. by apply Hsaved.
Qed.

(** *** An import whose tree is not written *)

Lemma internal_ret {A} (a : A) : Internal (ret a).
Proof. intros w. by exists a, w. Qed.

Lemma internal_get {A} (f : World -> A) : Internal (get f).
Proof. intros w. by exists (f w), w. Qed.

Lemma internal_random : Internal Math_random_token.
Proof.
  intros w. unfold Math_random_token. destruct (w_random w) as [|r rs]; eauto 10.
Qed.

Lemma internal_bind {A B} (m : Async A) (k : A -> Async B) :
  Internal m -> (forall a, Internal (k a)) -> Internal (bind m k).
Proof.
  intros Hm Hk w. destruct (Hm w) as (a & w1 & E1 & ? & ? & ? & ?).
  destruct (Hk a w1) as (b & w2 & E2 & ? & ? & ? & ?).
  exists b, w2. unfold bind. rewrite E1, E2. repeat split; congruence.
Qed.

Lemma internal_for_each {A S} (l : list A) (body : S -> A -> Async S) (acc : S) :
  (forall s x, Internal (body s x)) -> Internal (for_each l body acc).
Proof.
  intros Hb. revert acc. induction l as [|x l IH]; intros acc; cbn [for_each].
  - apply internal_ret.
  - apply internal_bind; [apply Hb|intros; apply IH].
Qed.

Lemma internal_generateUniqueId : Internal generateUniqueId.
Proof.
  unfold generateUniqueId, Date_now.
  apply internal_bind; [apply internal_get|intros].
  apply internal_bind; [apply internal_random|intros; apply internal_ret].
Qed.

Lemma internal_importedProject project : Internal (importedProject project).
Proof.
  unfold importedProject, importBuilding, importZone, importShutter, Date_now.
  repeat first
    [ apply internal_ret | apply internal_get | apply internal_generateUniqueId
    | apply internal_for_each; intros | apply internal_bind; [|intros] ].
Qed.

Lemma persist_notes_on_web (relatedNotes acc : list Note) w :
  OS_web = true ->
  for_each relatedNotes
    (fun notesWithPersistedImages note =>
       persistedImages <- persistImagesIfNeeded (n_images note) ;;
       ret (notesWithPersistedImages ++ [with_images persistedImages note]))
    acc w
  = (Returned (acc ++ map webImages relatedNotes), w, []).
Proof.
  intros Hweb. revert acc. induction relatedNotes as [|note rest IH]; intros acc; cbn [for_each map].
  - by rewrite app_nil_r.
  - erewrite bind_returned.
    2:{ erewrite bind_returned.
        2:{ unfold persistImagesIfNeeded. rewrite Hweb.
            instantiate (1 := []). instantiate (1 := w).
            instantiate (1 := match n_images note with
                              | Some (_ :: _) as images => images
                              | _ => None
                              end).
            by destruct (n_images note) as [[|??]|]. }
        reflexivity. }
    rewrite IH. unfold outcome, world_after, events, webImages; cbn [fst snd app].
    by rewrite <- app_assoc.
Qed.

Lemma saveNotes_on_web (ns : list Note) w :
  OS_web = true -> w_faults w = [] ->
  outcome (saveNotes ns w) = Returned tt /\
  w_state (world_after (saveNotes ns w)) = with_notes ns (w_state w).
Proof.
  intros Hweb Hf.
  assert (sanitizeNotesImages ns w = (Returned ns, w, [])) as Hs.
  { unfold sanitizeNotesImages. by rewrite Hweb. }
  destruct (Z_le_gt_dec (Z.of_nat (length (JSON_stringify_notes ns))) (500 * 1024)) as [Hle|Hgt].
  - by rewrite (NotesProperties.saveNotes_direct_run ns ns w w [] Hf Hs Hle).
  - by rewrite (NotesProperties.saveNotes_chunked_run ns ns w w [] Hf Hs Hgt).
Qed.

(** An import is not all or nothing.  On the web, when the write of the tree
    fails and nothing else does, [importProject] answers [false] and the
    tree in memory is as before, but the imported notes have been saved and
    are in memory, after the notes that were there. *)
Theorem importProject_failed_tree_write_keeps_notes (rendered : AppState) (project : Project)
    (relatedNotes : list Note) (w : World) :
  OS_web = true ->
  w_faults w = [true] ->
  let run := importProject rendered project relatedNotes w in
  outcome run = Returned false /\
  projects (w_state (world_after run)) = projects (w_state w) /\
  notes (w_state (world_after run)) = notes rendered ++ map webImages relatedNotes.
Proof.
  intros Hweb Hf run.
  assert (run = importProject rendered project relatedNotes w) as Hrun by reflexivity.
  clearbody run. unfold importProject in Hrun.
  unfold try_catch in Hrun. unfold bind at 1 in Hrun.
  rewrite (persist_notes_on_web relatedNotes [] w Hweb) in Hrun.
  unfold bind at 1 in Hrun.
  destruct (internal_importedProject project w) as (imported & w2 & E2 & Hf2 & _ & Hstate2 & Href2).
  rewrite E2 in Hrun.
  unfold bind at 1 in Hrun. unfold get at 1 in Hrun. cbv beta match zeta in Hrun.
  unfold bind at 1 in Hrun. unfold Promise_all_queued in Hrun.
  assert (saveProjects (w_projectsRef w2 ++ [imported]) w2
          = (Thrown, with_faults [] w2,
             [mkEvent (SetItem PROJECTS (JSON_stringify_projects (w_projectsRef w2 ++ [imported])))
                true])) as E3.
  { unfold saveProjects, enqueue, saveProjects_task, AsyncStorage.setItem, setProjects, outside.
    run. rewrite Hf2, Hf. reflexivity. }
  rewrite E3 in Hrun.
  destruct (saveNotes_on_web (notes rendered ++ ([] ++ map webImages relatedNotes))
              (with_faults [] w2) Hweb eq_refl) as [Ho4 Hs4].
  unfold outcome, world_after in Ho4, Hs4.
  destruct (saveNotes _ (with_faults [] w2)) as [[r4 w4] e4]. cbn [fst snd] in Ho4, Hs4.
  subst r4. unfold ret in Hrun. cbv beta match zeta in Hrun. subst run.
  unfold outcome, world_after; cbn [fst snd]. rewrite Hs4.
  cbn [w_state with_faults projects notes with_notes]. by rewrite Hstate2.
Qed.

(** *** Preferences: favourites and history *)

Lemma swallowed_write (key : string) (value : jsstring) (f : AppState -> AppState) w fs :
  w_faults w = true :: fs ->
  (safeStorageOperation (AsyncStorage.setItem key value) tt ;;; modify (with_state f)) w
  = (Returned tt, with_state f (with_faults fs w), [mkEvent (SetItem key value) true]).
Proof.
  intros Hf. unfold safeStorageOperation, AsyncStorage.setItem, outside. run. by rewrite Hf.
Qed.

(** A failed write of the favourites or of the history is not reported:
    each of these operations returns, the store keeps what it held, and the
    state takes the new value nevertheless. *)
Theorem preference_write_fails_silently (rendered : AppState) (w : World) (fs : list bool) :
  w_faults w = true :: fs ->
  (forall favorites,
     let run := setFavoriteProjects favorites w in
     outcome run = Returned tt /\ w_store (world_after run) = w_store w /\
     favoriteProjects (w_state (world_after run)) = favorites) /\
  (forall favorites,
     let run := setFavoriteBuildings favorites w in
     outcome run = Returned tt /\ w_store (world_after run) = w_store w /\
     favoriteBuildings (w_state (world_after run)) = favorites) /\
  (forall favorites,
     let run := setFavoriteZones favorites w in
     outcome run = Returned tt /\ w_store (world_after run) = w_store w /\
     favoriteZones (w_state (world_after run)) = favorites) /\
  (forall favorites,
     let run := setFavoriteShutters favorites w in
     outcome run = Returned tt /\ w_store (world_after run) = w_store w /\
     favoriteShutters (w_state (world_after run)) = favorites) /\
  (forall favorites,
     let run := setFavoriteNotes favorites w in
     outcome run = Returned tt /\ w_store (world_after run) = w_store w /\
     favoriteNotes (w_state (world_after run)) = favorites) /\
  (let run := clearQuickCalcHistory w in
   outcome run = Returned tt /\ w_store (world_after run) = w_store w /\
   quickCalcHistory (w_state (world_after run)) = []) /\
  (forall itemId,
     let run := removeQuickCalcHistoryItem rendered itemId w in
     outcome run = Returned tt /\ w_store (world_after run) = w_store w /\
     quickCalcHistory (w_state (world_after run))
     = List.filter (fun item => negb (eqb (h_id item) itemId)) (quickCalcHistory rendered)).
Proof.
  intros Hf.
  repeat split; try intros x; cbv zeta;
    unfold setFavoriteProjects, setFavoriteBuildings, setFavoriteZones, setFavoriteShutters,
      setFavoriteNotes, clearQuickCalcHistory, removeQuickCalcHistoryItem,
      setFavoriteProjectsState, setFavoriteBuildingsState, setFavoriteZonesState,
      setFavoriteShuttersState, setFavoriteNotesState, setQuickCalcHistoryState;
    by rewrite (swallowed_write _ _ _ w fs Hf).
Qed.

(** *** Loading the notes *)

Lemma reads_ret {A} (a : A) : ReadsOnly (ret a).
Proof. intros w ev H. by apply not_elem_of_nil in H. Qed.

Lemma reads_get {A} (f : World -> A) : ReadsOnly (get f).
Proof. intros w ev H. by apply not_elem_of_nil in H. Qed.

Lemma reads_modify f : ReadsOnly (modify f).
Proof. intros w ev H. by apply not_elem_of_nil in H. Qed.

Lemma reads_throw {A} : ReadsOnly (@throw A).
Proof. intros w ev H. by apply not_elem_of_nil in H. Qed.

Lemma reads_getItem key : ReadsOnly (AsyncStorage.getItem key).
Proof.
  intros w ev H. unfold AsyncStorage.getItem, outside, events in H.
  destruct (w_faults w) as [|[|] fs]; cbn [snd] in H;
    apply list_elem_of_singleton in H as ->; by exists key.
Qed.

Lemma reads_bind {A B} (m : Async A) (k : A -> Async B) :
  ReadsOnly m -> (forall a, ReadsOnly (k a)) -> ReadsOnly (bind m k).
Proof.
  intros Hm Hk w ev. specialize (Hm w). unfold bind, events in *.
  destruct (m w) as [[[a|] w1] e1]; cbn [snd] in *; [|apply Hm].
  specialize (Hk a w1). unfold events in Hk.
  destruct (k a w1) as [[r w2] e2]; cbn [snd] in *.
  intros [H|H]%elem_of_app; eauto.
Qed.

Lemma reads_try {A} (body handler : Async A) :
  ReadsOnly body -> ReadsOnly handler -> ReadsOnly (try_catch body handler).
Proof.
  intros Hb Hh w ev. specialize (Hb w). unfold try_catch, events in *.
  destruct (body w) as [[[a|] w1] e1]; cbn [snd] in *; [apply Hb|].
  specialize (Hh w1). unfold events in Hh.
  destruct (handler w1) as [[r w2] e2]; cbn [snd] in *.
  intros [H|H]%elem_of_app; eauto.
Qed.

Lemma reads_for_each {A S} (l : list A) (body : S -> A -> Async S) (acc : S) :
  (forall s x, ReadsOnly (body s x)) -> ReadsOnly (for_each l body acc).
Proof.
  intros Hb. revert acc. induction l as [|x l IH]; intros acc; cbn [for_each].
  - apply reads_ret.
  - apply reads_bind; [apply Hb|intros; apply IH].
Qed.

Ltac reads_step :=
  lazymatch goal with
  | |- ReadsOnly (match ?x with _ => _ end) => destruct x
  | |- ReadsOnly (AsyncStorage.getItem _) => apply reads_getItem
  | |- ReadsOnly Date_now => apply reads_get
  | |- ReadsOnly (ret _) => apply reads_ret
  | |- ReadsOnly throw => apply reads_throw
  | |- ReadsOnly (get _) => apply reads_get
  | |- ReadsOnly (modify _) => apply reads_modify
  | |- ReadsOnly (for_each _ _ _) => apply reads_for_each; intros
  | |- ReadsOnly (bind _ _) => apply reads_bind; [|intros]
  | |- ReadsOnly (try_catch _ _) => apply reads_try
  end.

(** Loading the notes never rejects, whatever the store holds and whichever
    read fails; it calls nothing but reads of the store, and it leaves the
    store and the tree in memory as they were. *)
Theorem initializeStorage_notes_only_reads (w : World) :
  let run := initializeStorage_notes w in
  outcome run = Returned tt /\
  (forall ev, ev ∈ events run -> exists key, ev_call ev = GetItem key) /\
  w_store (world_after run) = w_store w /\
  projects (w_state (world_after run)) = projects (w_state w).
Proof.
  intros run. split; [|split; [|split]].
  - assert (outcome run <> Thrown) as Hnever.
    { apply FailureProperties.never_bind.
      - apply FailureProperties.never_try, FailureProperties.never_ret.
      - intros notesData. apply FailureProperties.never_try, FailureProperties.never_modify. }
    by destruct (outcome run) as [[]|].
  - assert (ReadsOnly initializeStorage_notes) as Hreads; [|apply Hreads].
    unfold initializeStorage_notes, safeStorageOperation, loadLegacyChunks, setNotes.
    cbv zeta. repeat reads_step.
  - assert (Keeps w_store initializeStorage_notes) as Hkept; [|apply Hkept].
    unfold initializeStorage_notes, safeStorageOperation, loadLegacyChunks, setNotes. kept.
  - assert (Keeps (fun w => projects (w_state w)) initializeStorage_notes) as Hkept;
      [|apply Hkept].
    unfold initializeStorage_notes, safeStorageOperation, loadLegacyChunks, setNotes. kept.
Qed.

End WithRuntime.
End ProviderProperties.

(** ** The provider with module variables: a write that fails *)

Module ModuleStateProperties.
Import JsString Data Platform Vocabulary AsyncFacts.

Section WithRuntime.
Context {rt : Runtime}.

(** In the provider with module variables a failed write of the history is
    reported, but the change has been made in memory already: each history
    operation rejects, the store keeps what it held, and the history in
    memory is the new one. *)
Theorem module_state_history_changes_before_it_writes (item : HistoryData) (itemId : jsstring)
    (w : World) (fs : list bool) :
  w_faults w = true :: fs ->
  (let run := ModuleStateProvider.addQuickCalcHistory item w in
   outcome run = Thrown /\ w_store (world_after run) = w_store w /\
   exists newItem,
     quickCalcHistory (w_state (world_after run))
     = take 5 (newItem :: quickCalcHistory (w_state w))) /\
  (let run := ModuleStateProvider.clearQuickCalcHistory w in
   outcome run = Thrown /\ w_store (world_after run) = w_store w /\
   quickCalcHistory (w_state (world_after run)) = []) /\
  (let run := ModuleStateProvider.removeQuickCalcHistoryItem itemId w in
   outcome run = Thrown /\ w_store (world_after run) = w_store w /\
   quickCalcHistory (w_state (world_after run))
   = List.filter (fun item => negb (eqb (h_id item) itemId)) (quickCalcHistory (w_state w))).
Proof.
  intros Hf.
  unfold ModuleStateProvider.addQuickCalcHistory, ModuleStateProvider.clearQuickCalcHistory,
    ModuleStateProvider.removeQuickCalcHistoryItem, ModuleStateProvider.saveQuickCalcHistory,
    StorageContext.generateUniqueId, AsyncStorage.setItem, Math_random_token, outside.
  run. split; [|split].
  - destruct (w_random w) as [|r rs]; cbn [w_faults with_random with_state];
      rewrite Hf; cbn -[take js decimal]; eauto.
  - cbn [w_faults with_state]. rewrite Hf. by cbn.
  - cbn [w_faults with_state]. rewrite Hf. by cbn.
Qed.

End WithRuntime.
End ModuleStateProperties.

(** ** One shutter at a time: where it is found and what changes *)

Module TreeProperties.
Import JsString Data Platform ImageStorage StorageContext STORAGE_KEYS Vocabulary AsyncFacts.

Local Abbreviation zoneShutters := (flat_map z_shutters).
Local Abbreviation buildingShutters :=
  (flat_map (fun building => flat_map z_shutters (b_functionalZones building))).
Local Abbreviation buildingZones := (flat_map b_functionalZones).

(** *** The searches *)

Lemma eqb_true (a b : jsstring) : eqb a b = true <-> a = b.
Proof. unfold eqb. apply bool_decide_eq_true. Qed.

Lemma eqb_false (a b : jsstring) : eqb a b = false <-> a <> b.
Proof. unfold eqb. apply bool_decide_eq_false. Qed.

Lemma findIndex_Some {A} (p : A -> bool) (l : list A) (i : nat) (x : A) :
  findIndex p l = Some (i, x) ->
  exists l1 l2, l = l1 ++ x :: l2 /\ i = length l1 /\ p x = true /\
    Forall (fun y => p y = false) l1.
Proof.
  revert i. induction l as [|y l IH]; intros i H; simpl in H; [done|].
  destruct (p y) eqn:Hy.
  - injection H as <- <-. exists [], l. by repeat split.
  - destruct (findIndex p l) as [[j z]|]; [|done]. injection H as <- <-.
    destruct (IH j eq_refl) as (l1 & l2 & -> & -> & Hx & Hl1).
    exists (y :: l1), l2. repeat split; [done|]. by constructor.
Qed.

Lemma findIndex_None {A} (p : A -> bool) (l : list A) :
  findIndex p l = None -> Forall (fun y => p y = false) l.
Proof.
  induction l as [|y l IH]; intros H; simpl in H; [constructor|].
  destruct (p y) eqn:Hy; [done|].
  destruct (findIndex p l) as [[j z]|]; [done|]. constructor; auto.
Qed.

Lemma first_from_Some {A B} (f : nat -> A -> option B) (i : nat) (l : list A) (b : B) :
  first_from i f l = Some b ->
  exists l1 x l2, l = l1 ++ x :: l2 /\ f (i + length l1)%nat x = Some b /\
    forall k y, l1 !! k = Some y -> f (i + k)%nat y = None.
Proof.
  revert i. induction l as [|y l IH]; intros i H; simpl in H; [done|].
  destruct (f i y) as [b'|] eqn:Hy.
  - injection H as <-. exists [], y, l. split; [done|]. split.
    + simpl. by rewrite Nat.add_0_r.
    + intros k z Hk. done.
  - destruct (IH (S i) H) as (l1 & x & l2 & -> & Hx & Hl1).
    exists (y :: l1), x, l2. split; [done|]. split.
    + simpl. by rewrite Nat.add_succ_r.
    + intros [|k] z Hk; simpl in Hk.
      * injection Hk as <-. by rewrite Nat.add_0_r.
      * rewrite Nat.add_succ_r. by apply Hl1.
Qed.

Lemma first_from_None {A B} (f : nat -> A -> option B) (i : nat) (l : list A) :
  first_from i f l = None -> forall k y, l !! k = Some y -> f (i + k)%nat y = None.
Proof.
  revert i. induction l as [|x l IH]; intros i H k y Hk; simpl in H; [done|].
  destruct (f i x) as [b'|] eqn:Hx; [done|].
  destruct k as [|k]; simpl in Hk.
  - injection Hk as <-. by rewrite Nat.add_0_r.
  - rewrite Nat.add_succ_r. by apply (IH (S i)).
Qed.

Lemma flat_map_Forall {A B} (P : B -> Prop) (f : A -> list B) (l : list A) :
  (forall k y, l !! k = Some y -> Forall P (f y)) -> Forall P (flat_map f l).
Proof.
  induction l as [|x l IH]; intros H; simpl; [constructor|].
  apply Forall_app. split; [apply (H 0%nat); done|].
  apply IH. intros k y Hk. by apply (H (S k)).
Qed.

Section Without.
Context {B : Type} (id : jsstring).

Lemma shutters_without (ss : list Shutter) :
  findIndex (fun s => eqb (s_id s) id) ss = None -> Forall (fun s => s_id s <> id) ss.
Proof.
  intros H%findIndex_None. eapply Forall_impl; [exact H|].
  intros s Hs. by apply eqb_false.
Qed.

Lemma zones_without (make : nat -> FunctionalZone -> nat * Shutter -> B) (i : nat)
    (zs : list FunctionalZone) :
  first_from i
    (fun k zone =>
       match findIndex (fun s => eqb (s_id s) id) (z_shutters zone) with
       | Some found => Some (make k zone found)
       | None => None
       end) zs = None ->
  Forall (fun s => s_id s <> id) (zoneShutters zs).
Proof.
  intros H. apply flat_map_Forall. intros k zone Hk.
  pose proof (first_from_None _ _ _ H k zone Hk) as Hzone. cbv beta in Hzone.
  destruct (findIndex _ (z_shutters zone)) eqn:E; [done|]. by apply shutters_without.
Qed.

End Without.

(** Where [locateShutter] stops: at the first shutter of the tree that has
    the identifier. *)
Lemma locateShutter_Some (ps : list Project) (id : jsstring) i project j building k zone n shutter :
  locateShutter ps id = Some (i, project, (j, building), (k, zone), (n, shutter)) ->
  exists ps1 ps2 bs1 bs2 zs1 zs2 ss1 ss2,
    ps = ps1 ++ project :: ps2 /\ i = length ps1 /\
    p_buildings project = bs1 ++ building :: bs2 /\ j = length bs1 /\
    b_functionalZones building = zs1 ++ zone :: zs2 /\ k = length zs1 /\
    z_shutters zone = ss1 ++ shutter :: ss2 /\ n = length ss1 /\
    s_id shutter = id /\
    Forall (fun s => s_id s <> id)
      (shuttersOf ps1 ++ buildingShutters bs1 ++ zoneShutters zs1 ++ ss1).
Proof.
  unfold locateShutter, first_index. intros H.
  apply first_from_Some in H as (ps1 & project' & ps2 & -> & H & Hps1).
  apply first_from_Some in H as (bs1 & building' & bs2 & Hbs & H & Hbs1).
  apply first_from_Some in H as (zs1 & zone' & zs2 & Hzs & H & Hzs1).
  destruct (findIndex _ (z_shutters zone')) as [[n' shutter']|] eqn:Hfind; [|done].
  injection H as <- <- <- <- <- <- <- <-.
  apply findIndex_Some in Hfind as (ss1 & ss2 & Hss & -> & Hid & Hss1).
  exists ps1, ps2, bs1, bs2, zs1, zs2, ss1, ss2.
  repeat split; try done.
  - by apply eqb_true.
  - apply Forall_app_2; [|apply Forall_app_2; [|apply Forall_app_2]].
    + apply flat_map_Forall. intros a p Ha. specialize (Hps1 a p Ha). cbv beta in Hps1.
      apply flat_map_Forall. intros b bd Hb.
      pose proof (first_from_None _ _ _ Hps1 b bd Hb) as Hbd. cbv beta in Hbd.
      eapply zones_without; exact Hbd.
    + apply flat_map_Forall. intros b bd Hb. specialize (Hbs1 b bd Hb). cbv beta in Hbs1.
      eapply zones_without; exact Hbs1.
    + apply flat_map_Forall. intros c z Hc. specialize (Hzs1 c z Hc). cbv beta in Hzs1.
      destruct (findIndex _ (z_shutters z)) eqn:E; [done|]. by apply shutters_without.
    + eapply Forall_impl; [exact Hss1|]. intros s Hs. by apply eqb_false.
Qed.

(** *** The tree that is rebuilt *)

Lemma replace_at_middle {A} (l1 l2 : list A) (x y : A) :
  replace_at (length l1) y (l1 ++ x :: l2) = l1 ++ y :: l2.
Proof.
  unfold replace_at. rewrite take_app_length.
  replace (S (length l1)) with (length l1 + 1)%nat by lia.
  by rewrite drop_app_add.
Qed.

Lemma insert_middle {A} (l1 l2 : list A) (x y : A) :
  <[length l1 := y]> (l1 ++ x :: l2) = l1 ++ y :: l2.
Proof.
  replace (length l1) with (length l1 + 0)%nat at 1 by lia. by rewrite insert_app_r.
Qed.

Lemma shutters_after_rebuild (now : Z) ps1 project ps2 bs1 building bs2 zs1 zone zs2
    (shutters : list Shutter) :
  p_buildings project = bs1 ++ building :: bs2 ->
  b_functionalZones building = zs1 ++ zone :: zs2 ->
  shuttersOf (<[length ps1 := rebuild_shutters now project (length bs1) building (length zs1)
                                zone shutters]> (ps1 ++ project :: ps2))
  = (shuttersOf ps1 ++ buildingShutters bs1 ++ zoneShutters zs1)
    ++ shutters ++ (zoneShutters zs2 ++ buildingShutters bs2 ++ shuttersOf ps2).
Proof.
  intros Hbs Hzs. rewrite insert_middle.
  unfold shuttersOf, rebuild_shutters, rebuild_zones.
  rewrite flat_map_app. cbn [flat_map p_buildings with_p_updatedAt with_buildings].
  rewrite Hbs, replace_at_middle, flat_map_app.
  cbn [flat_map b_functionalZones with_functionalZones].
  rewrite Hzs, replace_at_middle, flat_map_app.
  cbn [flat_map z_shutters with_shutters].
  by rewrite <- !app_assoc.
Qed.

Lemma shutters_before_rebuild ps1 project ps2 bs1 building bs2 zs1 zone zs2 :
  p_buildings project = bs1 ++ building :: bs2 ->
  b_functionalZones building = zs1 ++ zone :: zs2 ->
  shuttersOf (ps1 ++ project :: ps2)
  = (shuttersOf ps1 ++ buildingShutters bs1 ++ zoneShutters zs1)
    ++ z_shutters zone ++ (zoneShutters zs2 ++ buildingShutters bs2 ++ shuttersOf ps2).
Proof.
  intros Hbs Hzs. unfold shuttersOf.
  rewrite flat_map_app. cbn [flat_map]. rewrite Hbs, flat_map_app. cbn [flat_map].
  rewrite Hzs, flat_map_app. cbn [flat_map]. by rewrite <- !app_assoc.
Qed.

(** *** The zones of a tree *)

Lemma flat_map_flat_map {A B C} (f : A -> list B) (g : B -> list C) (l : list A) :
  flat_map g (flat_map f l) = flat_map (fun x => flat_map g (f x)) l.
Proof. induction l as [|x l IH]; simpl; [done|]. by rewrite flat_map_app, IH. Qed.

(** The shutters of a tree are those of its zones, in the order of the
    zones. *)
Lemma shuttersOf_zonesOf (ps : list Project) : shuttersOf ps = zoneShutters (zonesOf ps).
Proof.
  unfold shuttersOf, zonesOf. rewrite flat_map_flat_map.
  apply flat_map_ext. intros project. by rewrite flat_map_flat_map.
Qed.

Lemma zones_before_rebuild ps1 project ps2 bs1 building bs2 zs1 zone zs2 :
  p_buildings project = bs1 ++ building :: bs2 ->
  b_functionalZones building = zs1 ++ zone :: zs2 ->
  zonesOf (ps1 ++ project :: ps2)
  = (zonesOf ps1 ++ buildingZones bs1 ++ zs1)
    ++ zone :: (zs2 ++ buildingZones bs2 ++ zonesOf ps2).
Proof.
  intros Hbs Hzs. unfold zonesOf.
  rewrite flat_map_app. cbn [flat_map]. rewrite Hbs, flat_map_app. cbn [flat_map].
  rewrite Hzs. by rewrite <- !app_assoc.
Qed.

Lemma zones_after_rebuild (now : Z) ps1 project ps2 bs1 building bs2 zs1 zone zs2
    (shutters : list Shutter) :
  p_buildings project = bs1 ++ building :: bs2 ->
  b_functionalZones building = zs1 ++ zone :: zs2 ->
  zonesOf (<[length ps1 := rebuild_shutters now project (length bs1) building (length zs1)
                             zone shutters]> (ps1 ++ project :: ps2))
  = (zonesOf ps1 ++ buildingZones bs1 ++ zs1)
    ++ mkZone (z_id zone) (z_buildingId zone) (z_name zone) (z_createdAt zone) shutters
       :: (zs2 ++ buildingZones bs2 ++ zonesOf ps2).
Proof.
  intros Hbs Hzs. rewrite insert_middle.
  unfold zonesOf, rebuild_shutters, rebuild_zones.
  rewrite flat_map_app. cbn [flat_map p_buildings with_p_updatedAt with_buildings].
  rewrite Hbs, replace_at_middle, flat_map_app.
  cbn [flat_map b_functionalZones with_functionalZones].
  rewrite Hzs, replace_at_middle. unfold with_shutters.
  by rewrite <- !app_assoc.
Qed.

(** Where [locateZone] stops: at the first zone of the tree that has the
    identifier. *)
Lemma locateZone_first (ps : list Project) (id : jsstring) i project j building k zone :
  locateZone ps id = Some (i, project, (j, building), (k, zone)) ->
  exists ps1 ps2 bs1 bs2 zs1 zs2,
    ps = ps1 ++ project :: ps2 /\ i = length ps1 /\
    p_buildings project = bs1 ++ building :: bs2 /\ j = length bs1 /\
    b_functionalZones building = zs1 ++ zone :: zs2 /\ k = length zs1 /\
    z_id zone = id /\
    Forall (fun z => z_id z <> id) (zonesOf ps1 ++ buildingZones bs1 ++ zs1).
Proof.
  unfold locateZone, first_index. intros H.
  apply first_from_Some in H as (ps1 & project' & ps2 & -> & H & Hps1).
  apply first_from_Some in H as (bs1 & building' & bs2 & Hbs & H & Hbs1).
  destruct (findIndex _ (b_functionalZones building')) as [[k' zone']|] eqn:Hfind; [|done].
  injection H as <- <- <- <- <- <-.
  apply findIndex_Some in Hfind as (zs1 & zs2 & Hzs & -> & Hid & Hzs1).
  exists ps1, ps2, bs1, bs2, zs1, zs2. repeat split; try done; [by apply eqb_true|].
  assert (forall bd : Building,
            findIndex (fun z => eqb (z_id z) id) (b_functionalZones bd) = None ->
            Forall (fun z => z_id z <> id) (b_functionalZones bd)) as Hnone.
  { intros bd Hbd%findIndex_None. eapply Forall_impl; [exact Hbd|].
    intros z Hz. by apply eqb_false. }
  apply Forall_app_2; [|apply Forall_app_2].
  - apply flat_map_Forall. intros a p Ha. specialize (Hps1 a p Ha). cbv beta in Hps1.
    apply flat_map_Forall. intros b bd Hb.
    pose proof (first_from_None _ _ _ Hps1 b bd Hb) as Hbd. cbv beta in Hbd.
    apply Hnone. by destruct (findIndex _ (b_functionalZones bd)).
  - apply flat_map_Forall. intros b bd Hb. specialize (Hbs1 b bd Hb). cbv beta in Hbs1.
    apply Hnone. by destruct (findIndex _ (b_functionalZones bd)).
  - eapply Forall_impl; [exact Hzs1|]. intros z Hz. by apply eqb_false.
Qed.

(** *** Identifiers that the tree does not hold *)

Lemma absent_Forall {A} (key : A -> jsstring) (id : jsstring) (l : list A) :
  id ∉ map key l <-> Forall (fun x => key x <> id) l.
Proof.
  rewrite Forall_forall. split.
  - intros H x Hx E. apply H. rewrite <- E. by apply list_elem_of_fmap_2.
  - intros H (x & -> & Hx)%list_elem_of_fmap. by apply (H x).
Qed.

Lemma findIndex_absent {A} (key : A -> jsstring) (id : jsstring) (l : list A) :
  id ∉ map key l -> findIndex (fun x => eqb (key x) id) l = None.
Proof.
  intros H%absent_Forall. induction H as [|x l Hx _ IH]; simpl; [done|].
  apply eqb_false in Hx. by rewrite Hx, IH.
Qed.

Lemma first_from_absent {A B} (f : nat -> A -> option B) (i : nat) (l : list A) :
  Forall (fun y => forall k, f k y = None) l -> first_from i f l = None.
Proof.
  intros H. revert i. induction H as [|y l Hy _ IH]; intros i; simpl; [done|].
  by rewrite Hy.
Qed.

Lemma locateBuilding_absent (ps : list Project) (id : jsstring) :
  id ∉ map b_id (buildingsOf ps) -> locateBuilding ps id = None.
Proof.
  intros H%absent_Forall. unfold buildingsOf in H. apply Forall_flat_map in H.
  apply first_from_absent. eapply Forall_impl; [exact H|].
  intros project Hp k. cbv beta in *.
  by rewrite (findIndex_absent b_id) by (by apply absent_Forall).
Qed.

Lemma locateZone_absent (ps : list Project) (id : jsstring) :
  id ∉ map z_id (zonesOf ps) -> locateZone ps id = None.
Proof.
  intros H%absent_Forall. unfold zonesOf in H. apply Forall_flat_map in H.
  apply first_from_absent. eapply Forall_impl; [exact H|].
  intros project Hp i. cbv beta in *. apply Forall_flat_map in Hp.
  apply first_from_absent. eapply Forall_impl; [exact Hp|].
  intros building Hb j. cbv beta in *.
  by rewrite (findIndex_absent z_id) by (by apply absent_Forall).
Qed.

Lemma locateShutter_absent (ps : list Project) (id : jsstring) :
  id ∉ map s_id (shuttersOf ps) -> locateShutter ps id = None.
Proof.
  intros H%absent_Forall. unfold shuttersOf in H. apply Forall_flat_map in H.
  apply first_from_absent. eapply Forall_impl; [exact H|].
  intros project Hp i. cbv beta in *. apply Forall_flat_map in Hp.
  apply first_from_absent. eapply Forall_impl; [exact Hp|].
  intros building Hb j. cbv beta in *. apply Forall_flat_map in Hb.
  apply first_from_absent. eapply Forall_impl; [exact Hb|].
  intros zone Hz k. cbv beta in *.
  by rewrite (findIndex_absent s_id) by (by apply absent_Forall).
Qed.

Lemma locateShutter_None (ps : list Project) (id : jsstring) :
  locateShutter ps id = None -> id ∉ map s_id (shuttersOf ps).
Proof.
  unfold locateShutter, first_index. intros H. apply absent_Forall.
  apply flat_map_Forall. intros a p Ha.
  pose proof (first_from_None _ _ _ H a p Ha) as Hp. cbv beta in Hp.
  apply flat_map_Forall. intros b bd Hb.
  pose proof (first_from_None _ _ _ Hp b bd Hb) as Hbd. cbv beta in Hbd.
  eapply zones_without; exact Hbd.
Qed.

Section WithRuntime.
Context {rt : Runtime}.

Lemma saveProjects_done (ps : list Project) w :
  outcome (saveProjects ps w) = Returned tt ->
  projects (w_state (world_after (saveProjects ps w))) = ps /\
  w_store (world_after (saveProjects ps w)) !! PROJECTS = Some (JSON_stringify_projects ps) /\
  favoriteShutters (w_state (world_after (saveProjects ps w))) = favoriteShutters (w_state w).
Proof.
  unfold saveProjects, enqueue, saveProjects_task, AsyncStorage.setItem, setProjects, outside.
  run. destruct (w_faults w) as [|[|] fs]; cbn [fst snd]; [|done|]; intros _;
    cbn [w_state w_store with_state with_store with_faults projects with_projects
         favoriteShutters];
    by rewrite lookup_insert_eq.
Qed.

(** *** [updateShutter] *)

Lemma updateShutter_run (shutterId : jsstring) (updates : Shutter -> Shutter)
    (w : World) (updated : Shutter) :
  let run := updateShutter shutterId updates w in
  outcome run = Returned (Some updated) ->
  exists before original after,
    shuttersOf (w_projectsRef w) = before ++ original :: after /\
    s_id original = shutterId /\
    Forall (fun s => s_id s <> shutterId) before /\
    updated = with_s_updatedAt (w_now w) (updates original) /\
    shuttersOf (projects (w_state (world_after run))) = before ++ updated :: after /\
    w_store (world_after run) !! PROJECTS
    = Some (JSON_stringify_projects (projects (w_state (world_after run)))).
Proof.
  intros run. assert (run = updateShutter shutterId updates w) as Hrun by reflexivity.
  clearbody run. unfold updateShutter, updateShutter_snapshot in Hrun.
  unfold bind at 1 in Hrun. unfold get at 1 in Hrun. cbv beta match zeta in Hrun.
  unfold bind at 1 in Hrun. unfold Date_now, get at 1 in Hrun. cbv beta match zeta in Hrun.
  destruct (locateShutter (w_projectsRef w) shutterId)
    as [[[[[i project] [j building]] [k zone]] [n shutter]]|] eqn:Hlocate.
  2:{ subst run. done. }
  apply locateShutter_Some in Hlocate
    as (ps1 & ps2 & bs1 & bs2 & zs1 & zs2 & ss1 & ss2 &
        Hps & -> & Hbs & -> & Hzs & -> & Hss & -> & Hid & Hfirst).
  cbv beta match zeta in Hrun. unfold bind at 1 in Hrun.
  match type of Hrun with
  | context [saveProjects ?ps w] =>
      pose proof (saveProjects_done ps w) as Hdone; unfold outcome, world_after in Hdone;
      destruct (saveProjects ps w) as [[[[]|] w1] e1]
  end.
  2:{ subst run. done. }
  unfold ret in Hrun. cbv beta match zeta in Hrun. subst run.
  unfold outcome, world_after. cbn [fst snd] in *. intros [= <-].
  destruct (Hdone eq_refl) as (Hprojects & Hstored & _).
  exists ((shuttersOf ps1 ++ buildingShutters bs1 ++ zoneShutters zs1) ++ ss1), shutter,
    (ss2 ++ (zoneShutters zs2 ++ buildingShutters bs2 ++ shuttersOf ps2)).
  split.
  { rewrite Hps, (shutters_before_rebuild _ _ _ _ _ _ _ _ _ Hbs Hzs), Hss.
    by rewrite <- !app_assoc. }
  split; [done|]. split; [by rewrite <- !app_assoc|]. split; [done|].
  split; [|by rewrite Hstored, Hprojects].
  rewrite Hprojects, Hps, (shutters_after_rebuild _ _ _ _ _ _ _ _ _ _ _ Hbs Hzs).
  rewrite Hss, replace_at_middle. by rewrite <- !app_assoc.
Qed.

(** When [updateShutter] answers with a shutter, exactly one shutter of the
    tree has changed: the first one, in the order of the tree, that has the
    identifier.  Its place is taken by the updated shutter, all others stay
    where they were, and the stored document is the new tree. *)
Theorem updateShutter_changes_one_shutter (shutterId : jsstring) (updates : Shutter -> Shutter)
    (w : World) (updated : Shutter) :
  let run := updateShutter shutterId updates w in
  outcome run = Returned (Some updated) ->
  exists before original after,
    shuttersOf (w_projectsRef w) = before ++ original :: after /\
    s_id original = shutterId /\
    Forall (fun s => s_id s <> shutterId) before /\
    updated = with_s_updatedAt (w_now w) (updates original) /\
    shuttersOf (projects (w_state (world_after run))) = before ++ updated :: after /\
    w_store (world_after run) !! PROJECTS
    = Some (JSON_stringify_projects (projects (w_state (world_after run)))).
Proof. apply updateShutter_run. Qed.

(** Two updates made in turn both last: when the second call is made after
    the first has answered and the screen has rendered again, and the first
    updated shutter does not carry the identifier of the second, the tree in
    memory holds both updated shutters. *)
Theorem updates_in_turn_both_last (idA idB : jsstring) (onA onB : Shutter -> Shutter)
    (w : World) (updatedA updatedB : Shutter) :
  let first := updateShutter idA onA w in
  let second := updateShutter idB onB (commitRender (world_after first)) in
  outcome first = Returned (Some updatedA) ->
  outcome second = Returned (Some updatedB) ->
  s_id updatedA <> idB ->
  updatedA ∈ shuttersOf (projects (w_state (world_after second))) /\
  updatedB ∈ shuttersOf (projects (w_state (world_after second))).
Proof.
  intros first second HA HB Hid.
  destruct (updateShutter_run idA onA w updatedA HA)
    as (before & original & after & _ & _ & _ & _ & Hfirst & _).
  destruct (updateShutter_run idB onB (commitRender (world_after first)) updatedB HB)
    as (before' & original' & after' & Href & Hid' & _ & _ & Hsecond & _).
  fold first in Hfirst. fold second in Hsecond.
  unfold commitRender in Href. cbn [w_projectsRef with_projectsRef] in Href.
  rewrite Hsecond. split; [|apply elem_of_app; right; left].
  assert (updatedA ∈ before' ++ original' :: after') as Hin.
  { rewrite <- Href, Hfirst. apply elem_of_app. right. left. }
  apply elem_of_app in Hin as [Hin|Hin]; [apply elem_of_app; by left|].
  apply elem_of_cons in Hin as [->|Hin]; [done|].
  apply elem_of_app. right. by right.
Qed.

(** *** [createShutter] *)

(** When [createShutter] answers with a shutter, one zone of the tree has
    changed: the first one, in the order of the tree, that has the given
    identifier.  It has the shutters it had, followed by the new one; every
    other zone is as it was.  The new shutter names the zone and carries the
    name and the remarks that were given, and the stored document is the new
    tree. *)
Theorem createShutter_appends_to_its_zone (zoneId : jsstring) (shutterData : ShutterData)
    (w : World) (created : Shutter) :
  let run := createShutter zoneId shutterData w in
  outcome run = Returned (Some created) ->
  exists before zone after,
    zonesOf (w_projectsRef w) = before ++ zone :: after /\
    z_id zone = zoneId /\
    Forall (fun z => z_id z <> zoneId) before /\
    zonesOf (projects (w_state (world_after run)))
    = before
      ++ mkZone (z_id zone) (z_buildingId zone) (z_name zone) (z_createdAt zone)
           (z_shutters zone ++ [created])
      :: after /\
    shuttersOf (projects (w_state (world_after run)))
    = flat_map z_shutters before ++ (z_shutters zone ++ [created]) ++ flat_map z_shutters after /\
    s_zoneId created = zoneId /\
    s_name created = sd_name shutterData /\
    s_remarks created = sd_remarks shutterData /\
    w_store (world_after run) !! PROJECTS
    = Some (JSON_stringify_projects (projects (w_state (world_after run)))).
Proof.
  intros run. assert (run = createShutter zoneId shutterData w) as Hrun by reflexivity.
  clearbody run. unfold createShutter in Hrun.
  unfold bind at 1 in Hrun. unfold get at 1 in Hrun. cbv beta match zeta in Hrun.
  destruct (locateZone (w_projectsRef w) zoneId)
    as [[[[i project] [j building]] [k zone]]|] eqn:Hlocate.
  2:{ subst run. done. }
  apply locateZone_first in Hlocate
    as (ps1 & ps2 & bs1 & bs2 & zs1 & zs2 & Hps & -> & Hbs & -> & Hzs & -> & Hid & Hfirst).
  unfold bind at 1 in Hrun.
  destruct (ProviderProperties.internal_generateUniqueId w)
    as (id & w1 & E1 & Hf1 & Hstore1 & Hstate1 & Href1).
  rewrite E1 in Hrun.
  unfold Date_now in Hrun.
  do 3 (unfold bind at 1 in Hrun; unfold get at 1 in Hrun; cbv beta match zeta in Hrun).
  unfold bind at 1 in Hrun.
  match type of Hrun with
  | context [saveProjects ?ps w1] =>
      pose proof (saveProjects_done ps w1) as Hdone; unfold outcome, world_after in Hdone;
      destruct (saveProjects ps w1) as [[[[]|] w2] e2]
  end.
  2:{ subst run. done. }
  unfold ret in Hrun. cbv beta match zeta in Hrun. subst run.
  unfold outcome, world_after. cbn [fst snd] in *. intros [= <-].
  destruct (Hdone eq_refl) as (Hprojects & Hstored & _).
  exists (zonesOf ps1 ++ buildingZones bs1 ++ zs1), zone,
    (zs2 ++ buildingZones bs2 ++ zonesOf ps2).
  assert (zonesOf (projects (w_state w2))
          = (zonesOf ps1 ++ buildingZones bs1 ++ zs1)
            ++ mkZone (z_id zone) (z_buildingId zone) (z_name zone) (z_createdAt zone)
                 (z_shutters zone
                  ++ [mkShutter id zoneId (sd_name shutterData) (sd_remarks shutterData)
                        (w_now w1) (w_now w1)])
            :: (zs2 ++ buildingZones bs2 ++ zonesOf ps2)) as Hzones.
  { rewrite Hprojects, Hps. by apply zones_after_rebuild. }
  split; [rewrite Hps; by apply (zones_before_rebuild _ _ _ _ building)|].
  split; [done|]. split; [done|]. split; [exact Hzones|].
  split.
  { rewrite shuttersOf_zonesOf, Hzones, flat_map_app. by cbn [flat_map z_shutters]. }
  split; [done|]. split; [done|]. split; [done|]. by rewrite Hstored, Hprojects.
Qed.

(** *** [deleteShutter] *)

Lemma filter_differs {A} (key : A -> jsstring) (id : jsstring) (l : list A) :
  List.filter (fun x => differs id (key x)) l
  = List.filter (fun x => bool_decide (key x <> id)) l.
Proof.
  apply List.filter_ext. intros x. unfold differs, eqb.
  by rewrite bool_decide_not.
Qed.

(** When [deleteShutter] answers [true], one zone of the tree has changed:
    the first one, in the order of the tree, that holds a shutter with the
    identifier.  It has lost every shutter with that identifier and keeps
    the others in their order; every other zone is as it was; and the
    favourites in memory have lost the identifier. *)
Theorem deleteShutter_clears_first_zone (rendered : AppState) (shutterId : jsstring) (w : World) :
  let run := deleteShutter rendered shutterId w in
  outcome run = Returned true ->
  exists before zone after,
    zonesOf (w_projectsRef w) = before ++ zone :: after /\
    shutterId ∈ map s_id (z_shutters zone) /\
    Forall (fun s => s_id s <> shutterId) (flat_map z_shutters before) /\
    zonesOf (projects (w_state (world_after run)))
    = before
      ++ mkZone (z_id zone) (z_buildingId zone) (z_name zone) (z_createdAt zone)
           (List.filter (fun s => bool_decide (s_id s <> shutterId)) (z_shutters zone))
      :: after /\
    favoriteShutters (w_state (world_after run))
    = List.filter (fun fId => bool_decide (fId <> shutterId)) (favoriteShutters rendered).
Proof.
  intros run. assert (run = deleteShutter rendered shutterId w) as Hrun by reflexivity.
  clearbody run. unfold deleteShutter in Hrun.
  unfold bind at 1 in Hrun. unfold get at 1 in Hrun. cbv beta match zeta in Hrun.
  destruct (locateShutter (w_projectsRef w) shutterId)
    as [[[[[i project] [j building]] [k zone]] [n shutter]]|] eqn:Hlocate.
  2:{ subst run. done. }
  apply locateShutter_Some in Hlocate
    as (ps1 & ps2 & bs1 & bs2 & zs1 & zs2 & ss1 & ss2 &
        Hps & -> & Hbs & -> & Hzs & -> & Hss & -> & Hid & Hfirst).
  unfold bind at 1 in Hrun. unfold Date_now, get at 1 in Hrun. cbv beta match zeta in Hrun.
  unfold bind at 1 in Hrun. unfold Promise_all in Hrun.
  assert (exists w1 e1,
            setFavoriteShutters (List.filter (differs shutterId) (favoriteShutters rendered)) w
            = (Returned tt, w1, e1) /\
            favoriteShutters (w_state w1)
            = List.filter (differs shutterId) (favoriteShutters rendered))
    as (w1 & e1 & E1 & Hfav).
  { unfold setFavoriteShutters, safeStorageOperation, AsyncStorage.setItem,
      setFavoriteShuttersState, outside.
    run. destruct (w_faults w) as [|[|] fs]; eauto. }
  rewrite E1 in Hrun.
  match type of Hrun with
  | context [saveProjects ?ps w1] =>
      pose proof (saveProjects_done ps w1) as Hdone; unfold outcome, world_after in Hdone;
      destruct (saveProjects ps w1) as [[[[]|] w2] e2]
  end.
  2:{ subst run. done. }
  unfold ret in Hrun. cbv beta match zeta in Hrun. subst run.
  unfold outcome, world_after. cbn [fst snd] in *. intros _.
  destruct (Hdone eq_refl) as (Hprojects & _ & Hkept).
  exists (zonesOf ps1 ++ buildingZones bs1 ++ zs1), zone,
    (zs2 ++ buildingZones bs2 ++ zonesOf ps2).
  split; [rewrite Hps; by apply (zones_before_rebuild _ _ _ _ building)|].
  split.
  { rewrite Hss, <- Hid. apply list_elem_of_fmap_2. apply elem_of_app. right. left. }
  split.
  { rewrite !flat_map_app, <- shuttersOf_zonesOf, flat_map_flat_map.
    rewrite !app_assoc in Hfirst. apply Forall_app in Hfirst as [Hfirst _].
    by rewrite <- !app_assoc in Hfirst. }
  split.
  { rewrite Hprojects, Hps, <- (filter_differs s_id). by apply zones_after_rebuild. }
  rewrite Hkept, Hfav. apply (filter_differs (fun fId => fId)).
Qed.

(** *** Identifiers that name nothing *)

(** [deleteShutter] answers [false] exactly when no shutter of the tree has
    the identifier, and then it makes no call and changes nothing; the same
    holds of [deleteNote] for an identifier that no note has. *)
Theorem single_delete_reports_absence (rendered : AppState) (id : jsstring) (w : World) :
  (outcome (deleteShutter rendered id w) = Returned false <->
   id ∉ map s_id (shuttersOf (w_projectsRef w))) /\
  ((id ∉ map s_id (shuttersOf (w_projectsRef w))) ->
   deleteShutter rendered id w = (Returned false, w, [])) /\
  ((id ∉ map n_id (notes rendered)) ->
   deleteNote rendered id w = (Returned false, w, [])).
Proof.
  assert ((id ∉ map s_id (shuttersOf (w_projectsRef w))) ->
          deleteShutter rendered id w = (Returned false, w, [])) as Habsent.
  { intros H%locateShutter_absent. unfold deleteShutter. run. by rewrite H. }
  split; [split|split; [exact Habsent|]].
  - intros Hfalse.
    destruct (locateShutter (w_projectsRef w) id) as [found|] eqn:Hlocate;
      [|by apply locateShutter_None].
    exfalso. revert Hfalse. unfold deleteShutter.
    unfold bind at 1. unfold get at 1. cbv beta match zeta. rewrite Hlocate.
    destruct found as [[[[i project] [j building]] [k zone]] [n shutter]].
    unfold bind at 1. unfold Date_now, get at 1. cbv beta match zeta.
    unfold bind at 1.
    match goal with |- context [Promise_all ?a ?b w] => destruct (Promise_all a b w) as [[[r|] w1] e1] end;
      unfold ret, outcome; cbn [fst]; done.
  - intros H. by rewrite (Habsent H).
  - intros H. unfold deleteNote. run.
    by rewrite (findIndex_absent n_id) by done.
Qed.

(** An update, or a creation under a parent, whose identifier names nothing
    answers [null], makes no call to the store and changes nothing.  For
    each operation this is said of the entities it looks through: the
    projects, the buildings, the zones or the shutters of the tree, or the
    notes of the list. *)
Theorem unknown_id_returns_null (rendered : AppState) (id : jsstring) (w : World)
    (onProject : Project -> Project) (onBuilding : Building -> Building)
    (onZone : FunctionalZone -> FunctionalZone) (onShutter : Shutter -> Shutter)
    (onNote : NoteUpdates) (building : BuildingData) (shutter : ShutterData) :
  ((id ∉ map p_id (w_projectsRef w)) ->
   updateProject id onProject w = (Returned None, w, []) /\
   createBuilding id building w = (Returned None, w, [])) /\
  ((id ∉ map b_id (buildingsOf (w_projectsRef w))) ->
   updateBuilding id onBuilding w = (Returned None, w, [])) /\
  ((id ∉ map z_id (zonesOf (w_projectsRef w))) ->
   updateFunctionalZone id onZone w = (Returned None, w, []) /\
   createShutter id shutter w = (Returned None, w, [])) /\
  ((id ∉ map s_id (shuttersOf (w_projectsRef w))) ->
   updateShutter id onShutter w = (Returned None, w, [])) /\
  ((id ∉ map n_id (notes rendered)) ->
   updateNote rendered id onNote w = (Returned None, w, [])).
Proof.
  split; [|split; [|split; [|split]]].
  - intros H%(findIndex_absent p_id). unfold updateProject, createBuilding. run.
    by rewrite H.
  - intros H%locateBuilding_absent. unfold updateBuilding. run. by rewrite H.
  - intros H%locateZone_absent. unfold updateFunctionalZone, createShutter. run.
    by rewrite H.
  - intros H%locateShutter_absent. unfold updateShutter, updateShutter_snapshot. run.
    by rewrite H.
  - intros H%(findIndex_absent n_id). unfold updateNote. by rewrite H.
Qed.

End WithRuntime.
End TreeProperties.

(** The properties of the utilities, the import and the tree at concrete
    inputs. *)

Module TourExamples.
Import JsString Data Platform ImageStorage StorageContext STORAGE_KEYS Vocabulary.
Import ImageProperties ProviderProperties TreeProperties DemoRuntime.

Lemma persistImagesIfNeeded_returns_file_references_example :
  let images := Some [pngHeader ++ 44%N :: pngPayload; js "file:///documents/notes/a.jpg"; js "blob:x"] in
  let run := @persistImagesIfNeeded mobile images emptyWorld in
  exists result,
    outcome run = Returned result /\
    match result with
    | Some persisted =>
        persisted <> [] /\
        Forall (fun img => startsWith img (js "file://") = true) persisted /\
        (length persisted <= length (default [] images))%nat
    | None => True
    end /\
    w_store (world_after run) = w_store emptyWorld.
Proof.
  apply (@persistImagesIfNeeded_returns_file_references mobile). reflexivity.
Defined.

Lemma persisted_image_is_stored_and_removable_example :
  let image := pngHeader ++ 44%N :: pngPayload in
  let saved := @persistImagesIfNeeded mobile (Some [image]) emptyWorld in
  exists path,
    outcome saved = Returned (Some [js "file://" ++ path]) /\
    w_files (world_after saved) !! path = Some pngPayload /\
    let removed := @removeImages mobile (Some [js "file://" ++ path]) (world_after saved) in
    outcome removed = Returned tt /\
    w_files (world_after removed) !! path = None /\
    forall other, other <> path ->
      w_files (world_after removed) !! other = w_files emptyWorld !! other.
Proof.
  apply (@persisted_image_is_stored_and_removable mobile pngHeader pngPayload emptyWorld).
  - reflexivity.
  - reflexivity.
  - reflexivity.
  - apply (bool_decide_unpack _). by vm_compute.
  - apply (bool_decide_unpack _). by vm_compute.
  - discriminate.
Defined.

(** The note with a photograph keeps the file reference it had and gets
    one for its inline image; the entry of no known format is gone. *)
Lemma saveNotes_on_phone_keeps_sanitized_notes_example :
  let run := @saveNotes mobile [photoNote; note (js "hello")] emptyWorld in
  Forall2 SanitizedNote [photoNote; note (js "hello")] (notes (w_state (world_after run))) /\
  Forall (fun n => Forall (fun image => ~ inlineImage image) (imagesOf n))
    (notes (w_state (world_after run))).
Proof.
  apply (@saveNotes_on_phone_keeps_sanitized_notes mobile [photoNote; note (js "hello")]
           emptyWorld).
  - reflexivity.
  - vm_compute. reflexivity.
Defined.

Lemma saveNotes_on_phone_images :
  map n_images (notes (w_state (world_after
                  (@saveNotes mobile [photoNote; note (js "hello")] emptyWorld))))
  = [Some [js "file:///documents/notes/img_1700000000000_0_.png";
           js "file:///documents/notes/a.jpg"];
     None].
Proof. vm_compute. reflexivity. Qed.

Lemma clearAllData_removes_everything_example :
  let run := clearAllData plantState plantWorld in
  outcome run = Returned tt /\
  w_state (world_after run) = emptyState /\
  (forall key, key ∈ namedKeys \/ key_startsWith key chunkPrefix = true ->
     w_store (world_after run) !! key = None) /\
  (forall key, key ∉ namedKeys -> key_startsWith key chunkPrefix = false ->
     w_store (world_after run) !! key = w_store plantWorld !! key).
Proof.
  apply (clearAllData_removes_everything plantState plantWorld). reflexivity.
Defined.

Lemma blank_query_lists_every_shutter_example :
  searchShutters [project1] (js "  ") = allShutters [project1] /\
  totalShutters (getStorageInfo [project1])
  = Z.of_nat (length (searchShutters [project1] (js "  "))) /\
  projectsCount (getStorageInfo [project1]) = Z.of_nat (length [project1]).
Proof.
  apply (blank_query_lists_every_shutter [project1] (js "  ")). reflexivity.
Defined.

Lemma importProject_appends_a_linked_copy_example :
  let run := importProject plantState project1 [note (js "imported")] plantWorld in
  exists imported,
    copiedProject project1 imported /\
    projects (w_state (world_after run)) = w_projectsRef plantWorld ++ [imported].
Proof.
  apply (importProject_appends_a_linked_copy plantState project1 [note (js "imported")] plantWorld).
  vm_compute. reflexivity.
Defined.

Lemma importProject_failed_tree_write_keeps_notes_example :
  let run := importProject plantState project1 [note (js "imported")] unwrittenWorld in
  outcome run = Returned false /\
  projects (w_state (world_after run)) = projects (w_state unwrittenWorld) /\
  notes (w_state (world_after run)) = notes plantState ++ map webImages [note (js "imported")].
Proof.
  apply (importProject_failed_tree_write_keeps_notes plantState project1
           [note (js "imported")] unwrittenWorld); reflexivity.
Defined.

Lemma preference_write_fails_silently_example :
  let run := setFavoriteShutters [js "sA"] unwrittenWorld in
  outcome run = Returned tt /\ w_store (world_after run) = w_store unwrittenWorld /\
  favoriteShutters (w_state (world_after run)) = [js "sA"].
Proof.
  pose proof (preference_write_fails_silently plantState unwrittenWorld [] eq_refl)
    as (_ & _ & _ & H & _).
  apply H.
Defined.

Lemma absent_from (id : jsstring) (ids : list jsstring) :
  bool_decide (id ∈ ids) = false -> id ∉ ids.
Proof. apply bool_decide_eq_false. Qed.

Lemma unknown_id_returns_null_example :
  updateProject (js "nowhere") (fun p => p) plantWorld = (Returned None, plantWorld, []) /\
  createBuilding (js "nowhere") annex plantWorld = (Returned None, plantWorld, []) /\
  updateBuilding (js "nowhere") (fun b => b) plantWorld = (Returned None, plantWorld, []) /\
  updateFunctionalZone (js "nowhere") (fun z => z) plantWorld = (Returned None, plantWorld, []) /\
  createShutter (js "nowhere") shutterC plantWorld = (Returned None, plantWorld, []) /\
  updateShutter (js "nowhere") (fun s => s) plantWorld = (Returned None, plantWorld, []) /\
  updateNote plantState (js "nowhere") untouched plantWorld = (Returned None, plantWorld, []).
Proof.
  pose proof (unknown_id_returns_null plantState (js "nowhere") plantWorld
                (fun p => p) (fun b => b) (fun z => z) (fun s => s) untouched annex shutterC)
    as (Hproject & Hbuilding & Hzone & Hshutter & Hnote).
  assert (forall ids : list jsstring, bool_decide (js "nowhere" ∈ ids) = false ->
                                      js "nowhere" ∉ ids) as Habsent
    by (intros ids; apply absent_from).
  destruct Hproject as [H1 H2]; [apply Habsent; vm_compute; reflexivity|].
  destruct Hzone as [H4 H5]; [apply Habsent; vm_compute; reflexivity|].
  split; [exact H1|]. split; [exact H2|].
  split; [apply Hbuilding, Habsent; vm_compute; reflexivity|].
  split; [exact H4|]. split; [exact H5|].
  split; [apply Hshutter, Habsent; vm_compute; reflexivity|].
  apply Hnote, Habsent. vm_compute. reflexivity.
Defined.

Lemma single_delete_reports_absence_example :
  (outcome (deleteShutter plantState (js "sX") plantWorld) = Returned false <->
   js "sX" ∉ map s_id (shuttersOf (w_projectsRef plantWorld))) /\
  deleteShutter plantState (js "sX") plantWorld = (Returned false, plantWorld, []) /\
  deleteNote plantState (js "sX") plantWorld = (Returned false, plantWorld, []).
Proof.
  pose proof (single_delete_reports_absence plantState (js "sX") plantWorld)
    as (Hiff & Hshutter & Hnote).
  split; [exact Hiff|]. split.
  - apply Hshutter. apply absent_from. vm_compute. reflexivity.
  - apply Hnote. apply absent_from. vm_compute. reflexivity.
Defined.

Lemma updateShutter_changes_one_shutter_example :
  let updated := with_s_updatedAt (w_now plantWorld) (rename (js "A2") shutterA) in
  let run := updateShutter (js "sA") (rename (js "A2")) plantWorld in
  exists before original after,
    shuttersOf (w_projectsRef plantWorld) = before ++ original :: after /\
    s_id original = js "sA" /\
    Forall (fun s => s_id s <> js "sA") before /\
    updated = with_s_updatedAt (w_now plantWorld) (rename (js "A2") original) /\
    shuttersOf (projects (w_state (world_after run))) = before ++ updated :: after /\
    w_store (world_after run) !! PROJECTS
    = Some (JSON_stringify_projects (projects (w_state (world_after run)))).
Proof.
  apply (updateShutter_changes_one_shutter (js "sA") (rename (js "A2")) plantWorld).
  reflexivity.
Defined.

Lemma createShutter_appends_to_its_zone_example :
  let created :=
    mkShutter (decimal (w_now plantWorld) ++ js "_") (js "z1") (js "C") None
      (w_now plantWorld) (w_now plantWorld) in
  let run := createShutter (js "z1") shutterC plantWorld in
  exists before zone after,
    zonesOf (w_projectsRef plantWorld) = before ++ zone :: after /\
    z_id zone = js "z1" /\
    Forall (fun z => z_id z <> js "z1") before /\
    zonesOf (projects (w_state (world_after run)))
    = before
      ++ mkZone (z_id zone) (z_buildingId zone) (z_name zone) (z_createdAt zone)
           (z_shutters zone ++ [created])
      :: after /\
    shuttersOf (projects (w_state (world_after run)))
    = flat_map z_shutters before ++ (z_shutters zone ++ [created]) ++ flat_map z_shutters after /\
    s_zoneId created = js "z1" /\
    s_name created = sd_name shutterC /\
    s_remarks created = sd_remarks shutterC /\
    w_store (world_after run) !! PROJECTS
    = Some (JSON_stringify_projects (projects (w_state (world_after run)))).
Proof.
  apply (createShutter_appends_to_its_zone (js "z1") shutterC plantWorld).
  vm_compute. reflexivity.
Defined.

Lemma deleteShutter_clears_first_zone_example :
  let run := deleteShutter plantState (js "sA") plantWorld in
  exists before zone after,
    zonesOf (w_projectsRef plantWorld) = before ++ zone :: after /\
    js "sA" ∈ map s_id (z_shutters zone) /\
    Forall (fun s => s_id s <> js "sA") (flat_map z_shutters before) /\
    zonesOf (projects (w_state (world_after run)))
    = before
      ++ mkZone (z_id zone) (z_buildingId zone) (z_name zone) (z_createdAt zone)
           (List.filter (fun s => bool_decide (s_id s <> js "sA")) (z_shutters zone))
      :: after /\
    favoriteShutters (w_state (world_after run))
    = List.filter (fun fId => bool_decide (fId <> js "sA")) (favoriteShutters plantState).
Proof.
  apply (deleteShutter_clears_first_zone plantState (js "sA") plantWorld).
  vm_compute. reflexivity.
Defined.

Lemma updates_in_turn_both_last_example :
  let updatedA := with_s_updatedAt (w_now plantWorld) (rename (js "A2") shutterA) in
  let updatedB := with_s_updatedAt (w_now plantWorld) (rename (js "B2") shutterB) in
  let first := updateShutter (js "sA") (rename (js "A2")) plantWorld in
  let second := updateShutter (js "sB") (rename (js "B2")) (commitRender (world_after first)) in
  updatedA ∈ shuttersOf (projects (w_state (world_after second))) /\
  updatedB ∈ shuttersOf (projects (w_state (world_after second))).
Proof.
  apply (updates_in_turn_both_last (js "sA") (js "sB") (rename (js "A2")) (rename (js "B2"))
           plantWorld).
  - reflexivity.
  - reflexivity.
  - discriminate.
Defined.

Lemma module_state_history_changes_before_it_writes_example :
  (let run := ModuleStateProvider.addQuickCalcHistory measurement unwrittenWorld in
   outcome run = Thrown /\ w_store (world_after run) = w_store unwrittenWorld /\
   exists newItem,
     quickCalcHistory (w_state (world_after run))
     = take 5 (newItem :: quickCalcHistory (w_state unwrittenWorld))) /\
  (let run := ModuleStateProvider.clearQuickCalcHistory unwrittenWorld in
   outcome run = Thrown /\ w_store (world_after run) = w_store unwrittenWorld /\
   quickCalcHistory (w_state (world_after run)) = []) /\
  (let run := ModuleStateProvider.removeQuickCalcHistoryItem (js "h1") unwrittenWorld in
   outcome run = Thrown /\ w_store (world_after run) = w_store unwrittenWorld /\
   quickCalcHistory (w_state (world_after run))
   = List.filter (fun item => negb (eqb (h_id item) (js "h1")))
       (quickCalcHistory (w_state unwrittenWorld))).
Proof.
  apply (ModuleStateProperties.module_state_history_changes_before_it_writes
           measurement (js "h1") unwrittenWorld []).
  reflexivity.
Defined.

End TourExamples.
